(** * syst-breakdown: systematic-uncertainty breakdown of a fit result

    A shallow embedding of the two scripts of the repository,
    [run_fits.py] (the group-command generator) and [syst_breakdown.py]
    (the breakdown engine), and the properties of the specification
    checked against them.

    Conventions of the embedding.
    - A Python [str] is a [string]; a character is a code point below 256.
    - A Python [list] is a [list]; [l[i]] is stdpp's lookup, [l[i] = x]
      stdpp's insert, both after the bounds check Python performs.
    - A Python [dict] is an association list in insertion order
      ([Py.dict]); assignment to a present key replaces the value in place,
      assignment to a new key appends.
    - A Python [float] is an IEEE 754 binary64 number, Rocq's primitive
      [float]: sums, differences, products, quotients and square roots
      round, overflow and underflow as the hardware's do, and infinities
      and NaN are values.  The exceptions are Python's: [x ** 2] raises
      [OverflowError] when a finite [x] has an infinite square, [x / y]
      raises [ZeroDivisionError] when [y] is a zero, [math.sqrt] raises
      [ValueError] below zero.  The C library's [pow(x, 2.0)] is taken to
      return the correctly rounded square.
    - Effects are explicit.  A computation is a [Py.run]: the trace of the
      records it logged and the lines it printed, and how it ended: it
      returned, it raised, or it called [sys.exit]. *)

From Stdlib Require Import ZArith Lia Ascii Floats.
From stdpp Require Import base list sets strings.

Set Default Proof Using "Type".

(** ** The Python runtime the scripts rely on *)
Module Py.

(** Built-in exceptions the scripts can raise. *)
Inductive exn : Type :=
| KeyError (key : string)
| IndexError
| ValueError
| ZeroDivisionError
| OverflowError.

(** How a call ends without returning: an exception propagates, or
    [sys.exit(code)] ends the run. *)
Inductive abort : Type :=
| Raised (e : exn)
| Exited (code : Z).

(** How a call ends. *)
Inductive outcome (A : Type) : Type :=
| Return (a : A)
| Abort (f : abort).
Global Arguments Return {A} a.
Global Arguments Abort {A} f.
Abbreviation Raise e := (Abort (Raised e)).
Abbreviation SysExit code := (Abort (Exited code)).

(** [logging] levels used by the scripts. *)
Inductive level : Type := WARNING | ERROR.

(** One observable effect: a [logging] record or a [print]ed line. *)
Inductive event (M L : Type) : Type :=
| Log (lvl : level) (m : M)
| Print (l : L).
Global Arguments Log {M L} lvl m.
Global Arguments Print {M L} l.

Record run (E A : Type) : Type := Run { trace : list E; result : outcome A }.
Global Arguments Run {E A} trace result.
Global Arguments trace {E A} r.
Global Arguments result {E A} r.

Definition ret {E A} (a : A) : run E A := Run [] (Return a).

Definition bind {E A B} (m : run E A) (k : A → run E B) : run E B :=
  match result m with
  | Return a => let r := k a in Run (trace m ++ trace r) (result r)
  | Abort f => Run (trace m) (Abort f)
  end.

Global Instance run_ret {E} : MRet (run E) := λ A, ret.
Global Instance run_bind {E} : MBind (run E) := λ A B k m, bind m k.

Definition emit {E} (e : E) : run E () := Run [e] (Return ()).
Definition raise {E A} (e : exn) : run E A := Run [] (Raise e).
Definition sys_exit {E A} (code : Z) : run E A := Run [] (SysExit code).

(** [for x in xs: s = body s x], the loop state threaded explicitly. *)
Fixpoint for_each {E X S} (xs : list X) (body : S → X → run E S) (s : S)
  : run E S :=
  match xs with
  | [] => mret s
  | x :: xs' => s' ← body s x; for_each xs' body s'
  end.

(** *** Strings *)

(** [str.isspace] on one character (code points below 256). *)
Definition isspace (c : Ascii.ascii) : bool :=
  let n := Ascii.nat_of_ascii c in
  ((9 <=? n) && (n <=? 13)) || ((28 <=? n) && (n <=? 32))
  || (n =? 133) || (n =? 160).

(** [s.split()]: the maximal runs of non-whitespace characters. *)
Fixpoint split_go (word : string) (s : string) : list string :=
  match s with
  | "" => match word with "" => [] | _ => [word] end
  | String c s' =>
      if isspace c
      then match word with
           | "" => split_go "" s'
           | _ => word :: split_go "" s'
           end
      else split_go (word +:+ String c "") s'
  end.
Definition split (s : string) : list string := split_go "" s.

(** [sep.join(l)]. *)
Fixpoint join (sep : string) (l : list string) : string :=
  match l with
  | [] => ""
  | [x] => x
  | x :: l' => x +:+ sep +:+ join sep l'
  end.

(** [s.startswith(p)]. *)
Fixpoint startswith (p s : string) : bool :=
  match p, s with
  | "", _ => true
  | String a p', String b s' => bool_decide (a = b) && startswith p' s'
  | String _ _, "" => false
  end.

(** [sub in s] on strings: [sub] occurs in [s] as a substring. *)
Fixpoint contains (sub s : string) : bool :=
  startswith sub s
  || match s with
     | "" => false
     | String _ s' => contains sub s'
     end.

(** [s[:n]] and [s[n:]] for [0 <= n]. *)
Fixpoint take (n : nat) (s : string) : string :=
  match n, s with
  | S n', String c s' => String c (take n' s')
  | _, _ => ""
  end.
Fixpoint drop (n : nat) (s : string) : string :=
  match n, s with
  | S n', String _ s' => drop n' s'
  | _, _ => s
  end.

(** [s.rfind(c)] for a one-character [c]: the last index, or [-1]. *)
Fixpoint rfind (c : Ascii.ascii) (s : string) : Z :=
  match s with
  | "" => -1
  | String a s' =>
      let r := rfind c s' in
      if (0 <=? r)%Z then (r + 1)%Z
      else if bool_decide (a = c) then 0%Z else (-1)%Z
  end.

(** [s.split(sep)] for a non-empty [sep]: the pieces between the
    non-overlapping occurrences of [sep], found from the left.  [skip]
    counts the characters of a matched separator still to pass over,
    [piece] is the piece being read. *)
Fixpoint split_sep_go (sep : string) (skip : nat) (piece : string)
    (s : string) : list string :=
  match s with
  | "" => [piece]
  | String c s' =>
      match skip with
      | S k => split_sep_go sep k piece s'
      | O =>
          if startswith sep s
          then piece :: split_sep_go sep (String.length sep - 1) "" s'
          else split_sep_go sep 0 (piece +:+ String c "") s'
      end
  end.

(** [s.split(sep)]; an empty separator is a [ValueError]. *)
Definition split_sep {E} (sep s : string) : run E (list string) :=
  match sep with
  | "" => raise ValueError
  | _ => mret (split_sep_go sep 0 "" s)
  end.

(** [l[i]]: an [IndexError] when out of range (for [0 <= i]). *)
Definition index_list {E A} (l : list A) (i : nat) : run E A :=
  match l !! i with
  | Some x => mret x
  | None => raise IndexError
  end.

(** [l.index(x)]: the first position of [x]; a [ValueError] if absent. *)
Definition list_index {E} (x : string) (l : list string) : run E nat :=
  match list_find (λ y, y = x) l with
  | Some (i, _) => mret i
  | None => raise ValueError
  end.

(** [os.path.splitext] (posixpath): the extension starts at the last dot
    of the last path component, unless only dots precede it there. *)
Fixpoint splitext_scan (p : string) (filenameIndex : nat) (remaining : nat)
    (dotIndex : nat) : string * string :=
  match remaining with
  | O => (p, "")
  | S remaining' =>
      if negb (bool_decide
                 (take 1 (drop filenameIndex p) = "."))
      then (take dotIndex p, drop dotIndex p)
      else splitext_scan p (S filenameIndex) remaining' dotIndex
  end.
Definition splitext (p : string) : string * string :=
  let sepIndex := rfind "/"%char p in
  let dotIndex := rfind "."%char p in
  if (sepIndex <? dotIndex)%Z
  then
    let filenameIndex := Z.to_nat (sepIndex + 1) in
    splitext_scan p filenameIndex (Z.to_nat dotIndex - filenameIndex)
      (Z.to_nat dotIndex)
  else (p, "").

(** *** Floats *)

(** [x ** 2] on a float ([float_pow] with the exponent 2): a NaN or an
    infinity is squared without complaint, and a finite [x] whose square
    is infinite is an [OverflowError]; a square that underflows is 0.
    The square is the correctly rounded product [x * x], as the power
    function of a correctly rounding C library gives it. *)
Definition float_square {E} (x : float) : run E float :=
  let y := (x * x)%float in
  if is_finite x && is_infinity y then raise OverflowError else mret y.

(** [x / y] on floats: a zero divisor, of either sign, is a
    [ZeroDivisionError]; the quotient itself may overflow to an infinity
    or be a NaN. *)
Definition float_div {E} (x y : float) : run E float :=
  if (y =? 0)%float then raise ZeroDivisionError else mret (x / y)%float.

(** [math.sqrt(x)]: a [ValueError] below zero (minus infinity included);
    the root of a zero, of plus infinity or of a NaN is itself. *)
Definition math_sqrt {E} (x : float) : run E float :=
  if (x <? 0)%float then raise ValueError else mret (sqrt x).

(** *** Dictionaries *)

Definition dict (V : Type) : Type := list (string * V).

(** [key in d] / [d.get(key)]. *)
Fixpoint dict_lookup {V} (d : dict V) (key : string) : option V :=
  match d with
  | [] => None
  | (k, v) :: d' => if bool_decide (k = key) then Some v
                    else dict_lookup d' key
  end.

(** [d[key]]: a [KeyError] if absent. *)
Definition dict_get {E V} (d : dict V) (key : string) : run E V :=
  match dict_lookup d key with
  | Some v => mret v
  | None => raise (KeyError key)
  end.

(** [d[key] = v]. *)
Fixpoint dict_set {V} (d : dict V) (key : string) (v : V) : dict V :=
  match d with
  | [] => [(key, v)]
  | (k, w) :: d' => if bool_decide (k = key) then (k, v) :: d'
                    else (k, w) :: dict_set d' key v
  end.

(** [list(d)], the keys in insertion order. *)
Definition keys {V} (d : dict V) : list string := d.*1.

(** A dictionary holds each key once. *)
Definition dict_wf {V} (d : dict V) : Prop := NoDup (keys d).

End Py.

(** ** run_fits.py: the group-command generator *)
Module RunFits.
Import Py.

(** The records the script logs, one constructor per [logging] call. *)
Inductive message : Type :=
| NoInformation (syst : string)   (* fixed_systs: no parameter matches *)
| OutputMissing                   (* -o argument is missing *)
| OutputNotFollowed               (* -o is the last token *)
| OutputNotRoot                   (* -o value has no .root extension *)
| PoisMissing                     (* -p argument is missing *)
| PoisNotFollowed                 (* -p is the last token *)
| PoisNotFormatted.               (* -p value holds no = *)

Definition effect : Type := event message Empty_set.

Section WithValues.
(** The fitted values are only ever formatted: [format_value v] is
    ['{}'.format(v)], Python's rendering of the value. *)
Context {V : Type} (format_value : V → string).

Definition fixed_systs (systs : list string) (info : dict V)
  : run effect string :=
  syst_list ← for_each systs (λ syst_list syst,
    let matched_keys := filter (λ key, contains syst key) (keys info) in
    match matched_keys with
    | [] => emit (Log WARNING (NoInformation syst));; mret syst_list
    | _ =>
        entries ← for_each matched_keys (λ entries key,
          value ← dict_get info key;
          mret (entries ++ [key +:+ "=" +:+ format_value value])) [];
        mret (syst_list ++ entries)
    end) [];
  let fixed_str := join "," syst_list in
  mret fixed_str.

(** [edit_cmd], the block under [# Handle -o option]. *)
Definition edit_output (split_cmd : list string) (group_name : string)
  : run effect (list string) :=
  if negb (bool_decide ("-o" ∈ split_cmd)) then
    emit (Log WARNING OutputMissing);;
    mret (split_cmd ++ ["-o " +:+ group_name +:+ ".root"])
  else
    idx ← list_index "-o" split_cmd;
    if bool_decide (idx = length split_cmd - 1) then
      emit (Log ERROR OutputNotFollowed);; sys_exit 1
    else
      path ← index_list split_cmd (idx + 1);
      let '(outname, extension) := splitext path in
      if negb (bool_decide (extension = ".root")) then
        emit (Log ERROR OutputNotRoot);; sys_exit 1
      else
        let outname := outname +:+ "_" +:+ group_name in
        mret (<[idx + 1 := outname +:+ extension]> split_cmd).

(** [edit_cmd], the block under [# Handle -p option]. *)
Definition edit_pois (split_cmd : list string) (fixed : string)
  : run effect (list string) :=
  if negb (bool_decide ("-p" ∈ split_cmd)) then
    emit (Log WARNING PoisMissing);;
    mret (split_cmd ++ ["-p " +:+ fixed])
  else
    idx ← list_index "-p" split_cmd;
    if bool_decide (idx = length split_cmd - 1) then
      emit (Log ERROR PoisNotFollowed);; sys_exit 1
    else
      pois ← index_list split_cmd (idx + 1);
      if negb (contains "=" pois) then
        emit (Log ERROR PoisNotFormatted);; sys_exit 1
      else
        mret (<[idx + 1 := pois +:+ "," +:+ fixed]> split_cmd).

(** The token list [split_cmd] as [edit_cmd] leaves it before joining. *)
Definition edit_split_cmd (cmd group_name fixed : string)
  : run effect (list string) :=
  let split_cmd := split cmd in
  split_cmd ← edit_output split_cmd group_name;
  edit_pois split_cmd fixed.

Definition edit_cmd (cmd group_name fixed : string) : run effect string :=
  split_cmd ← edit_split_cmd cmd group_name fixed;
  let cmd := join " " split_cmd in
  mret cmd.

Definition generate_alt_cmds (cmd : string) (groups : dict (list string))
    (NPinfo : dict V) : run effect (list string) :=
  for_each groups (λ alt_cmds '(gname, gsysts),
    fixed_str ← fixed_systs gsysts NPinfo;
    gcmd ← edit_cmd cmd gname fixed_str;
    mret (alt_cmds ++ [gcmd])) [].

End WithValues.
End RunFits.

(** ** syst_breakdown.py: the breakdown engine *)
Module SystBreakdown.
Import Py.

(** [class POI]: a name, a central value and the pair of errors
    [(err_low, err_high)]. *)
Record POI : Type :=
  mkPOI { name : string; value : float; err : float * float }.

(** [POI.__init__]. *)
Definition POI_init (name : string) (value err_low err_high : float) : POI :=
  {| name := name; value := value; err := (err_low, err_high) |}.

(** The records the script logs, one constructor per [logging] call. *)
Inductive message : Type :=
| LowerErrorLarger (alt : float) (poi : string) (base : float)
| UpperErrorLarger (alt : float) (poi : string) (base : float)
| NoMatchingPOIs (fname : string)
| ValuesDiffer (pname gname : string) (tolerance : float).

(** The lines [print_syst_breakdown] prints; the numbers are kept as
    numbers, their four-decimal rendering is not modelled. *)
Inductive line : Type :=
| Title
| PoiHeading (name : string)
| Rule
| ColumnTitles
| BaseRow (value err_low err_high : float)
| GroupRow (gname : string)
    (value err_low err_high imp_low imp_high : float)
| ClosingRule.

Definition effect : Type := event message line.

(** [a**2 - b**2], the radicand of one side; the base is squared first. *)
Definition radicand (base_err alt_err : float) : run effect float :=
  base_sq ← float_square base_err;
  alt_sq ← float_square alt_err;
  mret (base_sq - alt_sq)%float.

(** The results start as the integer 0, which prints as the float zero
    does; the radicand is computed once for the test and once more for the
    root. *)
Definition sub_quad_errs (self poi : POI) : run effect (float * float) :=
  let res_low := 0%float in
  let res_high := 0%float in
  res_low ←
    (tested ← radicand (err self).1 (err poi).1;
     if (0 <=? tested)%float
     then rooted ← radicand (err self).1 (err poi).1; math_sqrt rooted
     else emit (Log WARNING
                  (LowerErrorLarger (err poi).1 (name self) (err self).1));;
          mret res_low);
  res_high ←
    (tested ← radicand (err self).2 (err poi).2;
     if (0 <=? tested)%float
     then rooted ← radicand (err self).2 (err poi).2; math_sqrt rooted
     else emit (Log WARNING
                  (UpperErrorLarger (err poi).2 (name self) (err self).2));;
          mret res_high);
  mret (res_low, res_high).

(** [alt_fname.split(base+'_')[1].split(ext)[0]], the group name
    [get_fnames] reads off a file name. *)
Definition group_name_of (base ext alt_fname : string) : run effect string :=
  pieces ← split_sep (base +:+ "_") alt_fname;
  rest ← index_list pieces 1;
  pieces ← split_sep ext rest;
  index_list pieces 0.

(** One variable of a workspace, as read after the snapshot is loaded:
    [GetName], [getVal], [getErrorLo], [getErrorHi]. *)
Record variable : Type :=
  { var_name : string; var_value : float; var_err_low : float;
    var_err_high : float }.

(** [tmp[gname]] after the loop over the variables of one workspace.
    The dictionary the loop fills is the loop state. *)
Definition load_group (all_vars : list variable) (poi_list : list string)
  : dict POI :=
  foldl (λ pois var,
    let name := var_name var in
    let isMU := startswith "mu_" name in
    if negb isMU then pois
    else if negb (bool_decide (poi_list = []))
            && negb (bool_decide (name ∈ poi_list)) then pois
    else dict_set pois name
           (POI_init name (var_value var) (var_err_low var)
              (var_err_high var)))
    [] all_vars.

(** [poi_list] of [main]: empty without [-p], else [args.poi.split(',')]
    (a split on a non-empty separator, which cannot raise). *)
Definition poi_list_of (poi : string) : list string :=
  if bool_decide (poi = "") then [] else split_sep_go "," 0 "" poi.

Definition print_last : list string :=
  ["AllSys"; "AllSys+QCDyield"; "AllSys+QCDshape"; "AllSys+QCD"].

Section World.
(** What the scripts read from outside: [glob.glob] over the file
    system, and the variables of the workspace [wsname] of the file
    [fname] with the snapshot [ssname] loaded, in iteration order. *)
Context (glob : string → list string).
Context (read_vars : string → string → string → list variable).

Definition get_fnames (fname : string) : run effect (dict string) :=
  let fnames := [("Base", fname)] in
  let '(base, ext) := splitext fname in
  let alt_fnames := glob (base +:+ "_*" +:+ ext) in
  for_each alt_fnames (λ fnames alt_fname,
    gname ← group_name_of base ext alt_fname;
    mret (dict_set fnames gname alt_fname)) fnames.

Definition load_poi_data (fnames : dict string) (wsname ssname : string)
    (poi_list : list string) : run effect (dict (dict POI)) :=
  tmp ← for_each fnames (λ tmp '(gname, fname),
    let all_vars := read_vars fname wsname ssname in
    let pois := load_group all_vars poi_list in
    let tmp := dict_set tmp gname pois in
    if bool_decide (pois = []) then
      emit (Log ERROR (NoMatchingPOIs fname));; sys_exit 1
    else mret tmp) [];
  (* Restructure dictionary *)
  base ← dict_get tmp "Base";
  for_each (keys base) (λ poi_data pname,
    groups ← for_each (keys fnames) (λ groups gname,
      pois ← dict_get tmp gname;
      poi ← dict_get pois pname;
      mret (dict_set groups gname poi)) [];
    mret (dict_set poi_data pname groups)) [].

(** The mean divides by the integer 2, which is never the zero divisor. *)
Definition check_fit_results (poi_data : dict (dict POI))
    (tolerance : float) : run effect () :=
  for_each (keys poi_data) (λ _ pname,
    groups ← dict_get poi_data pname;
    base_poi ← dict_get groups "Base";
    let base_sigma :=
      ((abs (err base_poi).1 + abs (err base_poi).2) / 2)%float in
    for_each groups (λ _ '(gname, alt_poi),
      if bool_decide (gname = "Base") then mret ()
      else
        ratio ← float_div (abs (value base_poi - value alt_poi)) base_sigma;
        if (tolerance <? ratio)%float
        then emit (Log WARNING (ValuesDiffer pname gname tolerance))
        else mret ()) ()) ().

Definition compute_impacts (poi_data : dict (dict POI))
  : run effect (dict (dict (float * float))) :=
  for_each (keys poi_data) (λ impacts pname,
    groups ← dict_get poi_data pname;
    base_poi ← dict_get groups "Base";
    entry ← for_each groups (λ entry '(gname, alt_poi),
      if bool_decide (gname = "Base") then mret entry
      else
        impact ← sub_quad_errs base_poi alt_poi;
        mret (dict_set entry gname impact)) [];
    mret (dict_set impacts pname entry)) [].

(** One row of an alternative fit. *)
Definition print_group (impacts : dict (dict (float * float)))
    (pname gname : string) (alt_poi : POI) : run effect () :=
  entry ← dict_get impacts pname;
  impact ← dict_get entry gname;
  emit (Print (GroupRow gname (value alt_poi) (err alt_poi).1
                 (err alt_poi).2 impact.1 impact.2)).

Definition print_syst_breakdown (poi_data : dict (dict POI))
    (impacts : dict (dict (float * float))) : run effect () :=
  emit (Print Title);;
  for_each (keys poi_data) (λ _ pname,
    groups ← dict_get poi_data pname;
    base_poi ← dict_get groups "Base";
    emit (Print (PoiHeading (name base_poi)));;
    emit (Print Rule);;
    emit (Print ColumnTitles);;
    emit (Print Rule);;
    emit (Print (BaseRow (value base_poi) (err base_poi).1
                   (err base_poi).2));;
    for_each groups (λ _ '(gname, alt_poi),
      if bool_decide (gname ∈ "Base" :: print_last) then mret ()
      else print_group impacts pname gname alt_poi) ();;
    for_each print_last (λ _ gname,
      match dict_lookup groups gname with
      | None => mret ()
      | Some alt_poi => print_group impacts pname gname alt_poi
      end) ();;
    emit (Print ClosingRule)) ().

(** The parsed command line. *)
Record arguments : Type :=
  { input : string; ws : string; ss : string; poi : string }.

(** [main] from the point where [parse_args] has returned [args]; before
    that, [argparse] itself ends the run on a command line it rejects
    (exit code 2) or after [--help] (exit code 0). *)
Definition main (args : arguments) : run effect () :=
  fnames ← get_fnames (input args);
  let poi_list := poi_list_of (poi args) in
  poi_data ← load_poi_data fnames (ws args) (ss args) poi_list;
  check_fit_results poi_data 0.5;;
  impacts ← compute_impacts poi_data;
  print_syst_breakdown poi_data impacts.

End World.
End SystBreakdown.

(** ** The specification's vocabulary *)
Module Spec.
Import Py.

Section FixedParameters.
Context {V : Type} (format_value : V → string).

(** The parameters of the snapshot whose name contains [syst] as a
    substring, each with its fitted value. *)
Definition matches (info : dict V) (syst : string) : list (string * V) :=
  filter (λ entry, contains syst entry.1) info.

(** [name=value] for one parameter. *)
Definition assignment (entry : string * V) : string :=
  entry.1 +:+ "=" +:+ format_value entry.2.

(** The fixed-parameter string of a group: the assignments of all matches
    of all its substrings, in order, joined with commas. *)
Definition fixed_parameter_string (systs : list string) (info : dict V)
  : string :=
  join "," (systs ≫= λ syst, assignment <$> matches info syst).

(** The substrings of the group that match no parameter name. *)
Definition missing_systematics (systs : list string) (info : dict V)
  : list string :=
  filter (λ syst, matches info syst = []) systs.

End FixedParameters.

(** The position of the first token equal to [flag]: the flag the scripts
    read when a flag is given more than once. *)
Definition flag_index (flag : string) (tokens : list string) : option nat :=
  fst <$> list_find (λ token, token = flag) tokens.

(** A baseline command is malformed when its [-o] is the last token or is
    followed by a value without the [.root] extension, or when its [-p] is
    the last token or is followed by a value without [=]. *)
Definition malformed_output (tokens : list string) : Prop :=
  ∃ i, flag_index "-o" tokens = Some i ∧
       ∀ path, tokens !! S i = Some path → (splitext path).2 ≠ ".root".
Definition malformed_pois (tokens : list string) : Prop :=
  ∃ j, flag_index "-p" tokens = Some j ∧
       ∀ pois, tokens !! S j = Some pois → contains "=" pois = false.
Definition malformed (tokens : list string) : Prop :=
  malformed_output tokens ∨ malformed_pois tokens.

(** *** The breakdown engine *)
Import SystBreakdown.

(** The POI data of a run: every POI holds each group once, and holds the
    baseline under [Base] (as [load_poi_data] builds it). *)
Definition well_formed (poi_data : dict (dict POI)) : Prop :=
  ∀ pname groups, dict_lookup poi_data pname = Some groups →
    dict_wf groups ∧ is_Some (dict_lookup groups "Base").

(** The baseline's symmetric reference scale: the mean of the magnitudes
    of its two errors, in floating point. *)
Definition base_scale (base : POI) : float :=
  ((abs (err base).1 + abs (err base).2) / 2)%float.

(** The deviation of an alternative fit from the baseline, in floating
    point. *)
Definition deviation (base alt : POI) : float :=
  abs (value base - value alt).


(** A string without whitespace, as a token of a command must be to stay
    one token. *)
Fixpoint has_whitespace (s : string) : bool :=
  match s with
  | "" => false
  | String c s' => isspace c || has_whitespace s'
  end.

(** A word: what [str.split] gives back as one token. *)
Definition is_word (t : string) : Prop :=
  t ≠ "" ∧ has_whitespace t = false.

(** A variable is a POI of the run when its name starts with [mu_] and,
    if an allow-list is given, is on it. *)
Definition is_poi (poi_list : list string) (name : string) : Prop :=
  startswith "mu_" name ∧ (poi_list = [] ∨ name ∈ poi_list).

Global Instance is_poi_dec poi_list name : Decision (is_poi poi_list name).
Proof. unfold is_poi. apply _. Defined.

(** The names of the POIs a container yields. *)
Definition poi_names (poi_list : list string) (all_vars : list variable)
  : list string :=
  filter (is_poi poi_list) (var_name <$> all_vars).

End Spec.

(** ** The loops of the breakdown engine in closed form *)
Module Closed.
Import Py SystBreakdown.

(** [x ** 2] raises. *)
Definition overflows (x : float) : bool :=
  is_finite x && is_infinity (x * x).

(** One side of [sub_quad_errs]: the radicand as it is computed when no
    square overflows, the impact, and whether it warns. *)
Definition side_radicand (base_err alt_err : float) : float :=
  (base_err * base_err - alt_err * alt_err)%float.

Definition side_impact (base_err alt_err : float) : float :=
  if (0 <=? side_radicand base_err alt_err)%float
  then sqrt (side_radicand base_err alt_err) else 0%float.

Definition side_warning (base_err alt_err : float) (m : message)
  : list effect :=
  if (0 <=? side_radicand base_err alt_err)%float then []
  else [Log WARNING m].

Definition side_overflows (base_err alt_err : float) : bool :=
  overflows base_err || overflows alt_err.

Definition quad_impact (self poi : POI) : float * float :=
  (side_impact (err self).1 (err poi).1,
   side_impact (err self).2 (err poi).2).

Definition quad_warnings (self poi : POI) : list effect :=
  side_warning (err self).1 (err poi).1
    (LowerErrorLarger (err poi).1 (name self) (err self).1)
  ++ side_warning (err self).2 (err poi).2
       (UpperErrorLarger (err poi).2 (name self) (err self).2).

(** [sub_quad_errs] raises [OverflowError]. *)
Definition quad_overflows (self poi : POI) : bool :=
  side_overflows (err self).1 (err poi).1
  || side_overflows (err self).2 (err poi).2.

(** The inner loop of [compute_impacts] for one POI. *)
Definition group_impacts (base_poi : POI) (groups : dict POI)
  : dict (float * float) :=
  foldl (λ entry '(gname, alt_poi),
           if bool_decide (gname = "Base") then entry
           else dict_set entry gname (quad_impact base_poi alt_poi))
    [] groups.

Definition group_warnings (base_poi : POI) (groups : dict POI)
  : list effect :=
  groups ≫= λ '(gname, alt_poi),
    if bool_decide (gname = "Base") then []
    else quad_warnings base_poi alt_poi.

(** The baseline of one POI; a POI of well-formed data has one. *)
Definition base_of (groups : dict POI) : POI :=
  default (POI_init "" 0 0 0) (dict_lookup groups "Base").

Definition groups_of (poi_data : dict (dict POI)) (pname : string)
  : dict POI :=
  default [] (dict_lookup poi_data pname).

(** No square that [compute_impacts] takes overflows. *)
Definition squares_fine (poi_data : dict (dict POI)) : Prop :=
  ∀ pname groups base_poi gname alt_poi,
    dict_lookup poi_data pname = Some groups →
    dict_lookup groups "Base" = Some base_poi →
    dict_lookup groups gname = Some alt_poi → gname ≠ "Base" →
    quad_overflows base_poi alt_poi = false.

(** The test of [check_fit_results] on one group. *)
Definition exceeds (tolerance : float) (base_poi alt_poi : POI) : bool :=
  (tolerance <? Spec.deviation base_poi alt_poi
                / Spec.base_scale base_poi)%float.

(** The records the inner loop of [check_fit_results] logs for one POI
    whose reference scale is not zero. *)
Definition group_flags (tolerance : float) (pname : string) (base_poi : POI)
    (groups : dict POI) : list effect :=
  groups ≫= λ '(gname, alt_poi),
    if bool_decide (gname = "Base") then []
    else if exceeds tolerance base_poi alt_poi
         then [Log WARNING (ValuesDiffer pname gname tolerance)]
         else [].

(** The inner loop of [check_fit_results] divides by zero: the reference
    scale of the POI is a zero and the POI has a group besides [Base]. *)
Definition divides_by_zero (groups : dict POI) : bool :=
  (Spec.base_scale (base_of groups) =? 0)%float
  && bool_decide (Exists (λ gname, gname ≠ "Base") (keys groups)).

(** The records [check_fit_results] logs for one POI. *)
Definition poi_flags (tolerance : float) (poi_data : dict (dict POI))
    (pname : string) : list effect :=
  if divides_by_zero (groups_of poi_data pname) then []
  else group_flags tolerance pname (base_of (groups_of poi_data pname))
         (groups_of poi_data pname).

End Closed.

(** ** Concrete inputs used below *)
Module Examples.
Import Py SystBreakdown.

(** The floats nearest to 0.3, 0.35 and 0.2, as Python reads them. *)
Definition f0_3 : float := 0x1.3333333333333p-2.
Definition f0_35 : float := 0x1.6666666666666p-2.
Definition f0_2 : float := 0x1.999999999999ap-3.

(** One POI; baseline errors (0.3, 0.3); the group [sysA] with a larger
    lower error and a smaller upper error (the specification's scenario). *)
Definition scenario_base : POI := POI_init "mu_x" 1 f0_3 f0_3.
Definition scenario_alt : POI := POI_init "mu_x" 1 f0_35 f0_2.
Definition scenario_groups : dict POI :=
  [("Base", scenario_base); ("sysA", scenario_alt)].
Definition scenario_poi_data : dict (dict POI) :=
  [("mu_x", scenario_groups)].


(** One POI whose baseline has no errors (a parameter held constant). *)
Definition constant_base : POI := POI_init "mu_x" 1 0 0.
Definition constant_alt : POI := POI_init "mu_x" 1 0 0.
Definition constant_poi_data : dict (dict POI) :=
  [("mu_x", [("Base", constant_base); ("sysA", constant_alt)])].



(** One POI whose baseline has the smallest positive float as its lower
    error and no upper error: the mean of the two magnitudes rounds to 0. *)
Definition denormal_base : POI :=
  POI_init "mu_x" 1 0x0.0000000000001p-1022 0.
Definition denormal_poi_data : dict (dict POI) :=
  [("mu_x", [("Base", denormal_base); ("sysA", constant_alt)])].


(** A baseline file and two alternative fits: the group [sysA] has a POI
    the baseline has not (and lacks the baseline's), the container of
    [sysB] has no POI at all. *)
Definition three_fnames : dict string :=
  [("Base", "fit.root"); ("sysA", "fit_sysA.root");
   ("sysB", "fit_sysB.root")].
Definition unit_variable (name : string) : variable :=
  {| var_name := name; var_value := 1; var_err_low := 1; var_err_high := 1 |}.
Definition three_containers (fname wsname ssname : string) : list variable :=
  if bool_decide (fname = "fit.root") then [unit_variable "mu_a"]
  else if bool_decide (fname = "fit_sysA.root") then [unit_variable "mu_b"]
  else [].

(** A directory that holds, next to [fit.root], the two alternative fits. *)
Definition three_files_glob (pattern : string) : list string :=
  if bool_decide (pattern = "fit_*.root")
  then ["fit_sysA.root"; "fit_sysB.root"] else [].

(** A directory that holds, next to [fit.root], the output of the group
    [postfit_pull]. *)
Definition postfit_glob (pattern : string) : list string :=
  if bool_decide (pattern = "fit_*.root")
  then ["fit_postfit_pull.root"] else [].

(** The command line [-i fit.root]. *)
Definition fit_arguments : arguments :=
  {| input := "fit.root"; ws := "combWS"; ss := "quickfit"; poi := "" |}.

(** A baseline file and one alternative fit, in containers that all hold
    the one POI [mu_a] with value and errors 1; and the data loaded from
    them. *)
Definition two_fnames : dict string :=
  [("Base", "fit.root"); ("sysA", "fit_sysA.root")].
Definition uniform_containers (fname wsname ssname : string)
  : list variable :=
  [unit_variable "mu_a"].
Definition uniform_poi_data : dict (dict POI) :=
  [("mu_a", [("Base", POI_init "mu_a" 1 1 1);
             ("sysA", POI_init "mu_a" 1 1 1)])].

(** A directory that holds, next to a baseline [fit] without extension,
    the file [fit_sysA]. *)
Definition bare_glob (pattern : string) : list string :=
  if bool_decide (pattern = "fit_*") then ["fit_sysA"] else [].

End Examples.

(** ** run_fits.py: reading the baseline snapshot *)
Module RunFitsInput.
Import Py.

Section World.
Context {V : Type}.
(** What [read_NP_info] reads from outside: the variables of the workspace
    [wsname] of the file [fname] with the snapshot [ssname] loaded, each
    with its [GetName] and [getVal], in iteration order. *)
Context (read_values : string → string → string → list (string * V)).

Definition read_NP_info (fname wsname ssname : string) : dict V :=
  foldl (λ info '(name, value),
    let isNP := startswith "alpha_" name || startswith "xsec_unc_" name in
    let isQCD :=
      startswith "yield_QCD_sr" name || startswith "c_sr" name
      || startswith "d_sr" name || startswith "e_sr" name
      || startswith "f_sr" name || startswith "g_sr" name
      || startswith "h_sr" name in
    (* Only load NPs and QCD parameters *)
    if negb isNP && negb isQCD then info
    else dict_set info name value)
    [] (read_values fname wsname ssname).

End World.

(** The name prefixes of the parameters the snapshot keeps. *)
Definition nuisance_prefixes : list string :=
  ["alpha_"; "xsec_unc_"; "yield_QCD_sr"; "c_sr"; "d_sr"; "e_sr"; "f_sr";
   "g_sr"; "h_sr"].

Definition is_nuisance (name : string) : Prop :=
  ∃ prefix, prefix ∈ nuisance_prefixes ∧ startswith prefix name = true.

End RunFitsInput.

(** ** The report of the breakdown engine in closed form *)
Module Report.
Import Py SystBreakdown Closed.

(** The row of one alternative fit, its impact computed against the
    baseline. *)
Definition group_row (base_poi : POI) (gname : string) (alt_poi : POI)
  : line :=
  GroupRow gname (value alt_poi) (err alt_poi).1 (err alt_poi).2
    (quad_impact base_poi alt_poi).1 (quad_impact base_poi alt_poi).2.

(** The rows of the groups that are neither the baseline nor an aggregate,
    in the order of the dictionary. *)
Definition plain_rows (base_poi : POI) (groups : dict POI) : list line :=
  groups ≫= λ '(gname, alt_poi),
    if bool_decide (gname ∈ "Base" :: print_last) then []
    else [group_row base_poi gname alt_poi].

(** The rows of the aggregate groups that are present, in the fixed order
    of [print_last]. *)
Definition aggregate_rows (base_poi : POI) (groups : dict POI)
  : list line :=
  print_last ≫= λ gname,
    match dict_lookup groups gname with
    | None => []
    | Some alt_poi => [group_row base_poi gname alt_poi]
    end.

(** The table of one POI. *)
Definition poi_table (base_poi : POI) (groups : dict POI) : list line :=
  [PoiHeading (name base_poi); Rule; ColumnTitles; Rule;
   BaseRow (value base_poi) (err base_poi).1 (err base_poi).2]
  ++ plain_rows base_poi groups
  ++ aggregate_rows base_poi groups
  ++ [ClosingRule].

(** The whole report. *)
Definition report (poi_data : dict (dict POI)) : list line :=
  Title :: (keys poi_data ≫= λ pname,
              poi_table (base_of (groups_of poi_data pname))
                (groups_of poi_data pname)).

(** [tmp[gname][pname]] of [load_poi_data]: the POI [pname] of the
    container of the group [gname]. *)
Definition loaded_poi (read_vars : string → string → string → list variable)
    (fnames : dict string) (wsname ssname : string) (poi_list : list string)
    (pname gname : string) : option POI :=
  fname ← dict_lookup fnames gname;
  dict_lookup (load_group (read_vars fname wsname ssname) poi_list) pname.

End Report.

(** ** Facts about runs and loops *)
Section RunFacts.
Import Py.
Context {E : Type}.

Lemma bind_Run_Return {A B} (t : list E) (a : A) (k : A → run E B) :
  Run t (Return a) ≫= k = Run (t ++ trace (k a)) (result (k a)).
Proof. reflexivity. Qed.

Lemma mret_bind {A B} (a : A) (k : A → run E B) : mret a ≫= k = k a.
Proof. unfold mret, mbind, run_ret, run_bind, ret, bind. simpl. by destruct (k a). Qed.

Lemma result_bind {A B} (m : run E A) (k : A → run E B) :
  result (m ≫= k) =
  match result m with Return a => result (k a) | Abort f => Abort f end.
Proof. unfold mbind, run_bind, bind. by destruct (result m). Qed.

Lemma trace_bind {A B} (m : run E A) (k : A → run E B) :
  trace (m ≫= k) =
  match result m with
  | Return a => trace m ++ trace (k a)
  | Abort _ => trace m
  end.
Proof. unfold mbind, run_bind, bind. by destruct (result m). Qed.

Lemma bind_returns {A B} (m : run E A) (k : A → run E B) (a : A) :
  result m = Return a →
  m ≫= k = Run (trace m ++ trace (k a)) (result (k a)).
Proof. destruct m as [t r]. simpl. intros ->. apply bind_Run_Return. Qed.

Lemma bind_aborts {A B} (m : run E A) (k : A → run E B) (f : abort) :
  result m = Abort f → m ≫= k = Run (trace m) (Abort f).
Proof. destruct m as [t r]. simpl. by intros ->. Qed.

(** A loop whose body always returns: the trace is the bodies' traces in
    order, the final state the fold of the bodies' updates. *)
Lemma for_each_returns {X S} (tr : X → list E) (step : S → X → S)
    (xs : list X) (body : S → X → run E S) :
  (∀ s x, x ∈ xs → body s x = Run (tr x) (Return (step s x))) →
  ∀ s, for_each xs body s = Run (xs ≫= tr) (Return (foldl step s xs)).
Proof.
  induction xs as [|x xs IH]; intros Hbody s; [done|].
  cbn [for_each]. rewrite Hbody by left.
  rewrite bind_Run_Return, IH; [done|].
  intros s' x' Hx'. apply Hbody. by right.
Qed.

(** A loop whose iterations each return or abort in a way [Q] allows
    ends the same way. *)
Lemma for_each_returns_or_aborts {X S} (Q : abort → Prop) (xs : list X)
    (body : S → X → run E S) :
  (∀ s x, x ∈ xs →
     (∃ s', result (body s x) = Return s') ∨
     (∃ f, Q f ∧ result (body s x) = Abort f)) →
  ∀ s, (∃ s', result (for_each xs body s) = Return s') ∨
       (∃ f, Q f ∧ result (for_each xs body s) = Abort f).
Proof.
  induction xs as [|x xs IH]; intros Hall s.
  { left. by exists s. }
  cbn [for_each]. rewrite result_bind.
  destruct (Hall s x) as [[s' Hs] | (f & Hf & Hs)]; [by left| |];
    rewrite Hs; [|by eauto].
  apply IH. intros s0 x0 Hx0. apply Hall. by right.
Qed.

(** If moreover some iteration aborts whatever the state it starts in, the
    loop aborts. *)
Lemma for_each_aborts {X S} (Q : abort → Prop) (xs : list X)
    (body : S → X → run E S) :
  (∀ s x, x ∈ xs →
     (∃ s', result (body s x) = Return s') ∨
     (∃ f, Q f ∧ result (body s x) = Abort f)) →
  (∃ x, x ∈ xs ∧ ∀ s, ∃ f, Q f ∧ result (body s x) = Abort f) →
  ∀ s, ∃ f, Q f ∧ result (for_each xs body s) = Abort f.
Proof.
  induction xs as [|x xs IH]; intros Hall (y & Hy & Hab) s.
  { by apply elem_of_nil in Hy. }
  cbn [for_each]. rewrite result_bind.
  destruct (Hall s x) as [[s' Hs] | (f & Hf & Hs)]; [by left| |];
    rewrite Hs; [|by eauto].
  apply elem_of_cons in Hy as [->|Hy].
  { destruct (Hab s) as (f & _ & Hf). congruence. }
  apply IH; [|by eauto].
  intros s0 x0 Hx0. apply Hall. by right.
Qed.

(** A loop whose iterations log nothing logs nothing. *)
Lemma for_each_trace_nil {X S} (xs : list X) (body : S → X → run E S) :
  (∀ s x, trace (body s x) = []) →
  ∀ s, trace (for_each xs body s) = [].
Proof.
  intros Hnil. induction xs as [|x xs IH]; intros s; [done|].
  cbn [for_each]. rewrite trace_bind, Hnil.
  destruct (result (body s x)); [|done]. apply IH.
Qed.

(** A loop that gives up at the first element [bad] holds of, and whose
    other iterations return without logging. *)
Lemma for_each_first_abort {X S} (bad : X → Prop) `{∀ x, Decision (bad x)}
    (tr : X → list E) (f : abort) (step : S → X → S) (xs : list X)
    (body : S → X → run E S) :
  (∀ s x, x ∈ xs →
     body s x = if decide (bad x) then Run (tr x) (Abort f)
                else Run [] (Return (step s x))) →
  ∀ s, for_each xs body s =
       match list_find bad xs with
       | Some (_, x) => Run (tr x) (Abort f)
       | None => Run [] (Return (foldl step s xs))
       end.
Proof.
  induction xs as [|x xs IH]; intros Hbody s; [done|].
  cbn [for_each list_find]. rewrite Hbody by left.
  destruct (decide (bad x)); [done|].
  rewrite bind_Run_Return, IH.
  - simpl. by destruct (list_find bad xs) as [[i y]|].
  - intros s' x' Hx'. apply Hbody. by right.
Qed.

(** A loop that stops at the first element [halt] holds of: it has logged
    what the iterations before logged and what the halting one did. *)
Lemma for_each_until {X S} (halt : X → bool) (tr : X → list E) (f : abort)
    (step : S → X → S) (xs : list X) (body : S → X → run E S) :
  (∀ s x, x ∈ xs →
     body s x = if halt x then Run (tr x) (Abort f)
                else Run (tr x) (Return (step s x))) →
  ∀ s, for_each xs body s =
       match list_find (λ x, halt x = true) xs with
       | Some (i, x) => Run ((firstn i xs ≫= tr) ++ tr x) (Abort f)
       | None => Run (xs ≫= tr) (Return (foldl step s xs))
       end.
Proof.
  induction xs as [|x xs IH]; intros Hbody s; [done|].
  cbn [for_each list_find]. rewrite Hbody by left.
  destruct (halt x) eqn:Hx.
  { by rewrite decide_True. }
  rewrite decide_False by done.
  rewrite bind_Run_Return, IH.
  - destruct (list_find _ xs) as [[i y]|]; simpl; [|done].
    by rewrite app_assoc.
  - intros s' x' Hx'. apply Hbody. by right.
Qed.

(** An invariant of the loop state, told the elements already visited. *)
Lemma for_each_invariant {X S} (I : list X → S → Prop)
    (body : S → X → run E S) :
  (∀ visited x s s',
     I visited s → result (body s x) = Return s' → I (visited ++ [x]) s') →
  ∀ xs visited s s',
    I visited s → result (for_each xs body s) = Return s' →
    I (visited ++ xs) s'.
Proof.
  intros Hstep. induction xs as [|x xs IH]; intros visited s s' HI.
  { intros [= <-]. by rewrite app_nil_r. }
  cbn [for_each]. rewrite result_bind.
  destruct (result (body s x)) as [s1|] eqn:Hbody; [|done].
  intros Hrest. replace (visited ++ x :: xs) with ((visited ++ [x]) ++ xs)
    by by rewrite <-app_assoc.
  eapply IH; [|done]. by eapply Hstep.
Qed.

Lemma foldl_snoc_map {X Y} (g : X → list Y) (xs : list X) (acc : list Y) :
  foldl (λ acc x, acc ++ g x) acc xs = acc ++ (xs ≫= g).
Proof.
  revert acc. induction xs as [|x xs IH]; intros acc; simpl.
  - by rewrite app_nil_r.
  - by rewrite IH, app_assoc.
Qed.

End RunFacts.

(** ** Facts about dictionaries *)
Section DictFacts.
Import Py.
Context {V : Type}.
Implicit Types d : dict V.

Lemma dict_lookup_Some_elem_of d k v :
  dict_lookup d k = Some v → (k, v) ∈ d.
Proof.
  induction d as [|[k' v'] d IH]; [done|]. simpl.
  case_bool_decide as Hk; intros Hv.
  - simplify_eq. by left.
  - right. auto.
Qed.

Lemma dict_lookup_None d k : dict_lookup d k = None ↔ k ∉ keys d.
Proof.
  unfold keys. induction d as [|[k' v'] d IH]; simpl.
  - split; [intros _; apply not_elem_of_nil|done].
  - rewrite not_elem_of_cons, <-IH.
    case_bool_decide as Hk; split; try done.
    + intros [Hne _]. by destruct Hne.
    + by intros [_ ?].
Qed.

Lemma dict_lookup_is_Some d k : is_Some (dict_lookup d k) ↔ k ∈ keys d.
Proof.
  rewrite <-not_eq_None_Some, dict_lookup_None.
  destruct (decide (k ∈ keys d)); naive_solver.
Qed.

Lemma dict_lookup_wf d k v :
  dict_wf d → (k, v) ∈ d → dict_lookup d k = Some v.
Proof.
  unfold dict_wf, keys. induction d as [|[k' v'] d IH]; simpl.
  { intros _ H. by apply elem_of_nil in H. }
  intros [Hk' Hd]%NoDup_cons [?|Hin]%elem_of_cons; simplify_eq.
  - by rewrite bool_decide_true.
  - rewrite bool_decide_false; [auto|]. intros ->. apply Hk'.
    by apply (list_elem_of_fmap_2 fst) in Hin.
Qed.

Lemma dict_lookup_set d k v k' :
  dict_lookup (dict_set d k v) k' =
  if bool_decide (k = k') then Some v else dict_lookup d k'.
Proof.
  induction d as [|[k0 v0] d IH]; simpl.
  - done.
  - repeat (case_bool_decide; simplify_eq/=); try done.
    all: repeat (case_bool_decide; simplify_eq/=); try done.
Qed.

Lemma dict_get_Some {E} d k v :
  dict_lookup d k = Some v → dict_get (E:=E) d k = mret v.
Proof. unfold dict_get. by intros ->. Qed.

Lemma dict_get_None {E} d k :
  dict_lookup d k = None → dict_get (E:=E) d k = raise (KeyError k).
Proof. unfold dict_get. by intros ->. Qed.

Lemma keys_dict_set d k v k' :
  k' ∈ keys (dict_set d k v) ↔ k' = k ∨ k' ∈ keys d.
Proof.
  rewrite <-!dict_lookup_is_Some, dict_lookup_set.
  case_bool_decide as Hk.
  - split; [by left|]. by eauto.
  - split; [by right|]. by intros [->|].
Qed.

Lemma keys_nil d : keys d = [] ↔ d = [].
Proof. unfold keys. split; [apply fmap_nil_inv|by intros ->]. Qed.

Lemma dict_set_wf d k v : dict_wf d → dict_wf (dict_set d k v).
Proof.
  unfold dict_wf, keys. induction d as [|[k0 v0] d IH]; simpl.
  { intros _. apply NoDup_singleton. }
  intros [Hk0 Hd]%NoDup_cons. case_bool_decide as Hk; simpl.
  - by apply NoDup_cons.
  - apply NoDup_cons. split; [|by apply IH].
    intros Hin. apply (keys_dict_set d k v k0) in Hin as [->|Hin]; done.
Qed.

End DictFacts.

(** ** run_fits.py: the fixed-parameter string *)
Section FixedSysts.
Import Py RunFits Spec.
Context {V : Type} (format_value : V → string).

Lemma matched_keys_matches (info : dict V) (syst : string) :
  filter (λ key, contains syst key) (keys info) = (matches info syst).*1.
Proof.
  unfold keys, matches. induction info as [|[k v] info IH]; [done|].
  rewrite fmap_cons. simpl. destruct (decide (contains syst k)) as [Hk|Hk].
  - rewrite filter_cons_True, (filter_cons_True _ (k, v)) by exact Hk.
    by rewrite IH.
  - rewrite filter_cons_False, (filter_cons_False _ (k, v)) by exact Hk.
    by rewrite IH.
Qed.

(** The comprehension over [matched_keys]: every key is looked up again in
    [info], which finds the value it came with. *)
Lemma fixed_systs_entries (info : dict V) (entries : list (string * V))
    (acc : list string) :
  dict_wf info → entries ⊆ info →
  for_each entries.*1 (λ acc key,
    value ← dict_get (E:=effect) info key;
    mret (acc ++ [key +:+ "=" +:+ format_value value])) acc
  = Run [] (Return (acc ++ (assignment format_value <$> entries))).
Proof.
  intros Hwf. revert acc.
  induction entries as [|[k v] entries IH]; intros acc Hsub.
  { simpl. by rewrite app_nil_r. }
  rewrite !fmap_cons. cbn [for_each fst].
  rewrite (dict_get_Some info k v), !mret_bind.
  - rewrite IH, <-app_assoc; [done|]. set_solver.
  - apply dict_lookup_wf; [done|]. set_solver.
Qed.

Lemma missing_warnings (info : dict V) (systs : list string) :
  (systs ≫= λ syst,
     if bool_decide (matches info syst = [])
     then [Log (L:=Empty_set) WARNING (NoInformation syst)] else [])
  = (λ syst, Log WARNING (NoInformation syst))
      <$> missing_systematics systs info.
Proof.
  unfold missing_systematics. induction systs as [|syst systs IH]; [done|].
  cbn [mbind list_bind]. rewrite filter_cons. rewrite IH.
  by case_bool_decide; case_decide.
Qed.

(** The loop of [fixed_systs]: the assignments collected, the warnings
    logged. *)
Lemma fixed_systs_loop (systs : list string) (info : dict V) :
  dict_wf info →
  for_each systs (λ syst_list syst,
    let matched_keys := filter (λ key, contains syst key) (keys info) in
    match matched_keys with
    | [] => emit (Log WARNING (NoInformation syst));; mret syst_list
    | _ =>
        entries ← for_each matched_keys (λ entries key,
          value ← dict_get info key;
          mret (entries ++ [key +:+ "=" +:+ format_value value])) [];
        mret (syst_list ++ entries)
    end) []
  = Run ((λ syst, Log (L:=Empty_set) WARNING (NoInformation syst))
           <$> missing_systematics systs info)
        (Return (systs ≫= λ syst, assignment format_value <$> matches info syst)).
Proof.
  intros Hwf.
  rewrite (for_each_returns
    (λ syst, if bool_decide (matches info syst = [])
             then [Log WARNING (NoInformation syst)] else [])
    (λ acc syst, acc ++ (assignment format_value <$> matches info syst))).
  - by rewrite foldl_snoc_map, missing_warnings.
  - intros acc syst _. cbv zeta. rewrite matched_keys_matches.
    destruct (matches info syst) as [|entry entries] eqn:Hm.
    { simpl. by rewrite app_nil_r. }
    rewrite bool_decide_false by done.
    rewrite <-Hm, fixed_systs_entries; [|done|].
    + rewrite Hm, fmap_cons. by rewrite bind_Run_Return.
    + unfold matches. intros x [_ ?]%list_elem_of_filter. done.
Qed.

Lemma fixed_systs_result (systs : list string) (info : dict V) :
  dict_wf info →
  result (fixed_systs format_value systs info)
  = Return (fixed_parameter_string format_value systs info).
Proof.
  intros Hwf. unfold fixed_systs. rewrite result_bind.
  by rewrite fixed_systs_loop.
Qed.

(** C6. For a snapshot dictionary [info] (each name once),
    [fixed_systs systs info] always returns, and returns the
    comma-separated [name=value] list of every parameter of [info] whose
    name contains a substring of [systs], taken substring by substring in
    the order of [systs]; it logs one warning for each substring that
    matches no parameter name, which contributes nothing. *)
Theorem fixed_systs_refines_spec (systs : list string) (info : dict V) :
  dict_wf info →
  fixed_systs format_value systs info
  = Run ((λ syst, Log WARNING (NoInformation syst))
           <$> missing_systematics systs info)
        (Return (fixed_parameter_string format_value systs info)).
Proof.
  intros Hwf. unfold fixed_systs, fixed_parameter_string.
  rewrite fixed_systs_loop by done.
  rewrite bind_Run_Return. cbn [trace result mret run_ret ret].
  by rewrite app_nil_r.
Qed.

End FixedSysts.

(** A snapshot with two parameters, and a group with one substring that
    matches and one that does not. *)
Lemma fixed_systs_refines_spec_witness :
  Py.dict_wf [("alpha_a_1", "0.5"); ("alpha_b", "1")] ∧
  RunFits.fixed_systs (λ v : string, v) ["alpha_a"; "zz"]
    [("alpha_a_1", "0.5"); ("alpha_b", "1")]
  = Py.Run [Py.Log Py.WARNING (RunFits.NoInformation "zz")]
      (Py.Return "alpha_a_1=0.5").
Proof.
  assert (Hwf : Py.dict_wf [("alpha_a_1", "0.5"); ("alpha_b", "1")]).
  { unfold Py.dict_wf. simpl. compute_done. }
  split; [exact Hwf|].
  exact (fixed_systs_refines_spec (λ v, v) ["alpha_a"; "zz"] _ Hwf).
Defined.

(** ** Facts about strings *)
Section StringFacts.
Import Py.
Implicit Types s t : string.

Lemma app_String c s t : String c s +:+ t = String c (s +:+ t).
Proof. reflexivity. Qed.

Lemma app_empty_r s : s +:+ "" = s.
Proof. induction s as [|c s IH]; [done|]. by rewrite app_String, IH. Qed.

Lemma app_assoc_string s t u : (s +:+ t) +:+ u = s +:+ t +:+ u.
Proof. induction s as [|c s IH]; [done|]. by rewrite !app_String, IH. Qed.

Lemma length_app_string s t :
  String.length (s +:+ t) = String.length s + String.length t.
Proof. induction s as [|c s IH]; [done|]. rewrite app_String. simpl. by rewrite IH. Qed.

Lemma app_inj_suffix s1 s2 t : s1 +:+ t = s2 +:+ t → s1 = s2.
Proof.
  revert s2. induction s1 as [|c s1 IH]; intros [|c' s2] H.
  - done.
  - apply (f_equal String.length) in H.
    rewrite !length_app_string in H. simpl in H. lia.
  - apply (f_equal String.length) in H.
    rewrite !length_app_string in H. simpl in H. lia.
  - rewrite !app_String in H. injection H as -> H. f_equal. by apply IH.
Qed.

Lemma take_drop_string n s : take n s +:+ drop n s = s.
Proof.
  revert s. induction n as [|n IH]; intros [|c s]; simpl; try done.
  by rewrite app_String, IH.
Qed.

Lemma splitext_scan_app p i n d stem ext :
  splitext_scan p i n d = (stem, ext) → stem +:+ ext = p.
Proof.
  revert i. induction n as [|n IH]; intros i; simpl.
  - intros [= <- <-]. apply app_empty_r.
  - destruct (negb _); [|by apply IH].
    intros [= <- <-]. apply take_drop_string.
Qed.

(** [os.path.splitext] cuts its argument in two. *)
Lemma splitext_app p stem ext : splitext p = (stem, ext) → stem +:+ ext = p.
Proof.
  unfold splitext. destruct (_ <? _)%Z.
  - apply splitext_scan_app.
  - intros [= <- <-]. apply app_empty_r.
Qed.

End StringFacts.

(** ** run_fits.py: the command mutation *)
Section EditCmd.
Import Py RunFits Spec.
Implicit Types tokens : list string.

Lemma flag_index_Some flag tokens i :
  flag_index flag tokens = Some i ↔
  tokens !! i = Some flag ∧ ∀ j, j < i → tokens !! j ≠ Some flag.
Proof.
  unfold flag_index. rewrite fmap_Some. split.
  - intros ([i' x] & (Hl & -> & Hleast)%list_find_Some & ->). simpl.
    split; [done|]. intros j Hj Hlj. by apply (Hleast j flag).
  - intros [Hl Hleast]. exists (i, flag). split; [|done].
    apply list_find_Some. split_and!; [done..|].
    intros j y Hy Hj ->. by apply (Hleast j).
Qed.

Lemma flag_index_None flag tokens :
  flag_index flag tokens = None ↔ flag ∉ tokens.
Proof.
  unfold flag_index. rewrite fmap_None, list_find_None, Forall_forall.
  split.
  - intros H Hin. by apply (H flag).
  - by intros H x Hx ->.
Qed.

Lemma flag_index_insert flag tokens k x :
  tokens !! k ≠ Some flag → x ≠ flag →
  flag_index flag (<[k:=x]> tokens) = flag_index flag tokens.
Proof.
  intros Hk Hx. apply option_eq. intros i. rewrite !flag_index_Some.
  assert (Hlook : ∀ j, <[k:=x]> tokens !! j = Some flag ↔
                       tokens !! j = Some flag).
  { intros j. rewrite list_lookup_insert_Some. split.
    - intros [(-> & -> & _)|[_ ?]]; done.
    - intros Hj. right. split; [|done]. intros ->. done. }
  rewrite Hlook. split; intros [? Hleast]; (split; [done|]);
    intros j Hj; specialize (Hleast j Hj); by rewrite ?Hlook in *.
Qed.

Lemma flag_index_snoc flag tokens x :
  x ≠ flag → flag_index flag (tokens ++ [x]) = flag_index flag tokens.
Proof.
  intros Hx. apply option_eq. intros i. rewrite !flag_index_Some.
  assert (Hlook : ∀ j, (tokens ++ [x]) !! j = Some flag ↔
                       tokens !! j = Some flag).
  { intros j. rewrite lookup_app_Some. split.
    - intros [?|[_ Hj]]; [done|].
      apply list_lookup_singleton_Some in Hj as [_ ?]. done.
    - by left. }
  rewrite Hlook. split; intros [? Hleast]; (split; [done|]);
    intros j Hj; specialize (Hleast j Hj); by rewrite ?Hlook in *.
Qed.

Lemma list_index_flag {E} flag tokens i :
  flag_index flag tokens = Some i → list_index (E:=E) flag tokens = mret i.
Proof.
  unfold flag_index, list_index. destruct (list_find _ _) as [[i' x]|]; [|done].
  by intros [= ->].
Qed.

Lemma flag_index_last tokens flag i :
  flag_index flag tokens = Some i →
  (i = length tokens - 1 ↔ tokens !! S i = None).
Proof.
  intros [Hi%lookup_lt_Some _]%flag_index_Some.
  rewrite lookup_ge_None. lia.
Qed.

(** The four ways through the block that handles [-o]. *)
Lemma edit_output_missing tokens g :
  flag_index "-o" tokens = None →
  edit_output tokens g =
  Run [Log WARNING OutputMissing]
      (Return (tokens ++ ["-o " +:+ g +:+ ".root"])).
Proof.
  intros H%flag_index_None. unfold edit_output.
  by rewrite bool_decide_false.
Qed.

Lemma edit_output_last tokens g i :
  flag_index "-o" tokens = Some i → tokens !! S i = None →
  edit_output tokens g = Run [Log ERROR OutputNotFollowed] (SysExit 1).
Proof.
  intros Hi Hlast. unfold edit_output.
  assert ("-o" ∈ tokens) as Hin.
  { apply flag_index_Some in Hi as [Hi _]. by eapply list_elem_of_lookup_2. }
  rewrite bool_decide_true by done. simpl.
  rewrite (list_index_flag _ _ i), mret_bind by done.
  by rewrite bool_decide_true by by apply (flag_index_last _ "-o").
Qed.

Lemma edit_output_found tokens g i path :
  flag_index "-o" tokens = Some i → tokens !! S i = Some path →
  edit_output tokens g =
  if bool_decide ((splitext path).2 = ".root")
  then Run [] (Return (<[S i := (splitext path).1 +:+ "_" +:+ g +:+ ".root"]>
                         tokens))
  else Run [Log ERROR OutputNotRoot] (SysExit 1).
Proof.
  intros Hi Hpath. unfold edit_output.
  assert ("-o" ∈ tokens) as Hin.
  { apply flag_index_Some in Hi as [Hi _]. by eapply list_elem_of_lookup_2. }
  rewrite bool_decide_true by done. simpl.
  rewrite (list_index_flag _ _ i), mret_bind by done.
  rewrite bool_decide_false.
  2:{ rewrite (flag_index_last _ "-o") by done. by rewrite Hpath. }
  unfold index_list. rewrite Nat.add_1_r, Hpath, mret_bind.
  destruct (splitext path) as [stem ext]. simpl.
  case_bool_decide as Hext; simpl; [|done].
  by rewrite Hext, !app_assoc_string.
Qed.

(** The four ways through the block that handles [-p]. *)
Lemma edit_pois_missing tokens fixed :
  flag_index "-p" tokens = None →
  edit_pois tokens fixed =
  Run [Log WARNING PoisMissing] (Return (tokens ++ ["-p " +:+ fixed])).
Proof.
  intros H%flag_index_None. unfold edit_pois.
  by rewrite bool_decide_false.
Qed.

Lemma edit_pois_last tokens fixed j :
  flag_index "-p" tokens = Some j → tokens !! S j = None →
  edit_pois tokens fixed = Run [Log ERROR PoisNotFollowed] (SysExit 1).
Proof.
  intros Hj Hlast. unfold edit_pois.
  assert ("-p" ∈ tokens) as Hin.
  { apply flag_index_Some in Hj as [Hj _]. by eapply list_elem_of_lookup_2. }
  rewrite bool_decide_true by done. simpl.
  rewrite (list_index_flag _ _ j), mret_bind by done.
  by rewrite bool_decide_true by by apply (flag_index_last _ "-p").
Qed.

Lemma edit_pois_found tokens fixed j pois :
  flag_index "-p" tokens = Some j → tokens !! S j = Some pois →
  edit_pois tokens fixed =
  if contains "=" pois
  then Run [] (Return (<[S j := pois +:+ "," +:+ fixed]> tokens))
  else Run [Log ERROR PoisNotFormatted] (SysExit 1).
Proof.
  intros Hj Hpois. unfold edit_pois.
  assert ("-p" ∈ tokens) as Hin.
  { apply flag_index_Some in Hj as [Hj _]. by eapply list_elem_of_lookup_2. }
  rewrite bool_decide_true by done. simpl.
  rewrite (list_index_flag _ _ j), mret_bind by done.
  rewrite bool_decide_false.
  2:{ rewrite (flag_index_last _ "-p") by done. by rewrite Hpois. }
  unfold index_list. rewrite Nat.add_1_r, Hpois, mret_bind.
  by destruct (contains "=" pois).
Qed.

(** What a returning [-o] block has done. *)
Lemma edit_output_Return tokens g tokens1 :
  result (edit_output tokens g) = Return tokens1 →
  (flag_index "-o" tokens = None ∧
   tokens1 = tokens ++ ["-o " +:+ g +:+ ".root"]) ∨
  (∃ i path, flag_index "-o" tokens = Some i ∧ tokens !! S i = Some path ∧
     (splitext path).2 = ".root" ∧
     tokens1 = <[S i := (splitext path).1 +:+ "_" +:+ g +:+ ".root"]> tokens).
Proof.
  destruct (flag_index "-o" tokens) as [i|] eqn:Hi.
  - destruct (tokens !! S i) as [path|] eqn:Hpath.
    + rewrite (edit_output_found _ _ i path) by done.
      case_bool_decide as Hext; [|done]. intros [= <-]. right. eauto 10.
    + by rewrite (edit_output_last _ _ i).
  - rewrite edit_output_missing by done. intros [= <-]. by left.
Qed.

(** What a returning [-p] block has done. *)
Lemma edit_pois_Return tokens fixed tokens' :
  result (edit_pois tokens fixed) = Return tokens' →
  (flag_index "-p" tokens = None ∧ tokens' = tokens ++ ["-p " +:+ fixed]) ∨
  (∃ j pois, flag_index "-p" tokens = Some j ∧ tokens !! S j = Some pois ∧
     contains "=" pois = true ∧
     tokens' = <[S j := pois +:+ "," +:+ fixed]> tokens).
Proof.
  destruct (flag_index "-p" tokens) as [j|] eqn:Hj.
  - destruct (tokens !! S j) as [pois|] eqn:Hpois.
    + rewrite (edit_pois_found _ _ j pois) by done.
      destruct (contains "=" pois) eqn:Heq; [|done].
      intros [= <-]. right. eauto 10.
    + by rewrite (edit_pois_last _ _ j).
  - rewrite edit_pois_missing by done. intros [= <-]. by left.
Qed.

Lemma edit_cmd_Return cmd g fixed cmd' :
  result (edit_cmd cmd g fixed) = Return cmd' →
  ∃ tokens1 tokens',
    result (edit_output (split cmd) g) = Return tokens1 ∧
    result (edit_pois tokens1 fixed) = Return tokens' ∧
    result (edit_split_cmd cmd g fixed) = Return tokens' ∧
    cmd' = join " " tokens'.
Proof.
  unfold edit_cmd. rewrite result_bind.
  destruct (result (edit_split_cmd cmd g fixed)) as [tokens'|] eqn:Hsplit;
    [|done].
  intros [= <-]. revert Hsplit. unfold edit_split_cmd. rewrite result_bind.
  destruct (result (edit_output (split cmd) g)) as [tokens1|]; [|done].
  eauto 10.
Qed.

(** Tokens that cannot be mistaken for a flag. *)
Lemma length_ne_string (s t : string) :
  String.length s ≠ String.length t → s ≠ t.
Proof. by intros H ->. Qed.

Lemma root_path_not_flag stem flag :
  String.length flag = 2 → stem +:+ ".root" ≠ flag.
Proof.
  intros Hflag. apply length_ne_string.
  rewrite length_app_string, Hflag. simpl. lia.
Qed.

Lemma splitext_root_not_flag path flag :
  (splitext path).2 = ".root" → String.length flag = 2 → path ≠ flag.
Proof.
  intros Hext Hflag. destruct (splitext path) as [stem ext] eqn:Hsplit.
  simpl in Hext. subst ext. apply splitext_app in Hsplit as <-.
  by apply root_path_not_flag.
Qed.

Lemma renamed_path_not_flag stem g flag :
  String.length flag = 2 → stem +:+ "_" +:+ g +:+ ".root" ≠ flag.
Proof.
  intros Hflag. apply length_ne_string.
  rewrite !length_app_string, Hflag. simpl. lia.
Qed.

Lemma default_not_flag prefix rest flag :
  String.length prefix = 3 → String.length flag = 2 →
  prefix +:+ rest ≠ flag.
Proof.
  intros Hp Hflag. apply length_ne_string.
  rewrite !length_app_string, Hp, Hflag. lia.
Qed.

Lemma extended_pois_not_flag pois fixed flag :
  contains "=" pois = true → flag = "-o" ∨ flag = "-p" →
  pois +:+ "," +:+ fixed ≠ flag.
Proof.
  intros Hc Hflag. destruct pois as [|c [|c' pois]].
  - done.
  - simpl in Hc. rewrite !orb_false_r, andb_true_r in Hc.
    apply bool_decide_eq_true in Hc as <-.
    destruct Hflag as [-> | ->]; rewrite app_String; discriminate.
  - apply length_ne_string. rewrite !length_app_string.
    destruct Hflag as [-> | ->]; simpl; lia.
Qed.

(** The [-p] block reads the baseline's own [-p] value: the [-o] block
    before it moves neither the first [-p] nor the token after it. *)
Lemma edit_output_keeps_pois tokens g tokens1 j pois :
  result (edit_output tokens g) = Return tokens1 →
  flag_index "-p" tokens = Some j → tokens !! S j = Some pois →
  flag_index "-p" tokens1 = Some j ∧ tokens1 !! S j = Some pois.
Proof.
  intros Hout Hj Hpois. apply edit_output_Return in Hout
    as [[Hnone ->]|(i & path & Hi & Hpath & Hext & ->)].
  - split; [|by apply lookup_app_l_Some].
    rewrite flag_index_snoc; [done|]. by apply default_not_flag.
  - split.
    + rewrite flag_index_insert; [done| |by apply renamed_path_not_flag].
      rewrite Hpath. intros [= H]. by apply splitext_root_not_flag in H.
    + rewrite list_lookup_insert_ne; [done|].
      intros [= ->]. apply flag_index_Some in Hj as [Hj _].
      apply flag_index_Some in Hi as [Hi _]. congruence.
Qed.

End EditCmd.

(** ** run_fits.py: the tokens of a derived command *)
Section CommandWords.
Import Py RunFits Spec.
Implicit Types tokens : list string.

Lemma has_whitespace_app s t :
  has_whitespace (s +:+ t) = has_whitespace s || has_whitespace t.
Proof.
  induction s as [|c s IH]; [done|].
  rewrite app_String. cbn [has_whitespace]. by rewrite IH, orb_assoc.
Qed.

Lemma app_String_nonempty s c t : s +:+ String c t ≠ "".
Proof. by destruct s. Qed.

(** [str.split] cuts at a space: the word being read ends there. *)
Lemma split_go_app_space word s t :
  split_go word (s +:+ String " " t) = split_go word s ++ split_go "" t.
Proof.
  revert word. induction s as [|c s IH]; intros word.
  - change ("" +:+ String " " t) with (String " " t). cbn [split_go].
    change (isspace " ") with true. cbv iota. by destruct word.
  - rewrite app_String. cbn [split_go]. destruct (isspace c).
    + destruct word; by rewrite IH.
    + apply IH.
Qed.

(** Splitting a joined list splits each of its elements. *)
Lemma split_join tokens : split (join " " tokens) = tokens ≫= split.
Proof.
  induction tokens as [|x tokens IH]; [done|].
  destruct tokens as [|y tokens].
  - cbn [join]. rewrite bind_cons.
    change ([] ≫= split) with (@nil string). by rewrite app_nil_r.
  - rewrite bind_cons, <-IH.
    change (join " " (x :: y :: tokens))
      with (x +:+ String " " (join " " (y :: tokens))).
    apply split_go_app_space.
Qed.

Lemma split_go_word word t :
  has_whitespace t = false → word +:+ t ≠ "" →
  split_go word t = [word +:+ t].
Proof.
  revert word. induction t as [|c t IH]; intros word Hws Hne.
  - rewrite app_empty_r in *. cbn [split_go]. by destruct word.
  - cbn [has_whitespace] in Hws. apply orb_false_iff in Hws as [Hc Ht].
    cbn [split_go]. rewrite Hc, IH; [|done|].
    + by rewrite app_assoc_string.
    + rewrite app_assoc_string. apply app_String_nonempty.
Qed.

(** A word splits into itself. *)
Lemma split_word t : is_word t → split t = [t].
Proof. intros [Hne Hws]. by apply (split_go_word "" t). Qed.

Lemma split_go_words word s t :
  has_whitespace word = false → t ∈ split_go word s → is_word t.
Proof.
  revert word. induction s as [|c s IH]; intros word Hword; cbn [split_go].
  - destruct word; [by intros ?%elem_of_nil|].
    by intros ->%list_elem_of_singleton.
  - destruct (isspace c) eqn:Hc.
    + destruct word; [by apply IH|].
      intros [->|Hin]%elem_of_cons; [done|]. by apply (IH "").
    + apply IH. rewrite has_whitespace_app, Hword.
      cbn [has_whitespace]. by rewrite Hc.
Qed.

(** The tokens of [str.split] are words. *)
Lemma split_words s : Forall is_word (split s).
Proof. apply Forall_forall. intros t. by apply split_go_words. Qed.

Lemma bind_split_words tokens :
  Forall is_word tokens → tokens ≫= split = tokens.
Proof.
  induction 1 as [|t tokens Ht _ IH]; [done|].
  by rewrite bind_cons, IH, split_word.
Qed.

(** A joined list whose first [n] elements are words is split back into
    those [n] elements, followed by whatever the others split into. *)
Lemma split_join_words n tokens :
  Forall is_word (firstn n tokens) →
  split (join " " tokens) = firstn n tokens ++ (skipn n tokens ≫= split).
Proof.
  intros Hwords. rewrite split_join.
  rewrite <-(take_drop n tokens) at 1.
  by rewrite bind_app, bind_split_words.
Qed.

Lemma split_join_lookup n tokens k :
  Forall is_word (firstn n tokens) → k < n →
  split (join " " tokens) !! k = tokens !! k.
Proof.
  intros Hwords Hk. rewrite (split_join_words n) by done.
  destruct (decide (k < length tokens)) as [Hlt|Hge].
  - rewrite lookup_app_l by (rewrite length_take; lia).
    by apply lookup_take_lt.
  - rewrite take_ge, drop_ge by lia.
    change ([] ≫= split) with (@nil string). by rewrite app_nil_r.
Qed.

Lemma split_join_flag_index flag n tokens i :
  Forall is_word (firstn n tokens) → i < n →
  flag_index flag tokens = Some i →
  flag_index flag (split (join " " tokens)) = Some i.
Proof.
  intros Hwords Hi [Hflag Hleast]%flag_index_Some.
  apply flag_index_Some. split.
  - by rewrite (split_join_lookup n) by done.
  - intros j Hj. rewrite (split_join_lookup n) by (done || lia).
    by apply Hleast.
Qed.

(** The edits of [edit_cmd] keep the first [n] tokens words, when what
    they write among them is a word. *)
Lemma words_insert n tokens k x :
  Forall is_word (firstn n tokens) → (k < n → is_word x) →
  Forall is_word (firstn n (<[k:=x]> tokens)).
Proof.
  intros Hwords Hx. rewrite take_insert. destruct (decide (k < n)); [|done].
  apply Forall_insert; auto.
Qed.

Lemma words_snoc n tokens x :
  n ≤ length tokens → Forall is_word (firstn n tokens) →
  Forall is_word (firstn n (tokens ++ [x])).
Proof. intros Hn Hwords. by rewrite take_app_le. Qed.

Lemma words_lookup n tokens k t :
  Forall is_word (firstn n tokens) → k < n → tokens !! k = Some t →
  is_word t.
Proof.
  intros Hwords Hk Ht. apply (proj1 (Forall_lookup _ _) Hwords k).
  by rewrite lookup_take_lt.
Qed.

(** The token list [edit_cmd] joins: as far as the baseline's tokens
    reach, it holds words, provided the group name and the string of
    fixed parameters hold no whitespace. *)
Lemma edit_cmd_words cmd g fixed tokens1 tokens' :
  has_whitespace g = false → has_whitespace fixed = false →
  result (edit_output (split cmd) g) = Return tokens1 →
  result (edit_pois tokens1 fixed) = Return tokens' →
  Forall is_word (firstn (length (split cmd)) tokens').
Proof.
  intros Hg Hfixed Hout Hpois. set (tokens := split cmd) in *.
  set (n := length tokens).
  assert (Forall is_word (firstn n tokens)) as Hwords.
  { rewrite take_ge by done. apply split_words. }
  assert (Forall is_word (firstn n tokens1) ∧ n ≤ length tokens1)
    as [Hwords1 Hlen1].
  { apply edit_output_Return in Hout
      as [[_ ->]|(i & path & _ & Hpath & Hext & ->)].
    - split; [by apply words_snoc|]. rewrite length_app. unfold n. lia.
    - split; [|by rewrite length_insert].
      apply words_insert; [done|]. intros Hi.
      pose proof (words_lookup n tokens (S i) path Hwords Hi Hpath)
        as [_ Hws].
      destruct (splitext path) as [stem ext] eqn:Hsplit.
      apply splitext_app in Hsplit as <-.
      rewrite has_whitespace_app in Hws.
      apply orb_false_iff in Hws as [Hstem _]. cbn [fst]. split.
      + apply app_String_nonempty.
      + rewrite !has_whitespace_app, Hstem, Hg. done. }
  apply edit_pois_Return in Hpois
    as [[_ ->]|(j & pois & _ & Hpoisj & _ & ->)].
  - by apply words_snoc.
  - apply words_insert; [done|]. intros Hj.
    pose proof (words_lookup n tokens1 (S j) pois Hwords1 Hj Hpoisj)
      as [_ Hws].
    split.
    + apply app_String_nonempty.
    + rewrite !has_whitespace_app, Hws, Hfixed. done.
Qed.

End CommandWords.

(** ** run_fits.py: the derived [-p] value *)
Section DerivedPois.
Import Py RunFits Spec.
Context {V : Type} (format_value : V → string).

(** What [edit_cmd] does to the baseline's [-p] value, whatever the string
    it is given to append. *)
Lemma edit_cmd_pois_token cmd g fixed j pois cmd' :
  flag_index "-p" (split cmd) = Some j →
  split cmd !! S j = Some pois →
  contains "=" pois = true →
  result (edit_cmd cmd g fixed) = Return cmd' →
  ∃ tokens1 tokens',
    result (edit_output (split cmd) g) = Return tokens1 ∧
    result (edit_pois tokens1 fixed) = Return tokens' ∧
    cmd' = join " " tokens' ∧
    flag_index "-p" tokens' = Some j ∧
    tokens' !! S j = Some (pois +:+ "," +:+ fixed).
Proof using Type.
  intros Hj Hpois Heq
    (tokens1 & tokens' & Hout & Hret & Hsplit & ->)%edit_cmd_Return.
  destruct (edit_output_keeps_pois _ _ _ _ _ Hout Hj Hpois) as [Hj1 Hpois1].
  exists tokens1, tokens'. split_and!; [done..| |].
  - rewrite (edit_pois_found _ _ j pois), Heq in Hret by done.
    injection Hret as <-. rewrite flag_index_insert; [done| |].
    + rewrite Hpois1. intros [= ->]. done.
    + apply extended_pois_not_flag; auto.
  - rewrite (edit_pois_found _ _ j pois), Heq in Hret by done.
    injection Hret as <-.
    apply list_lookup_insert_eq. by eapply lookup_lt_Some.
Qed.

(** The commands [generate_alt_cmds] returns are, group by group in the
    order of the configuration, those of [edit_cmd] for the group's name
    and its fixed-parameter string. *)
Lemma generate_alt_cmds_loop cmd (groups : dict (list string))
    (NPinfo : dict V) (alt_cmds cmds : list string) :
  dict_wf NPinfo →
  result (for_each groups (λ alt_cmds '(gname, gsysts),
            fixed_str ← fixed_systs format_value gsysts NPinfo;
            gcmd ← edit_cmd cmd gname fixed_str;
            mret (alt_cmds ++ [gcmd])) alt_cmds) = Return cmds →
  ∃ new, cmds = alt_cmds ++ new ∧
    ∀ k gname gsysts, groups !! k = Some (gname, gsysts) →
      ∃ gcmd, new !! k = Some gcmd ∧
        result (edit_cmd cmd gname
                  (fixed_parameter_string format_value gsysts NPinfo))
        = Return gcmd.
Proof using Type.
  intros Hwf. revert alt_cmds.
  induction groups as [|[gname gsysts] groups IH]; intros alt_cmds.
  { intros [= <-]. exists []. split; [by rewrite app_nil_r|]. by intros []. }
  cbn [for_each]. rewrite result_bind, result_bind, fixed_systs_result by done.
  rewrite result_bind.
  destruct (result (edit_cmd cmd gname
                      (fixed_parameter_string format_value gsysts NPinfo)))
    as [gcmd|] eqn:Hedit; [|done].
  cbn [result mret run_ret ret].
  intros (new & -> & Hnew)%IH. exists (gcmd :: new).
  split; [by rewrite <-app_assoc|].
  intros [|k] g systs Hk; cbn in Hk.
  - injection Hk as <- <-. by eauto.
  - by apply Hnew.
Qed.

End DerivedPois.

(** ** run_fits.py: when the command mutation gives up *)
Section EditCmdOutcome.
Import Py RunFits Spec.
Implicit Types tokens : list string.

Lemma result_edit_cmd cmd g fixed :
  result (edit_cmd cmd g fixed) =
  match result (edit_output (split cmd) g) with
  | Return tokens1 =>
      match result (edit_pois tokens1 fixed) with
      | Return tokens' => Return (join " " tokens')
      | Abort f => Abort f
      end
  | Abort f => Abort f
  end.
Proof.
  unfold edit_cmd, edit_split_cmd. rewrite !result_bind.
  destruct (result (edit_output _ _)); [|done].
  by destruct (result (edit_pois _ _)).
Qed.

Lemma contains_char_app c s t :
  contains (String c "") (s +:+ t)
  = contains (String c "") s || contains (String c "") t.
Proof.
  induction s as [|a s IH].
  - change ("" +:+ t) with t. by destruct t.
  - rewrite app_String. cbn [contains startswith]. rewrite IH.
    by destruct (bool_decide (c = a)).
Qed.

Lemma edit_output_keeps_flag tokens g tokens1 :
  result (edit_output tokens g) = Return tokens1 →
  flag_index "-p" tokens1 = flag_index "-p" tokens.
Proof.
  intros [[Hnone ->]|(i & path & Hi & Hpath & Hext & ->)]%edit_output_Return.
  - rewrite flag_index_snoc; [done|]. by apply default_not_flag.
  - rewrite flag_index_insert; [done| |by apply renamed_path_not_flag].
    rewrite Hpath. intros [= H]. by apply splitext_root_not_flag in H.
Qed.

Lemma not_malformed_output_None tokens :
  flag_index "-o" tokens = None → ¬ malformed_output tokens.
Proof. intros Hi (i & Hi' & _). congruence. Qed.

Lemma not_malformed_output_root tokens i path :
  flag_index "-o" tokens = Some i → tokens !! S i = Some path →
  (splitext path).2 = ".root" → ¬ malformed_output tokens.
Proof.
  intros Hi Hpath Hext (i' & Hi' & Hbad).
  assert (i' = i) as -> by congruence. by apply (Hbad path).
Qed.

Lemma not_malformed_pois_None tokens :
  flag_index "-p" tokens = None → ¬ malformed_pois tokens.
Proof. intros Hj (j & Hj' & _). congruence. Qed.

Lemma not_malformed_pois_eq tokens j pois :
  flag_index "-p" tokens = Some j → tokens !! S j = Some pois →
  contains "=" pois = true → ¬ malformed_pois tokens.
Proof.
  intros Hj Hpois Heq (j' & Hj' & Hbad).
  assert (j' = j) as -> by congruence.
  specialize (Hbad pois Hpois). congruence.
Qed.

Lemma malformed_pois_last tokens j :
  flag_index "-p" tokens = Some j → tokens !! S j = None →
  malformed_pois tokens.
Proof. intros Hj Hlast. exists j. split; [done|]. intros pois. congruence. Qed.

Lemma malformed_pois_no_eq tokens j pois :
  flag_index "-p" tokens = Some j → tokens !! S j = Some pois →
  contains "=" pois = false → malformed_pois tokens.
Proof.
  intros Hj Hpois Heq. exists j. split; [done|]. intros pois'. congruence.
Qed.

(** After a returning [-o] block, the [-p] block exits exactly on a
    malformed [-p], provided the group name holds no [=]. *)
Lemma edit_pois_after_output tokens g fixed tokens1 :
  contains "=" g = false →
  result (edit_output tokens g) = Return tokens1 →
  (malformed_pois tokens ∧ result (edit_pois tokens1 fixed) = SysExit 1) ∨
  (¬ malformed_pois tokens ∧
   ∃ tokens', result (edit_pois tokens1 fixed) = Return tokens').
Proof.
  intros Hg Hout. pose proof (edit_output_keeps_flag _ _ _ Hout) as Hflag.
  destruct (flag_index "-p" tokens) as [j|] eqn:Hj.
  2:{ right. split; [by apply not_malformed_pois_None|].
      rewrite edit_pois_missing by done. eauto. }
  destruct (tokens !! S j) as [pois|] eqn:Hpois.
  { destruct (edit_output_keeps_pois _ _ _ _ _ Hout Hj Hpois) as [_ Hpois1].
    rewrite (edit_pois_found _ _ j pois) by done.
    destruct (contains "=" pois) eqn:Heq.
    - right. split; [by eapply not_malformed_pois_eq|]. eauto.
    - left. split; [by eapply malformed_pois_no_eq|done]. }
  left. split; [by eapply malformed_pois_last|].
  apply edit_output_Return in Hout
    as [[Hnone ->]|(i & path & Hi & Hpath & Hext & ->)].
  - assert (S j = length tokens) as Hlen.
    { apply lookup_ge_None in Hpois.
      apply flag_index_Some in Hj as [Hj%lookup_lt_Some _]. lia. }
    rewrite (edit_pois_found _ _ j ("-o " +:+ g +:+ ".root")); [|done|].
    + change "=" with (String "="%char "").
      rewrite !contains_char_app.
      change (String "="%char "") with "=". by rewrite Hg.
    + rewrite lookup_app_r by lia. by rewrite Hlen, Nat.sub_diag.
  - rewrite (edit_pois_last _ _ j); [done..|].
    apply lookup_ge_None. rewrite length_insert. by apply lookup_ge_None.
Qed.

(** Where the exits of [edit_cmd] are as the specification lists them.
    For a group name without [=], [edit_cmd] ends the run with exit code 1 exactly on a malformed baseline command,
    and returns a derived command on every other one (a missing [-o] or
    [-p] included). *)
Lemma edit_cmd_exits_iff_malformed cmd g fixed :
  contains "=" g = false →
  (malformed (split cmd) ∧ result (edit_cmd cmd g fixed) = SysExit 1) ∨
  (¬ malformed (split cmd) ∧
   ∃ cmd', result (edit_cmd cmd g fixed) = Return cmd').
Proof.
  intros Hg. rewrite result_edit_cmd. set (tokens := split cmd).
  assert (∀ tokens1, result (edit_output tokens g) = Return tokens1 →
            ¬ malformed_output tokens →
            (malformed tokens ∧
             match result (edit_pois tokens1 fixed) with
             | Return tokens' => Return (join " " tokens')
             | Abort f => Abort f
             end = SysExit 1) ∨
            (¬ malformed tokens ∧
             ∃ cmd', match result (edit_pois tokens1 fixed) with
                     | Return tokens' => Return (join " " tokens')
                     | Abort f => Abort f
                     end = Return cmd')) as Hpois.
  { intros tokens1 Hout Hgood.
    destruct (edit_pois_after_output _ _ fixed _ Hg Hout)
      as [[Hbad ->]|[Hok [tokens' ->]]].
    - left. split; [by right|done].
    - right. split; [|by eauto]. by intros [?|?]. }
  destruct (flag_index "-o" tokens) as [i|] eqn:Hi.
  2:{ pose proof (edit_output_missing tokens g Hi) as Hout.
      rewrite Hout. simpl. apply Hpois; [by rewrite Hout|].
      by apply not_malformed_output_None. }
  destruct (tokens !! S i) as [path|] eqn:Hpath.
  2:{ left. rewrite (edit_output_last _ _ i) by done. split; [|done].
      left. exists i. split; [done|]. intros path. congruence. }
  pose proof (edit_output_found tokens g i path Hi Hpath) as Hout.
  case_bool_decide as Hext; rewrite Hout; simpl.
  - apply Hpois; [by rewrite Hout|]. by eapply not_malformed_output_root.
  - left. split; [|done]. left. exists i. split; [done|].
    intros path'. congruence.
Qed.

(** With a well-formed [-o], [edit_cmd] returns unless the [-p] is
    malformed. *)
Lemma edit_cmd_returns_with_output cmd g fixed i path :
  flag_index "-o" (split cmd) = Some i →
  split cmd !! S i = Some path →
  (splitext path).2 = ".root" →
  ¬ malformed_pois (split cmd) →
  ∃ cmd', result (edit_cmd cmd g fixed) = Return cmd'.
Proof.
  intros Hi Hpath Hext Hgood. rewrite result_edit_cmd.
  set (tokens := split cmd) in *.
  pose proof (edit_output_found tokens g i path Hi Hpath) as Hout.
  rewrite bool_decide_true in Hout by done.
  assert (result (edit_output tokens g)
          = Return (<[S i:=(splitext path).1 +:+ "_" +:+ g +:+ ".root"]>
                      tokens)) as Hres by by rewrite Hout.
  rewrite Hres.
  pose proof (edit_output_keeps_flag _ _ _ Hres) as Hflag.
  destruct (flag_index "-p" tokens) as [j|] eqn:Hj.
  2:{ rewrite edit_pois_missing by done. by eauto. }
  destruct (tokens !! S j) as [pois|] eqn:Hpois.
  2:{ destruct Hgood. by eapply malformed_pois_last. }
  destruct (edit_output_keeps_pois _ _ _ _ _ Hres Hj Hpois) as [_ Hpois1].
  rewrite (edit_pois_found _ _ j pois) by done.
  destruct (contains "=" pois) eqn:Heq; [by eauto|].
  destruct Hgood. by eapply malformed_pois_no_eq.
Qed.

(** What [edit_cmd] does to the baseline's [-o] value, in the token list
    it joins. *)
Lemma edit_cmd_output_token cmd g fixed i stem cmd' :
  flag_index "-o" (split cmd) = Some i →
  split cmd !! S i = Some (stem +:+ ".root") →
  result (edit_cmd cmd g fixed) = Return cmd' →
  ∃ tokens1 tokens',
    result (edit_output (split cmd) g) = Return tokens1 ∧
    result (edit_pois tokens1 fixed) = Return tokens' ∧
    cmd' = join " " tokens' ∧
    flag_index "-o" tokens' = Some i ∧
    tokens' !! S i = Some (stem +:+ "_" +:+ g +:+ ".root").
Proof.
  intros Hi Hpath
    (tokens1 & tokens' & Hout & Hpois & Hsplit & ->)%edit_cmd_Return.
  exists tokens1, tokens'. split; [done|]. split; [done|]. split; [done|].
  clear Hsplit. set (tokens := split cmd) in *.
  apply edit_output_Return in Hout
    as [[Hnone _]|(i0 & path & Hi0 & Hpath0 & Hext & ->)]; [congruence|].
  assert (i0 = i) as -> by congruence.
  assert (path = stem +:+ ".root") as Hp by congruence.
  assert ((splitext path).1 = stem) as Hstem.
  { destruct (splitext path) as [stem' ext] eqn:Hsp; simpl in *; subst ext.
    apply splitext_app in Hsp. apply (app_inj_suffix _ _ ".root").
    congruence. }
  rewrite Hstem in Hpois. clear Hstem.
  set (new := stem +:+ "_" +:+ g +:+ ".root") in *.
  assert (flag_index "-o" (<[S i:=new]> tokens) = Some i) as Hi1.
  { rewrite flag_index_insert; [done| |by apply renamed_path_not_flag].
    rewrite Hpath. intros [= H]. by apply root_path_not_flag in H. }
  assert (<[S i:=new]> tokens !! S i = Some new) as Hnew.
  { apply list_lookup_insert_eq. by eapply lookup_lt_Some. }
  apply edit_pois_Return in Hpois
    as [[Hnone ->]|(j & pois & Hj & Hpoisj & Heq & ->)]; split.
  - rewrite flag_index_snoc; [done|]. by apply default_not_flag.
  - by apply lookup_app_l_Some.
  - rewrite flag_index_insert; [done| |].
    + rewrite Hpoisj. intros [= ->]. done.
    + apply extended_pois_not_flag; auto.
  - rewrite list_lookup_insert_ne; [done|].
    intros [= ->]. apply flag_index_Some in Hj as [Hj _].
    apply flag_index_Some in Hi1 as [Hi1 _]. congruence.
Qed.

(** C2. For every group name [g] and string of fixed parameters without
    whitespace, and every baseline command whose first [-o] is followed by
    a value [stem.root]: in the derived command, whenever [edit_cmd]
    returns one, the first [-o] sits where it sat and its value, the token
    after it, is [stem_g.root], the baseline's value with [_g] inserted
    before the extension and the extension unchanged; and [edit_cmd] does
    return one when [os.path.splitext] finds the extension [.root] in
    that value and the [-p] is not malformed.  The tokens of a command are
    those of [str.split], as [edit_cmd] itself reads the baseline. *)
Theorem edit_cmd_output_path cmd g fixed i stem :
  flag_index "-o" (split cmd) = Some i →
  split cmd !! S i = Some (stem +:+ ".root") →
  has_whitespace g = false →
  has_whitespace fixed = false →
  (∀ cmd', result (edit_cmd cmd g fixed) = Return cmd' →
     flag_index "-o" (split cmd') = Some i ∧
     split cmd' !! S i = Some (stem +:+ "_" +:+ g +:+ ".root")) ∧
  ((splitext (stem +:+ ".root")).2 = ".root" →
   ¬ malformed_pois (split cmd) →
   ∃ cmd', result (edit_cmd cmd g fixed) = Return cmd').
Proof.
  intros Hi Hpath Hg Hfixed.
  split; [|by apply (edit_cmd_returns_with_output _ _ _ i)].
  intros cmd' Hret.
  destruct (edit_cmd_output_token _ _ _ _ _ _ Hi Hpath Hret)
    as (tokens1 & tokens' & Hout & Hpois & -> & Hi' & Hpath').
  pose proof (edit_cmd_words cmd g fixed tokens1 tokens' Hg Hfixed Hout
                Hpois) as Hwords.
  assert (S i < length (split cmd)) as Hlt by by eapply lookup_lt_Some.
  split.
  - apply (split_join_flag_index _ (length (split cmd))); [done|lia|done].
  - by rewrite (split_join_lookup (length (split cmd))) by done.
Qed.

(** C5. The baseline command [fit -p], its [-p] the last token, and the
    group name [a=b]: the default [-o] appended first is taken for the
    [-p] value, and [edit_cmd] returns a command instead of exiting. *)
Theorem edit_cmd_pois_last_not_fatal :
  malformed (split "fit -p") ∧
  edit_cmd "fit -p" "a=b" "alpha_a_1=0.5"
  = Run [Log WARNING OutputMissing]
        (Return "fit -p -o a=b.root,alpha_a_1=0.5").
Proof.
  split; [|reflexivity].
  right. exists 1. split; [reflexivity|]. intros pois. discriminate.
Qed.

End EditCmdOutcome.

(** The scenario of the specification: the first [-o] is token 1, its value
    [out.root], and the derived command is returned. *)
Lemma edit_cmd_output_path_witness :
  Py.result (RunFits.edit_cmd "fit -o out.root -p mu=1_0_2" "sysA"
               "alpha_a_1=0.5")
  = Py.Return "fit -o out_sysA.root -p mu=1_0_2,alpha_a_1=0.5" ∧
  (Spec.flag_index "-o"
     (Py.split "fit -o out_sysA.root -p mu=1_0_2,alpha_a_1=0.5") = Some 1 ∧
   Py.split "fit -o out_sysA.root -p mu=1_0_2,alpha_a_1=0.5" !! 2
   = Some ("out" +:+ "_" +:+ "sysA" +:+ ".root")) ∧
  ∃ cmd',
    Py.result (RunFits.edit_cmd "fit -o out.root -p mu=1_0_2" "sysA"
                 "alpha_a_1=0.5") = Py.Return cmd'.
Proof.
  pose proof (edit_cmd_output_path "fit -o out.root -p mu=1_0_2" "sysA"
                "alpha_a_1=0.5" 1 "out" eq_refl eq_refl eq_refl eq_refl)
    as [Hvalue Hreturns].
  split; [reflexivity|]. split.
  - apply Hvalue. reflexivity.
  - apply Hreturns; [reflexivity|].
    eapply not_malformed_pois_eq; reflexivity.
Defined.

(** The group name [a b]: the baseline's first [-o] is token 1 and its
    value [out.root]; the derived command is returned, and the value of
    its [-o] is [out_a], without the extension. *)
Lemma edit_cmd_output_path_cut_at_space :
  Spec.flag_index "-o" (Py.split "fit -o out.root -p mu=1") = Some 1 ∧
  Py.split "fit -o out.root -p mu=1" !! 2 = Some ("out" +:+ ".root") ∧
  RunFits.edit_cmd "fit -o out.root -p mu=1" "a b" "x=1"
  = Py.Run [] (Py.Return "fit -o out_a b.root -p mu=1,x=1") ∧
  Spec.flag_index "-o" (Py.split "fit -o out_a b.root -p mu=1,x=1")
  = Some 1 ∧
  Py.split "fit -o out_a b.root -p mu=1,x=1" !! 2 = Some "out_a".
Proof. repeat split; reflexivity. Qed.

(** ** run_fits.py: the [-p] value of the generated commands *)
Section GeneratedPois.
Import Py RunFits Spec.
Context {V : Type} (format_value : V → string).

(** [generate_alt_cmds] returns on a baseline command that is not
    malformed, when no group name holds [=]. *)
Lemma generate_alt_cmds_returns cmd (groups : dict (list string))
    (NPinfo : dict V) :
  dict_wf NPinfo → ¬ malformed (split cmd) →
  (∀ gname, gname ∈ keys groups → contains "=" gname = false) →
  ∃ cmds,
    result (generate_alt_cmds format_value cmd groups NPinfo) = Return cmds.
Proof using Type.
  intros Hwf Hgood Hnames. unfold generate_alt_cmds.
  destruct (for_each_returns_or_aborts (E:=effect) (λ _, False) groups
    (λ alt_cmds '(gname, gsysts),
       fixed_str ← fixed_systs format_value gsysts NPinfo;
       gcmd ← edit_cmd cmd gname fixed_str;
       mret (alt_cmds ++ [gcmd])))
    with (s := ([] : list string)) as [Hret|(f & [] & _)]; [|done].
  intros alt_cmds [gname gsysts] Hin. left.
  rewrite result_bind, fixed_systs_result by done. rewrite result_bind.
  destruct (edit_cmd_exits_iff_malformed cmd gname
              (fixed_parameter_string format_value gsysts NPinfo))
    as [[Hbad _]|[_ [gcmd ->]]]; [|done|by eauto].
  apply Hnames. by apply (list_elem_of_fmap_2 fst) in Hin.
Qed.

(** C3. For every baseline command whose first [-p] is followed by a value
    [pois] containing [=], and every group whose name and fixed-parameter
    string hold no whitespace: in the command [generate_alt_cmds] returns
    for the group, the first [-p] sits where it sat and its value, the
    token after it, is [pois,fixed]: the baseline's POI specification, a
    comma, and the fixed-parameter string of the group; and
    [generate_alt_cmds] does return when the [-o] of the baseline is not
    malformed and no group name holds [=].  The tokens of a command are
    those of [str.split], as [edit_cmd] itself reads the baseline.  In
    particular the baseline [fit -o out.root -p mu=1_0_2] with the group
    [sysA = [alpha_a]] and the fitted value [alpha_a_1 = 0.5] yields the
    single derived command
    [fit -o out_sysA.root -p mu=1_0_2,alpha_a_1=0.5]. *)
Theorem generate_alt_cmds_pois_value :
  (∀ cmd groups NPinfo k gname gsysts j pois,
     dict_wf NPinfo →
     flag_index "-p" (split cmd) = Some j →
     split cmd !! S j = Some pois →
     contains "=" pois = true →
     groups !! k = Some (gname, gsysts) →
     has_whitespace gname = false →
     has_whitespace (fixed_parameter_string format_value gsysts NPinfo)
     = false →
     (∀ cmds,
        result (generate_alt_cmds format_value cmd groups NPinfo)
        = Return cmds →
        ∃ gcmd,
          cmds !! k = Some gcmd ∧
          flag_index "-p" (split gcmd) = Some j ∧
          split gcmd !! S j
          = Some (pois +:+ "," +:+
                  fixed_parameter_string format_value gsysts NPinfo)) ∧
     (¬ malformed_output (split cmd) →
      (∀ g, g ∈ keys groups → contains "=" g = false) →
      ∃ cmds,
        result (generate_alt_cmds format_value cmd groups NPinfo)
        = Return cmds)) ∧
  (∀ v, format_value v = "0.5" →
     generate_alt_cmds format_value "fit -o out.root -p mu=1_0_2"
       [("sysA", ["alpha_a"])] [("alpha_a_1", v)]
     = Run [] (Return ["fit -o out_sysA.root -p mu=1_0_2,alpha_a_1=0.5"])).
Proof using Type.
  split.
  - intros cmd groups NPinfo k gname gsysts j pois Hwf Hj Hpois Heq Hk
      Hg Hfixed.
    split.
    + intros cmds Hret.
      apply generate_alt_cmds_loop in Hret as (new & -> & Hnew); [|done].
      destruct (Hnew k gname gsysts Hk) as (gcmd & Hgcmd & Hedit).
      exists gcmd. split; [done|].
      destruct (edit_cmd_pois_token _ _ _ _ _ _ Hj Hpois Heq Hedit)
        as (tokens1 & tokens' & Hout & Hret & -> & Hj' & Hpois').
      pose proof (edit_cmd_words cmd gname _ tokens1 tokens' Hg Hfixed
                    Hout Hret) as Hwords.
      assert (S j < length (split cmd)) as Hlt by by eapply lookup_lt_Some.
      split.
      * apply (split_join_flag_index _ (length (split cmd)));
          [done|lia|done].
      * by rewrite (split_join_lookup (length (split cmd))) by done.
    + intros Hgood Hnames. apply generate_alt_cmds_returns; [done| |done].
      intros [Hbad|Hbad]; [done|].
      by apply (not_malformed_pois_eq _ j pois) in Hbad.
  - intros v Hv. vm_compute. by rewrite Hv.
Qed.

End GeneratedPois.

(** The scenario of the specification, the value already formatted. *)
Lemma generate_alt_cmds_pois_value_witness :
  ((∀ cmds,
      Py.result
        (RunFits.generate_alt_cmds (λ v : string, v)
           "fit -o out.root -p mu=1_0_2" [("sysA", ["alpha_a"])]
           [("alpha_a_1", "0.5")]) = Py.Return cmds →
      ∃ gcmd,
        cmds !! 0 = Some gcmd ∧
        Spec.flag_index "-p" (Py.split gcmd) = Some 3 ∧
        Py.split gcmd !! 4
        = Some ("mu=1_0_2" +:+ "," +:+
                Spec.fixed_parameter_string (λ v : string, v) ["alpha_a"]
                  [("alpha_a_1", "0.5")])) ∧
   (¬ Spec.malformed_output (Py.split "fit -o out.root -p mu=1_0_2") →
    (∀ g, g ∈ Py.keys [("sysA", ["alpha_a"])] →
       Py.contains "=" g = false) →
    ∃ cmds,
      Py.result
        (RunFits.generate_alt_cmds (λ v : string, v)
           "fit -o out.root -p mu=1_0_2" [("sysA", ["alpha_a"])]
           [("alpha_a_1", "0.5")]) = Py.Return cmds)) ∧
  RunFits.generate_alt_cmds (λ v : string, v) "fit -o out.root -p mu=1_0_2"
    [("sysA", ["alpha_a"])] [("alpha_a_1", "0.5")]
  = Py.Run [] (Py.Return ["fit -o out_sysA.root -p mu=1_0_2,alpha_a_1=0.5"]).
Proof.
  split.
  - apply (proj1 (generate_alt_cmds_pois_value (λ v : string, v))
             "fit -o out.root -p mu=1_0_2" [("sysA", ["alpha_a"])]
             [("alpha_a_1", "0.5")] 0 "sysA" ["alpha_a"] 3 "mu=1_0_2").
    + unfold Py.dict_wf, Py.keys. cbn [fmap list_fmap fst]. compute_done.
    + reflexivity.
    + reflexivity.
    + reflexivity.
    + reflexivity.
    + reflexivity.
    + reflexivity.
  - apply (proj2 (generate_alt_cmds_pois_value (λ v : string, v)) "0.5").
    reflexivity.
Defined.

(** The group name [a -p z]: the baseline's first [-p] is token 3 and its
    value [mu=1]; the one derived command is returned, its first [-p] is
    token 3 still, and the value of that [-p] is [z.root]. *)
Lemma generate_alt_cmds_pois_value_cut_at_space :
  Spec.flag_index "-p" (Py.split "fit -o out.root -p mu=1") = Some 3 ∧
  Py.split "fit -o out.root -p mu=1" !! 4 = Some "mu=1" ∧
  RunFits.generate_alt_cmds (λ v : string, v) "fit -o out.root -p mu=1"
    [("a -p z", ["x"])] [("x", "1")]
  = Py.Run [] (Py.Return ["fit -o out_a -p z.root -p mu=1,x=1"]) ∧
  Spec.flag_index "-p" (Py.split "fit -o out_a -p z.root -p mu=1,x=1")
  = Some 3 ∧
  Py.split "fit -o out_a -p z.root -p mu=1,x=1" !! 4 = Some "z.root".
Proof. repeat split; reflexivity. Qed.

(** ** Dictionaries filled by a loop *)
Section DictLoops.
Import Py.
Context {V W : Type}.

(** A loop that assigns [d[k] = f k] for each [k] of a list. *)
Lemma lookup_foldl_set_frame (f : string → W) (ks : list string)
    (acc : dict W) (k : string) :
  k ∉ ks →
  dict_lookup (foldl (λ acc k, dict_set acc k (f k)) acc ks) k
  = dict_lookup acc k.
Proof.
  revert acc. induction ks as [|k0 ks IH]; intros acc Hk; [done|].
  apply not_elem_of_cons in Hk as [Hne Hk]. simpl.
  rewrite IH, dict_lookup_set by done. by rewrite bool_decide_false.
Qed.

Lemma lookup_foldl_set (f : string → W) (ks : list string) (acc : dict W)
    (k : string) :
  k ∈ ks →
  dict_lookup (foldl (λ acc k, dict_set acc k (f k)) acc ks) k = Some (f k).
Proof.
  revert acc. induction ks as [|k0 ks IH]; intros acc Hk.
  { by apply elem_of_nil in Hk. }
  simpl. destruct (decide (k ∈ ks)) as [Hin|Hnin]; [by apply IH|].
  apply elem_of_cons in Hk as [->|?]; [|done].
  rewrite lookup_foldl_set_frame, dict_lookup_set by done.
  by rewrite bool_decide_true.
Qed.

(** A loop over the items of a dictionary that assigns [d[k] = f v],
    passing over the keys that [skip] holds of. *)
Lemma lookup_foldl_items_frame (skip : string → bool) (f : V → W)
    (items : dict V) (acc : dict W) (k : string) :
  k ∉ keys items →
  dict_lookup
    (foldl (λ acc '(k, v), if skip k then acc else dict_set acc k (f v))
       acc items) k
  = dict_lookup acc k.
Proof.
  unfold keys. revert acc.
  induction items as [|[k0 v0] items IH]; intros acc Hk; [done|].
  rewrite fmap_cons in Hk. apply not_elem_of_cons in Hk as [Hne Hk]. simpl.
  rewrite IH by done. destruct (skip k0); [done|].
  rewrite dict_lookup_set. by rewrite bool_decide_false.
Qed.

Lemma lookup_foldl_items (skip : string → bool) (f : V → W)
    (items : dict V) (acc : dict W) (k : string) (v : V) :
  dict_wf items → dict_lookup items k = Some v → skip k = false →
  dict_lookup
    (foldl (λ acc '(k, v), if skip k then acc else dict_set acc k (f v))
       acc items) k
  = Some (f v).
Proof.
  unfold dict_wf, keys. revert acc.
  induction items as [|[k0 v0] items IH]; intros acc Hwf Hk Hskip; [done|].
  rewrite fmap_cons in Hwf. apply NoDup_cons in Hwf as [Hk0 Hwf].
  simpl in *. case_bool_decide as Heq.
  - simplify_eq. rewrite lookup_foldl_items_frame by done.
    rewrite Hskip, dict_lookup_set. by rewrite bool_decide_true.
  - by apply IH.
Qed.

End DictLoops.

(** ** Facts about floats *)
Section FloatFacts.

(** A float that passes [0 <= x] is not below zero. *)
Lemma leb_zero_not_ltb (x : float) :
  (0 <=? x)%float = true → (x <? 0)%float = false.
Proof.
  rewrite leb_spec, ltb_spec. change (Prim2SF 0) with (S754_zero false).
  unfold SFleb, SFltb.
  destruct (Prim2SF x) as [s|s| |s m e]; simpl; try done; by destruct s.
Qed.

(** The floats equal to 0 are the two zeros. *)
Lemma eqb_zero_cases (x : float) :
  (x =? 0)%float = true → x = 0%float ∨ x = (-0)%float.
Proof.
  rewrite FloatAxioms.eqb_spec. change (Prim2SF 0) with (S754_zero false).
  intros Heq.
  assert (∃ s, Prim2SF x = S754_zero s) as [s Hs].
  { unfold SFeqb in Heq.
    destruct (Prim2SF x) as [s|s| |s m e]; simpl in Heq; try done;
      [by eauto|by destruct s..]. }
  rewrite <-(SF2Prim_Prim2SF x), Hs. by destruct s; [right|left].
Qed.




End FloatFacts.

(** ** syst_breakdown.py: quadrature subtraction *)
Section Impacts.
Import Py SystBreakdown Spec Closed.

Lemma float_square_closed (x : float) :
  float_square (E:=effect) x
  = if overflows x then Run [] (Raise OverflowError)
    else Run [] (Return (x * x)%float).
Proof. unfold float_square, overflows. by destruct (_ && _). Qed.

Lemma radicand_closed (base_err alt_err : float) :
  radicand base_err alt_err
  = if side_overflows base_err alt_err then Run [] (Raise OverflowError)
    else Run [] (Return (side_radicand base_err alt_err)).
Proof.
  unfold radicand, side_overflows. rewrite !float_square_closed.
  by destruct (overflows base_err), (overflows alt_err).
Qed.

(** The root is taken of a radicand that has passed the test, so that
    [math.sqrt] does not raise. *)
Lemma math_sqrt_tested (x : float) :
  (0 <=? x)%float = true → math_sqrt (E:=effect) x = Run [] (Return (sqrt x)).
Proof. intros Hx%leb_zero_not_ltb. unfold math_sqrt. by rewrite Hx. Qed.

(** One side of [sub_quad_errs]. *)
Lemma side_closed (base_err alt_err : float) (m : message) :
  (tested ← radicand base_err alt_err;
   if (0 <=? tested)%float
   then rooted ← radicand base_err alt_err; math_sqrt rooted
   else emit (Log WARNING m);; mret 0%float)
  = if side_overflows base_err alt_err then Run [] (Raise OverflowError)
    else Run (side_warning base_err alt_err m)
             (Return (side_impact base_err alt_err)).
Proof.
  rewrite radicand_closed. unfold side_warning, side_impact.
  destruct (side_overflows base_err alt_err); [done|].
  change (Run (E:=effect) [] (Return (side_radicand base_err alt_err)))
    with (@mret (run effect) _ _ (side_radicand base_err alt_err)).
  rewrite mret_bind.
  destruct (0 <=? side_radicand base_err alt_err)%float eqn:Htest; [|done].
  by rewrite mret_bind, math_sqrt_tested.
Qed.

Lemma sub_quad_errs_closed (self poi : POI) :
  sub_quad_errs self poi
  = if side_overflows (err self).1 (err poi).1
    then Run [] (Raise OverflowError)
    else if side_overflows (err self).2 (err poi).2
    then Run (side_warning (err self).1 (err poi).1
                (LowerErrorLarger (err poi).1 (name self) (err self).1))
             (Raise OverflowError)
    else Run (quad_warnings self poi) (Return (quad_impact self poi)).
Proof.
  unfold sub_quad_errs. cbv zeta. rewrite !side_closed.
  destruct (side_overflows (err self).1 (err poi).1); [done|].
  rewrite bind_Run_Return.
  destruct (side_overflows (err self).2 (err poi).2).
  - cbn [trace result]. by rewrite app_nil_r.
  - rewrite bind_Run_Return. cbn [trace result].
    unfold quad_warnings, quad_impact. by rewrite app_nil_r.
Qed.

(** Without overflow, [sub_quad_errs] returns. *)
Lemma sub_quad_errs_fine (self poi : POI) :
  quad_overflows self poi = false →
  sub_quad_errs self poi
  = Run (quad_warnings self poi) (Return (quad_impact self poi)).
Proof.
  unfold quad_overflows. intros [H1 H2]%orb_false_iff.
  by rewrite sub_quad_errs_closed, H1, H2.
Qed.

Lemma sub_quad_errs_overflow (self poi : POI) :
  quad_overflows self poi = true →
  result (sub_quad_errs self poi) = Raise OverflowError.
Proof.
  unfold quad_overflows. rewrite sub_quad_errs_closed.
  destruct (side_overflows (err self).1 (err poi).1); [done|].
  by destruct (side_overflows (err self).2 (err poi).2).
Qed.

(** [sub_quad_errs] returns, or raises [OverflowError]. *)
Lemma sub_quad_errs_outcome (self poi : POI) :
  (quad_overflows self poi = false ∧
   result (sub_quad_errs self poi) = Return (quad_impact self poi)) ∨
  (quad_overflows self poi = true ∧
   result (sub_quad_errs self poi) = Raise OverflowError).
Proof.
  destruct (quad_overflows self poi) eqn:Hover.
  - right. by rewrite sub_quad_errs_overflow.
  - left. by rewrite sub_quad_errs_fine.
Qed.

(** One step of the inner loop of [compute_impacts]. *)
Lemma compute_impacts_group_step (base_poi : POI) (entry : dict (float * float))
    (x : string * POI) :
  let body := λ (entry : dict (float * float)) '(gname, alt_poi),
    if bool_decide (gname = "Base") then mret entry
    else impact ← sub_quad_errs base_poi alt_poi;
         mret (dict_set entry gname impact) in
  (∃ entry', result (body entry x) = Return entry') ∨
  (∃ f, f = Raised OverflowError ∧ result (body entry x) = Abort f).
Proof.
  destruct x as [gname alt_poi]. simpl. case_bool_decide; [by eauto|].
  rewrite result_bind.
  destruct (sub_quad_errs_outcome base_poi alt_poi) as [[_ ->]|[_ ->]];
    by eauto.
Qed.

Lemma compute_impacts_groups (base_poi : POI) (groups : dict POI) :
  (∀ gname alt_poi, (gname, alt_poi) ∈ groups → gname ≠ "Base" →
     quad_overflows base_poi alt_poi = false) →
  for_each groups (λ entry '(gname, alt_poi),
    if bool_decide (gname = "Base") then mret entry
    else impact ← sub_quad_errs base_poi alt_poi;
         mret (dict_set entry gname impact)) []
  = Run (group_warnings base_poi groups)
        (Return (group_impacts base_poi groups)).
Proof.
  intros Hfine. unfold group_warnings, group_impacts.
  apply (for_each_returns
    (λ '(gname, alt_poi), if bool_decide (gname = "Base") then []
                          else quad_warnings base_poi alt_poi)
    (λ entry '(gname, alt_poi),
       if bool_decide (gname = "Base") then entry
       else dict_set entry gname (quad_impact base_poi alt_poi))).
  intros entry [gname alt_poi] Hin. case_bool_decide as Hne; [done|].
  rewrite sub_quad_errs_fine, bind_Run_Return by by apply (Hfine gname).
  simpl. by rewrite app_nil_r.
Qed.

Lemma compute_impacts_groups_overflow (base_poi : POI) (groups : dict POI)
    gname alt_poi :
  (gname, alt_poi) ∈ groups → gname ≠ "Base" →
  quad_overflows base_poi alt_poi = true →
  result (for_each (E:=effect) groups (λ entry '(gname, alt_poi),
    if bool_decide (gname = "Base") then mret entry
    else impact ← sub_quad_errs base_poi alt_poi;
         mret (dict_set entry gname impact)) [])
  = Raise OverflowError.
Proof.
  intros Hin Hne Hover.
  destruct (for_each_aborts (E:=effect) (λ f, f = Raised OverflowError)
    groups
    (λ entry '(gname, alt_poi),
       if bool_decide (gname = "Base") then mret entry
       else impact ← sub_quad_errs base_poi alt_poi;
            mret (dict_set entry gname impact)))
    with (s := ([] : dict (float * float))) as (f & -> & Hres); [| |done].
  - intros entry x _. apply (compute_impacts_group_step base_poi entry x).
  - exists (gname, alt_poi). split; [done|]. intros entry.
    exists (Raised OverflowError). split; [done|].
    rewrite bool_decide_false, result_bind by done.
    by rewrite sub_quad_errs_overflow.
Qed.

(** [compute_impacts] on well-formed data of which no square overflows
    returns, with the impacts and the warnings of each POI in turn. *)
Lemma compute_impacts_closed (poi_data : dict (dict POI)) :
  well_formed poi_data → squares_fine poi_data →
  compute_impacts poi_data
  = Run (keys poi_data ≫= λ pname,
           group_warnings (base_of (groups_of poi_data pname))
             (groups_of poi_data pname))
        (Return (foldl (λ impacts pname,
                   dict_set impacts pname
                     (group_impacts (base_of (groups_of poi_data pname))
                        (groups_of poi_data pname)))
                   [] (keys poi_data))).
Proof.
  intros Hwf Hfine. unfold compute_impacts.
  apply (for_each_returns
    (λ pname, group_warnings (base_of (groups_of poi_data pname))
                (groups_of poi_data pname))
    (λ impacts pname,
       dict_set impacts pname
         (group_impacts (base_of (groups_of poi_data pname))
            (groups_of poi_data pname)))).
  intros impacts pname [groups Hgroups]%dict_lookup_is_Some.
  destruct (Hwf pname groups Hgroups) as [Hnd [base Hbase]].
  unfold groups_of, base_of. rewrite Hgroups. simpl. rewrite Hbase. simpl.
  rewrite (dict_get_Some _ _ groups), mret_bind by done.
  rewrite (dict_get_Some _ _ base), mret_bind by done.
  rewrite compute_impacts_groups, bind_Run_Return.
  - simpl. by rewrite app_nil_r.
  - intros gname alt_poi Hin Hne.
    apply (Hfine pname groups base gname alt_poi); [done..| |done].
    by apply dict_lookup_wf.
Qed.

(** A square that overflows makes [compute_impacts] raise. *)
Lemma compute_impacts_overflow (poi_data : dict (dict POI)) pname groups
    base_poi gname alt_poi :
  well_formed poi_data →
  dict_lookup poi_data pname = Some groups →
  dict_lookup groups "Base" = Some base_poi →
  dict_lookup groups gname = Some alt_poi → gname ≠ "Base" →
  quad_overflows base_poi alt_poi = true →
  result (compute_impacts poi_data) = Raise OverflowError.
Proof.
  intros Hwf Hgroups Hbase Halt Hne Hover.
  assert (∃ f, f = Raised OverflowError ∧
               result (compute_impacts poi_data) = Abort f)
    as (f & -> & Hres); [|exact Hres].
  unfold compute_impacts. apply for_each_aborts.
  - intros impacts pname' [groups' Hgroups']%dict_lookup_is_Some.
    destruct (Hwf pname' groups' Hgroups') as [_ [base' Hbase']].
    rewrite (dict_get_Some _ _ groups'), mret_bind by done.
    rewrite (dict_get_Some _ _ base'), mret_bind by done.
    rewrite result_bind.
    destruct (for_each_returns_or_aborts (E:=effect)
      (λ f, f = Raised OverflowError) groups'
      (λ entry '(gname, alt_poi),
         if bool_decide (gname = "Base") then mret entry
         else impact ← sub_quad_errs base' alt_poi;
              mret (dict_set entry gname impact)))
      with (s := ([] : dict (float * float)))
      as [[entry ->]|(f & -> & ->)]; [|by eauto..].
    intros entry x _. apply (compute_impacts_group_step base' entry x).
  - exists pname. split; [apply dict_lookup_is_Some; by rewrite Hgroups|].
    intros impacts. exists (Raised OverflowError). split; [done|].
    rewrite (dict_get_Some _ _ groups), mret_bind by done.
    rewrite (dict_get_Some _ _ base_poi), mret_bind by done.
    rewrite result_bind.
    rewrite (compute_impacts_groups_overflow base_poi groups gname alt_poi);
      [done| |done..].
    by apply dict_lookup_Some_elem_of.
Qed.

(** [compute_impacts] returns only when no square overflows. *)
Lemma compute_impacts_returns_fine (poi_data : dict (dict POI)) impacts :
  well_formed poi_data →
  result (compute_impacts poi_data) = Return impacts →
  squares_fine poi_data.
Proof.
  intros Hwf Hret pname groups base_poi gname alt_poi Hgroups Hbase Halt Hne.
  destruct (quad_overflows base_poi alt_poi) eqn:Hover; [|done].
  rewrite (compute_impacts_overflow poi_data pname groups base_poi gname
             alt_poi) in Hret by done.
  discriminate.
Qed.



End Impacts.

Section ImpactClaim.
Import Py SystBreakdown Spec Closed.


End ImpactClaim.

(** Data of one POI and two groups is well formed. *)
Lemma well_formed_one_poi (pname gname : string) (base alt : SystBreakdown.POI) :
  gname ≠ "Base" →
  Spec.well_formed [(pname, [("Base", base); (gname, alt)])].
Proof.
  intros Hne pname' groups. cbn [Py.dict_lookup].
  case_bool_decide as Heq; [|done]. intros [= <-]. split.
  - unfold Py.dict_wf, Py.keys. cbn [fmap list_fmap fst].
    apply NoDup_cons. split; [|apply NoDup_singleton].
    apply not_elem_of_cons. split; [congruence|apply not_elem_of_nil].
  - by eexists.
Qed.

(** In data of one POI and two groups, the squares [compute_impacts] takes
    are those of the one pair. *)
Lemma squares_fine_one_poi (pname gname : string)
    (base alt : SystBreakdown.POI) :
  gname ≠ "Base" →
  Closed.quad_overflows base alt = false →
  Closed.squares_fine [(pname, [("Base", base); (gname, alt)])].
Proof.
  intros Hne Hfine pname' groups base' gname' alt'. cbn [Py.dict_lookup].
  case_bool_decide as Heq; [|done]. intros [= <-]. cbn [Py.dict_lookup].
  rewrite bool_decide_true by done. intros [= <-].
  case_bool_decide as Hbase; [done|].
  case_bool_decide as Hg; [|done]. by intros [= <-].
Qed.



(** ** syst_breakdown.py: the consistency check *)
Section ConsistencyCheck.
Import Py SystBreakdown Spec Closed.

Lemma bind_nil_const {X Y} (xs : list X) :
  xs ≫= (λ _, [] : list Y) = [].
Proof. induction xs as [|x xs IH]; [done|]. by rewrite bind_cons, IH. Qed.

(** The inner loop for a POI whose reference scale is not a zero: every
    division succeeds. *)
Lemma check_groups_nonzero tolerance pname (base_poi : POI)
    (groups : dict POI) :
  (base_scale base_poi =? 0)%float = false →
  for_each groups (λ _ '(gname, alt_poi),
    if bool_decide (gname = "Base") then mret ()
    else
      ratio ← float_div (abs (value base_poi - value alt_poi))
                        (base_scale base_poi);
      if (tolerance <? ratio)%float
      then emit (Log WARNING (ValuesDiffer pname gname tolerance))
      else mret ()) ()
  = Run (group_flags tolerance pname base_poi groups) (Return ()).
Proof.
  intros Hscale. unfold group_flags. etrans.
  - apply (for_each_returns
      (λ '(gname, alt_poi),
         if bool_decide (gname = "Base") then []
         else if exceeds tolerance base_poi alt_poi
              then [Log WARNING (ValuesDiffer pname gname tolerance)]
              else [])
      (λ _ _, ())).
    intros [] [gname alt_poi] _. case_bool_decide; [done|].
    unfold float_div, exceeds, deviation. rewrite Hscale, mret_bind.
    by destruct (_ <? _)%float.
  - by destruct (foldl _ _ _).
Qed.

(** The inner loop for a POI whose reference scale is a zero: the first
    group besides [Base] is a division by zero. *)
Lemma check_groups_zero tolerance pname (base_poi : POI)
    (groups : dict POI) :
  (base_scale base_poi =? 0)%float = true →
  for_each (E:=effect) groups (λ _ '(gname, alt_poi),
    if bool_decide (gname = "Base") then mret ()
    else
      ratio ← float_div (abs (value base_poi - value alt_poi))
                        (base_scale base_poi);
      if (tolerance <? ratio)%float
      then emit (Log WARNING (ValuesDiffer pname gname tolerance))
      else mret ()) ()
  = if bool_decide (Exists (λ gname, gname ≠ "Base") (keys groups))
    then Run [] (Raise ZeroDivisionError)
    else Run [] (Return ()).
Proof.
  intros Hscale. unfold keys.
  induction groups as [|[gname alt_poi] groups IH]; [done|].
  cbn [for_each]. rewrite fmap_cons. cbn [fst].
  destruct (decide (gname = "Base")) as [Hbase|Hbase].
  - rewrite (bool_decide_true (gname = "Base")) by done.
    rewrite mret_bind, IH.
    rewrite (bool_decide_ext _ (Exists (λ gname, gname ≠ "Base")
                                  (gname :: groups.*1))); [done|].
    rewrite Exists_cons. split; [by right|]. by intros [?|?].
  - rewrite (bool_decide_false (gname = "Base")) by done.
    unfold float_div. rewrite Hscale.
    by rewrite bool_decide_true by by left.
Qed.

Lemma group_flags_alone tolerance pname (base_poi : POI)
    (groups : dict POI) :
  ¬ Exists (λ gname, gname ≠ "Base") (keys groups) →
  group_flags tolerance pname base_poi groups = [].
Proof.
  unfold group_flags, keys.
  induction groups as [|[gname alt_poi] groups IH]; [done|].
  rewrite fmap_cons, Exists_cons, bind_cons. cbn [fst]. intros Hnone.
  rewrite IH by tauto. case_bool_decide; [done|]. tauto.
Qed.

(** [check_fit_results] on well-formed data: it divides by zero at the
    first POI whose reference scale is a zero and that has a group
    besides [Base], having logged the flags of the POIs before it; and
    without such a POI it returns, having logged the flags of each POI in
    turn. *)
Lemma check_fit_results_closed (poi_data : dict (dict POI)) tolerance :
  well_formed poi_data →
  check_fit_results poi_data tolerance
  = match list_find
            (λ pname, divides_by_zero (groups_of poi_data pname) = true)
            (keys poi_data) with
    | Some (i, _) =>
        Run (firstn i (keys poi_data) ≫= poi_flags tolerance poi_data)
            (Raise ZeroDivisionError)
    | None =>
        Run (keys poi_data ≫= poi_flags tolerance poi_data) (Return ())
    end.
Proof.
  intros Hwf. unfold check_fit_results. etrans.
  - apply (for_each_until
      (λ pname, divides_by_zero (groups_of poi_data pname))
      (poi_flags tolerance poi_data) (Raised ZeroDivisionError)
      (λ _ _, ())).
    intros [] pname [groups Hgroups]%dict_lookup_is_Some.
    destruct (Hwf pname groups Hgroups) as [_ [base Hbase]].
    unfold poi_flags, divides_by_zero, groups_of, base_of.
    rewrite Hgroups. simpl. rewrite Hbase. simpl.
    rewrite (dict_get_Some _ _ groups), mret_bind by done.
    rewrite (dict_get_Some _ _ base), mret_bind by done. cbv zeta.
    change ((abs (err base).1 + abs (err base).2) / 2)%float
      with (base_scale base).
    destruct (base_scale base =? 0)%float eqn:Hscale; cbn [andb].
    + rewrite check_groups_zero by done.
      destruct (decide (Exists (λ gname, gname ≠ "Base") (keys groups)))
        as [Halt|Halone].
      * by rewrite !bool_decide_true by done.
      * rewrite !bool_decide_false by done.
        by rewrite group_flags_alone.
    + by rewrite check_groups_nonzero.
  - destruct (list_find _ _) as [[i pname]|] eqn:Hfind.
    + apply list_find_Some in Hfind as (_ & Hhalt & _).
      unfold poi_flags at 2. by rewrite Hhalt, app_nil_r.
    + by destruct (foldl _ _ _).
Qed.

(** How the check ends. *)
Lemma check_fit_results_result (poi_data : dict (dict POI)) tolerance :
  well_formed poi_data →
  ((∀ pname, pname ∈ keys poi_data →
      divides_by_zero (groups_of poi_data pname) = false) ∧
   result (check_fit_results poi_data tolerance) = Return ()) ∨
  ((∃ pname, pname ∈ keys poi_data ∧
      divides_by_zero (groups_of poi_data pname) = true) ∧
   result (check_fit_results poi_data tolerance) = Raise ZeroDivisionError).
Proof.
  intros Hwf. rewrite (check_fit_results_closed poi_data tolerance Hwf).
  destruct (list_find _ _) as [[i pname]|] eqn:Hfind.
  - right. apply list_find_Some in Hfind as (Hi & Hhalt & _).
    split; [|done]. exists pname. split; [|done].
    by eapply list_elem_of_lookup_2.
  - left. split; [|done]. intros pname Hin.
    apply list_find_None in Hfind.
    apply (Forall_forall _ (keys poi_data)) with (x := pname) in Hfind;
      [|done].
    by destruct (divides_by_zero (groups_of poi_data pname)).
Qed.





(** Two errors equal to zero give a reference scale equal to zero. *)
Lemma base_scale_zero (base_poi : POI) :
  ((err base_poi).1 =? 0)%float = true →
  ((err base_poi).2 =? 0)%float = true →
  (base_scale base_poi =? 0)%float = true.
Proof.
  unfold base_scale.
  by intros [-> | ->]%eqb_zero_cases [-> | ->]%eqb_zero_cases.
Qed.

(** A POI whose reference scale is a zero and that has a group besides
    [Base] makes the check divide by zero. *)
Lemma check_fit_results_divides (poi_data : dict (dict POI)) tolerance
    pname groups base_poi gname :
  well_formed poi_data →
  dict_lookup poi_data pname = Some groups →
  dict_lookup groups "Base" = Some base_poi →
  (base_scale base_poi =? 0)%float = true →
  gname ∈ keys groups → gname ≠ "Base" →
  result (check_fit_results poi_data tolerance) = Raise ZeroDivisionError.
Proof.
  intros Hwf Hgroups Hbase Hzero Hin Hne.
  destruct (check_fit_results_result poi_data tolerance Hwf)
    as [[Hnone _]|[_ Hres]]; [|done].
  assert (pname ∈ keys poi_data) as Hp.
  { apply dict_lookup_is_Some. by rewrite Hgroups. }
  specialize (Hnone pname Hp). revert Hnone.
  unfold divides_by_zero, groups_of, base_of.
  rewrite Hgroups. simpl. rewrite Hbase. simpl. rewrite Hzero.
  rewrite bool_decide_true; [done|].
  apply Exists_exists. by exists gname.
Qed.

(** C9. On well-formed POI data in which some POI has a baseline with both
    errors equal to zero and a group other than [Base],
    [check_fit_results] does not return: the division by the zero
    reference scale raises [ZeroDivisionError]. *)
Theorem check_fit_results_zero_scale (poi_data : dict (dict POI)) tolerance
    pname groups base gname alt :
  well_formed poi_data →
  dict_lookup poi_data pname = Some groups →
  dict_lookup groups "Base" = Some base →
  ((err base).1 =? 0)%float = true →
  ((err base).2 =? 0)%float = true →
  dict_lookup groups gname = Some alt →
  gname ≠ "Base" →
  result (check_fit_results poi_data tolerance) = Raise ZeroDivisionError.
Proof.
  intros Hwf Hgroups Hbase Hlow Hhigh Halt Hne.
  apply (check_fit_results_divides poi_data tolerance pname groups base
           gname); [done..| | |done].
  - by apply base_scale_zero.
  - apply dict_lookup_is_Some. by rewrite Halt.
Qed.

End ConsistencyCheck.


(** A POI held constant in the baseline fit: both errors are zero. *)
Lemma check_fit_results_zero_scale_witness :
  Py.result (SystBreakdown.check_fit_results Examples.constant_poi_data 0.5)
  = Py.Raise Py.ZeroDivisionError.
Proof.
  apply (check_fit_results_zero_scale Examples.constant_poi_data 0.5
           "mu_x" [("Base", Examples.constant_base);
                   ("sysA", Examples.constant_alt)]
           Examples.constant_base "sysA" Examples.constant_alt).
  - by apply well_formed_one_poi.
  - reflexivity.
  - reflexivity.
  - reflexivity.
  - reflexivity.
  - reflexivity.
  - done.
Defined.

(** ** syst_breakdown.py: loading the POI data *)
Section LoadGroup.
Import Py SystBreakdown Spec.

Lemma keys_load_group_from (all_vars : list variable) poi_list
    (acc : dict POI) (k : string) :
  k ∈ keys (foldl (λ pois var,
      let name := var_name var in
      let isMU := startswith "mu_" name in
      if negb isMU then pois
      else if negb (bool_decide (poi_list = []))
              && negb (bool_decide (name ∈ poi_list)) then pois
      else dict_set pois name
             (POI_init name (var_value var) (var_err_low var)
                (var_err_high var))) acc all_vars)
  ↔ k ∈ keys acc ∨ k ∈ poi_names poi_list all_vars.
Proof.
  unfold poi_names. revert acc.
  induction all_vars as [|var all_vars IH]; intros acc.
  { simpl. rewrite filter_nil, elem_of_nil. tauto. }
  cbn [foldl]. rewrite IH, fmap_cons. clear IH.
  destruct (decide (is_poi poi_list (var_name var))) as [Hpoi|Hpoi].
  - rewrite filter_cons_True by done. rewrite elem_of_cons.
    destruct Hpoi as [Hmu Hlist]. apply Is_true_true in Hmu. rewrite Hmu.
    cbn [negb].
    assert (negb (bool_decide (poi_list = []))
            && negb (bool_decide (var_name var ∈ poi_list)) = false) as ->.
    { destruct Hlist as [Hnil|Hin].
      - by rewrite (bool_decide_true _ Hnil).
      - rewrite (bool_decide_true _ Hin). apply andb_false_r. }
    rewrite keys_dict_set. tauto.
  - rewrite filter_cons_False by done.
    destruct (startswith "mu_" (var_name var)) eqn:Hmu; cbn [negb]; [|done].
    assert (negb (bool_decide (poi_list = []))
            && negb (bool_decide (var_name var ∈ poi_list)) = true) as ->;
      [|done].
    apply andb_true_iff. split; apply negb_true_iff, bool_decide_eq_false;
      intros H; apply Hpoi; (split; [by apply Is_true_true|]); auto.
Qed.

(** The POIs [load_poi_data] finds in one container are those of the
    specification. *)
Lemma keys_load_group (all_vars : list variable) poi_list (k : string) :
  k ∈ keys (load_group all_vars poi_list) ↔ k ∈ poi_names poi_list all_vars.
Proof.
  unfold load_group. rewrite keys_load_group_from.
  unfold keys. rewrite fmap_nil, elem_of_nil. tauto.
Qed.

Lemma load_group_nil (all_vars : list variable) poi_list :
  load_group all_vars poi_list = [] ↔ poi_names poi_list all_vars = [].
Proof.
  rewrite <-keys_nil. split; intros Hnil; apply elem_of_nil_inv; intros k Hk.
  - apply keys_load_group in Hk. rewrite Hnil in Hk. by apply elem_of_nil in Hk.
  - apply keys_load_group in Hk. rewrite Hnil in Hk. by apply elem_of_nil in Hk.
Qed.

End LoadGroup.

Section Loading.
Import Py SystBreakdown Spec.
Context (glob : string → list string).
Context (read_vars : string → string → string → list variable).

(** The loop over the files: it exits at the first container that yields
    no POI, and otherwise fills [tmp]. *)
Lemma load_files_loop (fnames : dict string) wsname ssname poi_list :
  for_each (E:=effect) fnames (λ tmp '(gname, fname),
    let all_vars := read_vars fname wsname ssname in
    let pois := load_group all_vars poi_list in
    let tmp := dict_set tmp gname pois in
    if bool_decide (pois = []) then
      emit (Log ERROR (NoMatchingPOIs fname));; sys_exit 1
    else mret tmp) []
  = match list_find
            (λ x, load_group (read_vars x.2 wsname ssname) poi_list = [])
            fnames with
    | Some (_, x) => Run [Log ERROR (NoMatchingPOIs x.2)] (SysExit 1)
    | None =>
        Run [] (Return (foldl (λ tmp '(gname, fname),
                  if false then tmp
                  else dict_set tmp gname
                         (load_group (read_vars fname wsname ssname)
                            poi_list))
                  [] fnames))
    end.
Proof using Type.
  apply (for_each_first_abort
    (λ x, load_group (read_vars x.2 wsname ssname) poi_list = [])
    (λ x, [Log ERROR (NoMatchingPOIs x.2)])).
  intros tmp [gname fname] _. cbn [snd].
  case_bool_decide as Hnil.
  - by rewrite decide_True.
  - by rewrite decide_False.
Qed.

(** The fatal condition of [load_poi_data]. *)
Lemma load_poi_data_exit (fnames : dict string) wsname ssname poi_list
    gname fname :
  (gname, fname) ∈ fnames →
  poi_names poi_list (read_vars fname wsname ssname) = [] →
  ∃ fname',
    poi_names poi_list (read_vars fname' wsname ssname) = [] ∧
    load_poi_data read_vars fnames wsname ssname poi_list
    = Run [Log ERROR (NoMatchingPOIs fname')] (SysExit 1).
Proof using Type.
  intros Hin Hnil. unfold load_poi_data. rewrite load_files_loop.
  destruct (list_find _ fnames) as [[i [g' f']]|] eqn:Hfind.
  - apply list_find_Some in Hfind as (_ & Hbad & _). cbn [snd] in *.
    exists f'. split; [by apply load_group_nil|done].
  - apply list_find_None in Hfind.
    apply (Forall_forall _ fnames) with (x := (gname, fname)) in Hfind;
      [|done].
    destruct Hfind. by apply load_group_nil.
Qed.

Lemma group_name_of_trace base ext alt_fname :
  trace (group_name_of base ext alt_fname) = [].
Proof using Type.
  unfold group_name_of, split_sep, index_list.
  destruct (base +:+ "_"); [done|]. rewrite mret_bind.
  destruct (_ !! 1); [|done]. rewrite mret_bind.
  destruct ext; [done|]. rewrite mret_bind.
  by destruct (_ !! 0).
Qed.

(** [get_fnames] logs and prints nothing. *)
Lemma get_fnames_trace fname : trace (get_fnames glob fname) = [].
Proof using Type.
  unfold get_fnames. destruct (splitext fname) as [base ext].
  apply for_each_trace_nil. intros fnames alt_fname.
  rewrite trace_bind, group_name_of_trace.
  by destruct (result (group_name_of base ext alt_fname)).
Qed.

(** C4. If any container of the run, the baseline's or a discovered
    group's, yields no variable that passes the POI filter (the [mu_]
    prefix and, when given, the allow-list), then [load_poi_data] ends the
    run with exit code 1, and so does [main]: all it has logged or printed
    by then is the error record that names such a container; no impact is
    computed and no line of the report is printed. *)
Theorem load_poi_data_empty_container (args : arguments)
    (fnames : dict string) (gname fname : string) :
  result (get_fnames glob (input args)) = Return fnames →
  (gname, fname) ∈ fnames →
  poi_names (poi_list_of (poi args)) (read_vars fname (ws args) (ss args))
  = [] →
  ∃ fname',
    poi_names (poi_list_of (poi args))
      (read_vars fname' (ws args) (ss args)) = [] ∧
    load_poi_data read_vars fnames (ws args) (ss args)
      (poi_list_of (poi args))
    = Run [Log ERROR (NoMatchingPOIs fname')] (SysExit 1) ∧
    main glob read_vars args
    = Run [Log ERROR (NoMatchingPOIs fname')] (SysExit 1).
Proof using Type.
  intros Hfnames Hin Hnil.
  destruct (load_poi_data_exit fnames (ws args) (ss args)
              (poi_list_of (poi args)) gname fname Hin Hnil)
    as (fname' & Hnil' & Hload).
  exists fname'. split; [done|]. split; [done|].
  unfold main. pose proof (get_fnames_trace (input args)) as Htrace.
  destruct (get_fnames glob (input args)) as [t r]. cbn in Hfnames, Htrace.
  subst t r. rewrite bind_Run_Return. cbn zeta. by rewrite Hload.
Qed.

End Loading.

(** The container of the group [sysB] yields no POI. *)
Lemma load_poi_data_empty_container_witness :
  ∃ fname',
    Spec.poi_names (SystBreakdown.poi_list_of "")
      (Examples.three_containers fname' "combWS" "quickfit") = [] ∧
    SystBreakdown.load_poi_data Examples.three_containers
      Examples.three_fnames "combWS" "quickfit" (SystBreakdown.poi_list_of "")
    = Py.Run [Py.Log Py.ERROR (SystBreakdown.NoMatchingPOIs fname')]
        (Py.SysExit 1) ∧
    SystBreakdown.main Examples.three_files_glob Examples.three_containers
      Examples.fit_arguments
    = Py.Run [Py.Log Py.ERROR (SystBreakdown.NoMatchingPOIs fname')]
        (Py.SysExit 1).
Proof.
  apply (load_poi_data_empty_container Examples.three_files_glob
           Examples.three_containers Examples.fit_arguments
           Examples.three_fnames "sysB" "fit_sysB.root").
  - reflexivity.
  - unfold Examples.three_fnames. do 2 right. left.
  - reflexivity.
Defined.

(** ** syst_breakdown.py: restructuring the POI data *)
Section Restructure.
Import Py SystBreakdown Spec.
Context (read_vars : string → string → string → list variable).

(** [tmp] after the loop over the files holds, under each group, the POIs
    of its container. *)
Lemma load_files_lookup (fnames : dict string) wsname ssname poi_list
    gname fname :
  dict_wf fnames → dict_lookup fnames gname = Some fname →
  dict_lookup
    (foldl (λ tmp '(gname, fname),
       if false then tmp
       else dict_set tmp gname
              (load_group (read_vars fname wsname ssname) poi_list))
       [] fnames) gname
  = Some (load_group (read_vars fname wsname ssname) poi_list).
Proof using Type.
  intros Hwf Hlook.
  by apply (lookup_foldl_items (λ _, false)
              (λ fname, load_group (read_vars fname wsname ssname) poi_list)).
Qed.

Lemma load_files_lookup_None (fnames : dict string) wsname ssname poi_list
    gname :
  dict_lookup fnames gname = None →
  dict_lookup
    (foldl (λ tmp '(gname, fname),
       if false then tmp
       else dict_set tmp gname
              (load_group (read_vars fname wsname ssname) poi_list))
       [] fnames) gname
  = None.
Proof using Type.
  intros Hnone%dict_lookup_None.
  by rewrite (lookup_foldl_items_frame (λ _, false)
                (λ fname, load_group (read_vars fname wsname ssname) poi_list)).
Qed.

(** One step of the inner restructuring loop returns, or raises a
    [KeyError]. *)
Lemma restructure_step (tmp : dict (dict POI)) (pname : string)
    (groups : dict POI) (gname : string) :
  is_Some (dict_lookup tmp gname) →
  (∃ groups',
     result (pois ← dict_get (E:=effect) tmp gname;
             poi ← dict_get pois pname;
             mret (dict_set groups gname poi)) = Return groups') ∨
  (∃ f, (∃ key, f = Raised (KeyError key)) ∧
     result (pois ← dict_get (E:=effect) tmp gname;
             poi ← dict_get pois pname;
             mret (dict_set groups gname poi)) = Abort f).
Proof using Type.
  intros [pois Hpois]. rewrite (dict_get_Some _ _ pois), mret_bind by done.
  destruct (dict_lookup pois pname) as [poi|] eqn:Hpoi.
  - left. rewrite (dict_get_Some _ _ poi), mret_bind by done. by eauto.
  - right. rewrite dict_get_None by done. by eauto.
Qed.

(** When every container yields a POI, a POI of the baseline that some
    group's container lacks is a [KeyError]. *)
Lemma load_poi_data_key_error (fnames : dict string) wsname ssname poi_list
    base_fname gname fname pname :
  dict_wf fnames →
  (∀ g f, (g, f) ∈ fnames → poi_names poi_list (read_vars f wsname ssname) ≠ []) →
  dict_lookup fnames "Base" = Some base_fname →
  (gname, fname) ∈ fnames →
  pname ∈ poi_names poi_list (read_vars base_fname wsname ssname) →
  pname ∉ poi_names poi_list (read_vars fname wsname ssname) →
  ∃ key, result (load_poi_data read_vars fnames wsname ssname poi_list)
         = Raise (KeyError key).
Proof using Type.
  intros Hwf Hfull Hbase Hin Hp Hnp.
  unfold load_poi_data. rewrite load_files_loop.
  destruct (list_find _ fnames) as [[i [g' f']]|] eqn:Hfind.
  { apply list_find_Some in Hfind as (Hi%list_elem_of_lookup_2 & Hbad & _).
    cbn [snd] in Hbad. apply load_group_nil in Hbad.
    by destruct (Hfull g' f'). }
  clear Hfind. rewrite bind_Run_Return. cbn [trace result app].
  match goal with
  | |- context [foldl ?step [] fnames] => set (tmp := foldl step [] fnames)
  end.
  assert (∀ g f, dict_lookup fnames g = Some f →
            dict_lookup tmp g
            = Some (load_group (read_vars f wsname ssname) poi_list))
    as Htmp.
  { intros g f Hg. by apply load_files_lookup. }
  assert (∀ g, g ∈ keys fnames → is_Some (dict_lookup tmp g)) as Hkeys.
  { intros g [f Hg]%dict_lookup_is_Some. rewrite (Htmp g f Hg). by eauto. }
  rewrite (dict_get_Some _ _ _ (Htmp _ _ Hbase)), mret_bind.
  assert (∃ f, (∃ key, f = Raised (KeyError key)) ∧
            result (for_each (E:=effect)
              (keys (load_group (read_vars base_fname wsname ssname)
                       poi_list))
              (λ poi_data pname,
                 groups ← for_each (keys fnames) (λ groups gname,
                   pois ← dict_get tmp gname;
                   poi ← dict_get pois pname;
                   mret (dict_set groups gname poi)) [];
                 mret (dict_set poi_data pname groups)) []) = Abort f)
    as (f & [key ->] & Hres); [|by eauto].
  apply for_each_aborts.
  - intros poi_data pname' _. rewrite result_bind.
    destruct (for_each_returns_or_aborts (E:=effect)
                (λ f, ∃ key, f = Raised (KeyError key)) (keys fnames)
                (λ groups gname,
                   pois ← dict_get tmp gname;
                   poi ← dict_get pois pname';
                   mret (dict_set groups gname poi))) with (s := ([] : dict POI))
      as [[groups ->]|(f & Hf & ->)]; [|by eauto..].
    intros groups g Hg. apply restructure_step. by apply Hkeys.
  - exists pname. split; [by apply keys_load_group|].
    intros poi_data. rewrite result_bind.
    destruct (for_each_aborts (E:=effect)
                (λ f, ∃ key, f = Raised (KeyError key)) (keys fnames)
                (λ groups gname,
                   pois ← dict_get tmp gname;
                   poi ← dict_get pois pname;
                   mret (dict_set groups gname poi))) with (s := ([] : dict POI))
      as (f & Hf & ->); [| |by eauto].
    + intros groups g Hg. apply restructure_step. by apply Hkeys.
    + exists gname. split.
      { apply dict_lookup_is_Some.
        rewrite (dict_lookup_wf fnames gname fname); by eauto. }
      intros groups. exists (Raised (KeyError pname)). split; [by eauto|].
      rewrite (dict_get_Some _ _ _
                 (Htmp _ _ (dict_lookup_wf _ _ _ Hwf Hin))), mret_bind.
      rewrite dict_get_None; [done|].
      apply dict_lookup_None. by rewrite keys_load_group.
Qed.

Lemma load_poi_data_no_base (fnames : dict string) wsname ssname poi_list :
  (∀ g f, (g, f) ∈ fnames → poi_names poi_list (read_vars f wsname ssname) ≠ []) →
  dict_lookup fnames "Base" = None →
  result (load_poi_data read_vars fnames wsname ssname poi_list)
  = Raise (KeyError "Base").
Proof using Type.
  intros Hfull Hbase. unfold load_poi_data. rewrite load_files_loop.
  destruct (list_find _ fnames) as [[i [g' f']]|] eqn:Hfind.
  { apply list_find_Some in Hfind as (Hi%list_elem_of_lookup_2 & Hbad & _).
    cbn [snd] in Hbad. apply load_group_nil in Hbad.
    by destruct (Hfull g' f'). }
  rewrite bind_Run_Return, dict_get_None; [done|].
  by apply load_files_lookup_None.
Qed.

(** C10, as the code has it.  For a dictionary of file names (each group
    once): if every container yields at least one POI and some group's
    container lacks a POI name found in the baseline's container, then
    [load_poi_data] raises a [KeyError] in the restructuring step; and
    [load_poi_data] returns only when the POI names of every group's
    container include all those of the baseline's container. *)
Theorem load_poi_data_needs_every_poi (fnames : dict string) wsname ssname
    poi_list :
  dict_wf fnames →
  (∀ base_fname gname fname pname,
     (∀ g f, (g, f) ∈ fnames →
        poi_names poi_list (read_vars f wsname ssname) ≠ []) →
     dict_lookup fnames "Base" = Some base_fname →
     (gname, fname) ∈ fnames →
     pname ∈ poi_names poi_list (read_vars base_fname wsname ssname) →
     pname ∉ poi_names poi_list (read_vars fname wsname ssname) →
     ∃ key, result (load_poi_data read_vars fnames wsname ssname poi_list)
            = Raise (KeyError key)) ∧
  (∀ poi_data,
     result (load_poi_data read_vars fnames wsname ssname poi_list)
     = Return poi_data →
     ∃ base_fname,
       dict_lookup fnames "Base" = Some base_fname ∧
       ∀ gname fname pname,
         (gname, fname) ∈ fnames →
         pname ∈ poi_names poi_list (read_vars base_fname wsname ssname) →
         pname ∈ poi_names poi_list (read_vars fname wsname ssname)).
Proof using Type.
  intros Hwf. split.
  { intros base_fname gname fname pname Hfull Hbase Hin Hp Hnp.
    by eapply load_poi_data_key_error. }
  intros poi_data Hret.
  assert (∀ g f, (g, f) ∈ fnames →
            poi_names poi_list (read_vars f wsname ssname) ≠ []) as Hfull.
  { intros g f Hgf Hnil.
    destruct (load_poi_data_exit read_vars fnames wsname ssname poi_list
                g f Hgf Hnil) as (f' & _ & Hload).
    rewrite Hload in Hret. discriminate. }
  destruct (dict_lookup fnames "Base") as [base_fname|] eqn:Hbase.
  2:{ rewrite load_poi_data_no_base in Hret by done. discriminate. }
  exists base_fname. split; [done|]. intros gname fname pname Hin Hp.
  destruct (decide (pname ∈ poi_names poi_list
                              (read_vars fname wsname ssname)))
    as [|Hnp]; [done|].
  destruct (load_poi_data_key_error fnames wsname ssname poi_list
              base_fname gname fname pname Hwf Hfull Hbase Hin Hp Hnp)
    as [key Hkey].
  rewrite Hkey in Hret. discriminate.
Qed.

(** The data [load_poi_data] returns is well formed: every POI holds each
    group once, the baseline among them. *)
Lemma load_poi_data_well_formed (fnames : dict string) wsname ssname
    poi_list poi_data :
  "Base" ∈ keys fnames →
  result (load_poi_data read_vars fnames wsname ssname poi_list)
  = Return poi_data →
  well_formed poi_data.
Proof using Type.
  intros Hbase. unfold load_poi_data. rewrite result_bind.
  destruct (result (for_each _ _ _)) as [tmp|]; [|done].
  rewrite result_bind. destruct (result (dict_get tmp "Base")) as [base|];
    [|done].
  intros Hret.
  apply (for_each_invariant (E:=effect) (λ _ poi_data, well_formed poi_data))
    with (visited := []) in Hret; [done| |done].
  clear Hret. intros _ pname pd pd' Hpd. rewrite result_bind.
  destruct (result (for_each _ _ _)) as [groups|] eqn:Hgroups; [|done].
  intros [= <-].
  apply (for_each_invariant (E:=effect)
           (λ visited groups,
              dict_wf groups ∧
              ∀ g, g ∈ visited → is_Some (dict_lookup groups g)))
    with (visited := []) in Hgroups.
  - destruct Hgroups as [Hwf Hall]. intros p gs.
    rewrite dict_lookup_set. case_bool_decide; [|by apply Hpd].
    intros [= <-]. split; [done|]. by apply Hall.
  - clear Hgroups. intros visited g gs gs' [Hwf Hall]. rewrite result_bind.
    destruct (result (dict_get tmp g)) as [pois|]; [|done].
    rewrite result_bind.
    destruct (result (dict_get pois pname)) as [poi|]; [|done].
    intros [= <-]. split; [by apply dict_set_wf|].
    intros g' Hg'. rewrite dict_lookup_set.
    case_bool_decide as Hg; [by eauto|].
    apply Hall. apply elem_of_app in Hg' as [?|Hg']; [done|].
    apply list_elem_of_singleton in Hg'. congruence.
  - split; [apply NoDup_nil_2|]. intros g Hg. by apply elem_of_nil in Hg.
Qed.

End Restructure.

(** Counterexample to C10 as stated, when another container yields no
    POI: the group [sysA] yields the POI [mu_b] and lacks the baseline's
    [mu_a], but the empty container of [sysB] ends the run through
    [sys.exit(1)] before the restructuring step is reached. *)
Lemma load_poi_data_exits_before_key_error :
  Spec.poi_names [] (Examples.three_containers "fit.root" "combWS" "quickfit")
  = ["mu_a"] ∧
  Spec.poi_names []
    (Examples.three_containers "fit_sysA.root" "combWS" "quickfit")
  = ["mu_b"] ∧
  SystBreakdown.load_poi_data Examples.three_containers
    Examples.three_fnames "combWS" "quickfit" []
  = Py.Run [Py.Log Py.ERROR (SystBreakdown.NoMatchingPOIs "fit_sysB.root")]
      (Py.SysExit 1).
Proof. split; [reflexivity|]. split; reflexivity. Qed.

(** A baseline with the POI [mu_a] and one group whose container has only
    [mu_b]: both containers yield a POI, and the restructuring step raises. *)
Lemma load_poi_data_needs_every_poi_witness :
  ∃ key,
    Py.result
      (SystBreakdown.load_poi_data Examples.three_containers
         [("Base", "fit.root"); ("sysA", "fit_sysA.root")]
         "combWS" "quickfit" [])
    = Py.Raise (Py.KeyError key).
Proof.
  assert (Spec.poi_names []
            (Examples.three_containers "fit.root" "combWS" "quickfit")
          = ["mu_a"]) as Hbase by reflexivity.
  assert (Spec.poi_names []
            (Examples.three_containers "fit_sysA.root" "combWS" "quickfit")
          = ["mu_b"]) as Halt by reflexivity.
  assert (Py.dict_wf [("Base", "fit.root"); ("sysA", "fit_sysA.root")])
    as Hwf.
  { unfold Py.dict_wf, Py.keys. cbn [fmap list_fmap fst]. compute_done. }
  apply (proj1 (load_poi_data_needs_every_poi Examples.three_containers
                  [("Base", "fit.root"); ("sysA", "fit_sysA.root")]
                  "combWS" "quickfit" [] Hwf)
           "fit.root" "sysA" "fit_sysA.root" "mu_a").
  - intros g f Hgf. apply elem_of_cons in Hgf as [[= -> ->]|Hgf].
    { by rewrite Hbase. }
    apply elem_of_cons in Hgf as [[= -> ->]|Hgf].
    { by rewrite Halt. }
    by apply elem_of_nil in Hgf.
  - reflexivity.
  - right. left.
  - rewrite Hbase. left.
  - rewrite Halt. intros Hin. apply elem_of_cons in Hin as [[=]|Hin].
    by apply elem_of_nil in Hin.
Defined.

(** ** syst_breakdown.py: discovery of the alternative fits *)
Section Discovery.
Import Py SystBreakdown Spec.

Lemma startswith_app sep rest : startswith sep (sep +:+ rest) = true.
Proof.
  induction sep as [|c sep IH]; [by destruct rest|].
  rewrite app_String. cbn [startswith]. by rewrite bool_decide_true, IH.
Qed.

Lemma split_sep_go_skip sep t piece rest :
  split_sep_go sep (String.length t) piece (t +:+ rest)
  = split_sep_go sep 0 piece rest.
Proof.
  induction t as [|c t IH]; [done|]. rewrite app_String. by cbn.
Qed.

(** A string without the separator is one piece. *)
Lemma split_sep_go_absent sep piece s :
  contains sep s = false → split_sep_go sep 0 piece s = [piece +:+ s].
Proof.
  revert piece. induction s as [|c s IH]; intros piece Hc.
  - by rewrite app_empty_r.
  - cbn [contains] in Hc. apply orb_false_iff in Hc as [Hstart Hc].
    cbn [split_sep_go]. rewrite Hstart, IH by done.
    by rewrite app_assoc_string.
Qed.

(** A string that starts with the separator: an empty piece, then the
    pieces of the rest. *)
Lemma split_sep_go_prefix sep rest :
  sep ≠ "" →
  split_sep_go sep 0 "" (sep +:+ rest) = "" :: split_sep_go sep 0 "" rest.
Proof.
  intros Hsep. destruct sep as [|c sep]; [done|].
  pose proof (startswith_app (String c sep) rest) as Hstart.
  rewrite app_String in *. cbn [split_sep_go]. rewrite Hstart.
  cbn [String.length]. rewrite Nat.sub_succ, Nat.sub_0_r.
  by rewrite split_sep_go_skip.
Qed.

(** The extension [.root] cannot start inside a name that does not hold it
    and run over into the extension that follows the name. *)
Lemma root_no_overlap g :
  g ≠ "" → contains ".root" g = false →
  startswith ".root" (g +:+ ".root") = false.
Proof.
  intros Hg Hc. destruct g as [|c1 g]; [done|]. clear Hg.
  cbn [contains] in Hc. apply orb_false_iff in Hc as [Hstart _].
  destruct g as [|c2 [|c3 [|c4 [|c5 g]]]];
    rewrite ?app_String; cbn [startswith] in *;
    change ("" +:+ ".root") with ".root"; cbn [startswith].
  1-4: repeat (case_bool_decide; simplify_eq; cbn [andb]; try done).
  revert Hstart. by destruct (g +:+ ".root"), g.
Qed.

Lemma split_root_first piece g :
  contains ".root" g = false →
  split_sep_go ".root" 0 piece (g +:+ ".root") = [piece +:+ g; ""].
Proof.
  revert piece. induction g as [|c g IH]; intros piece Hc.
  - by rewrite app_empty_r.
  - pose proof (root_no_overlap (String c g) ltac:(done) Hc) as Hstart.
    cbn [contains] in Hc. apply orb_false_iff in Hc as [_ Hc].
    rewrite app_String in *. cbn [split_sep_go]. rewrite Hstart, IH by done.
    by rewrite app_assoc_string.
Qed.

Lemma split_sep_nonempty {E} sep s :
  sep ≠ "" → split_sep (E:=E) sep s = mret (split_sep_go sep 0 "" s).
Proof. by destruct sep. Qed.

(** The round trip, where it holds: the file name [edit_cmd] derives for a
    group is read back as that group, provided the group name holds
    neither the extension nor, up to the extension that follows it, the
    baseline stem followed by an underscore. *)
Lemma group_name_of_round_trip base g :
  contains (base +:+ "_") (g +:+ ".root") = false →
  contains ".root" g = false →
  group_name_of base ".root" (base +:+ "_" +:+ g +:+ ".root")
  = Run [] (Return g).
Proof.
  intros Hbase Hext. unfold group_name_of.
  assert (base +:+ "_" ≠ "") as Hsep by by destruct base.
  rewrite split_sep_nonempty, mret_bind, <-app_assoc_string by done.
  rewrite split_sep_go_prefix, split_sep_go_absent by done.
  unfold index_list. cbn [lookup list_lookup]. rewrite !mret_bind.
  change ("" +:+ g +:+ ".root") with (g +:+ ".root").
  rewrite split_sep_nonempty, mret_bind by done.
  by rewrite split_root_first.
Qed.

(** C7. The baseline [fit.root] and the output [fit_postfit_pull.root] of
    the group [postfit_pull]: [get_fnames] cuts the file name at every
    [fit_] and files it under the group name [post]. *)
Theorem get_fnames_cuts_group_name :
  result (RunFits.edit_cmd "fit -o fit.root -p mu=1_0_2" "postfit_pull"
            "alpha_a_1=0.5")
  = Return "fit -o fit_postfit_pull.root -p mu=1_0_2,alpha_a_1=0.5" ∧
  get_fnames Examples.postfit_glob "fit.root"
  = Run [] (Return [("Base", "fit.root");
                    ("post", "fit_postfit_pull.root")]).
Proof. split; reflexivity. Qed.

End Discovery.

(** ** run_fits.py: more on the command mutation *)
Section EditCmdMore.
Import Py RunFits Spec.
Implicit Types tokens : list string.

Lemma edit_output_cases tokens g :
  (∃ tokens1, edit_output tokens g
              = Run [Log WARNING OutputMissing] (Return tokens1)) ∨
  (∃ tokens1, edit_output tokens g = Run [] (Return tokens1)) ∨
  (∃ m, edit_output tokens g = Run [Log ERROR m] (SysExit 1)).
Proof.
  destruct (flag_index "-o" tokens) as [i|] eqn:Hi.
  2:{ left. rewrite edit_output_missing by done. by eauto. }
  right. destruct (tokens !! S i) as [path|] eqn:Hpath.
  2:{ right. rewrite (edit_output_last _ _ i) by done. by eauto. }
  rewrite (edit_output_found _ _ i path) by done.
  case_bool_decide; [left|right]; by eauto.
Qed.

Lemma edit_pois_cases tokens fixed :
  (∃ tokens', edit_pois tokens fixed
              = Run [Log WARNING PoisMissing] (Return tokens')) ∨
  (∃ tokens', edit_pois tokens fixed = Run [] (Return tokens')) ∨
  (∃ m, edit_pois tokens fixed = Run [Log ERROR m] (SysExit 1)).
Proof.
  destruct (flag_index "-p" tokens) as [j|] eqn:Hj.
  2:{ left. rewrite edit_pois_missing by done. by eauto. }
  right. destruct (tokens !! S j) as [pois|] eqn:Hpois.
  2:{ right. rewrite (edit_pois_last _ _ j) by done. by eauto. }
  rewrite (edit_pois_found _ _ j pois) by done.
  destruct (contains "=" pois); [left|right]; by eauto.
Qed.

(** X1. [edit_cmd] never raises an exception, whatever the command and
    the group name: either it returns a command, having logged warnings
    only, or it ends the run with exit code 1, the last record it logged
    being an error. *)
Theorem edit_cmd_returns_or_exits cmd g fixed :
  (∃ cmd', result (edit_cmd cmd g fixed) = Return cmd' ∧
           ∀ m, Log ERROR m ∉ trace (edit_cmd cmd g fixed)) ∨
  (result (edit_cmd cmd g fixed) = SysExit 1 ∧
   ∃ m, last (trace (edit_cmd cmd g fixed)) = Some (Log ERROR m)).
Proof.
  unfold edit_cmd, edit_split_cmd.
  destruct (edit_output_cases (split cmd) g)
    as [[tokens1 ->]|[[tokens1 ->]|[m ->]]];
    [| |right; by eauto];
    rewrite bind_Run_Return;
    destruct (edit_pois_cases tokens1 fixed)
      as [[tokens' ->]|[[tokens' ->]|[m ->]]];
    cbn [trace result app]; rewrite ?bind_Run_Return; cbn [trace result app];
    try (right; by eauto).
  all: left; eexists; (split; [done|]); intros m Hm.
  all: repeat (apply elem_of_cons in Hm as [[=]|Hm]).
  all: by apply elem_of_nil in Hm.
Qed.


(** X3. On a command with neither [-o] nor [-p], [edit_cmd] appends both
    with their defaults, the output [g.root] and the fixed-parameter
    string alone, and logs the two warnings. *)
Theorem edit_cmd_defaults cmd g fixed :
  "-o" ∉ split cmd → "-p" ∉ split cmd →
  edit_cmd cmd g fixed
  = Run [Log WARNING OutputMissing; Log WARNING PoisMissing]
        (Return (join " " (split cmd ++ ["-o " +:+ g +:+ ".root";
                                         "-p " +:+ fixed]))).
Proof.
  intros Ho%flag_index_None Hp%flag_index_None.
  unfold edit_cmd, edit_split_cmd.
  rewrite edit_output_missing, bind_Run_Return by done.
  rewrite edit_pois_missing.
  - cbn [trace result app]. rewrite bind_Run_Return. cbn [trace result app].
    by rewrite <-app_assoc.
  - rewrite flag_index_snoc; [done|]. by apply default_not_flag.
Qed.

(** X4. On a command whose first [-o] is followed by [stem.root] (as
    [os.path.splitext] cuts it) and whose first [-p] is followed by a
    value with [=], [edit_cmd] logs nothing and returns the command with
    exactly these two tokens replaced, by [stem_g.root] and by
    [pois,fixed]; every other token is kept, in order. *)
Theorem edit_cmd_replaces_two_tokens cmd g fixed i path j pois :
  flag_index "-o" (split cmd) = Some i →
  split cmd !! S i = Some path →
  (splitext path).2 = ".root" →
  flag_index "-p" (split cmd) = Some j →
  split cmd !! S j = Some pois →
  contains "=" pois = true →
  edit_cmd cmd g fixed
  = Run [] (Return (join " "
      (<[S j := pois +:+ "," +:+ fixed]>
         (<[S i := (splitext path).1 +:+ "_" +:+ g +:+ ".root"]>
            (split cmd))))).
Proof.
  intros Hi Hpath Hext Hj Hpois Heq. unfold edit_cmd, edit_split_cmd.
  pose proof (edit_output_found (split cmd) g i path Hi Hpath) as Hout.
  rewrite bool_decide_true in Hout by done.
  rewrite Hout, bind_Run_Return.
  destruct (edit_output_keeps_pois (split cmd) g _ j pois
              ltac:(by rewrite Hout) Hj Hpois) as [Hj1 Hpois1].
  rewrite (edit_pois_found _ _ j pois), Heq by done.
  cbn [trace result app]. by rewrite bind_Run_Return.
Qed.

End EditCmdMore.


Lemma edit_cmd_defaults_witness :
  RunFits.edit_cmd "quickFit -f ws.root" "sysA" "alpha_a_1=0.5"
  = Py.Run [Py.Log Py.WARNING RunFits.OutputMissing;
            Py.Log Py.WARNING RunFits.PoisMissing]
      (Py.Return
         (Py.join " " (Py.split "quickFit -f ws.root"
                       ++ ["-o " +:+ "sysA" +:+ ".root";
                           "-p " +:+ "alpha_a_1=0.5"]))).
Proof.
  apply (edit_cmd_defaults "quickFit -f ws.root" "sysA" "alpha_a_1=0.5").
  - intros Hin. by apply (bool_decide_pack _) in Hin.
  - intros Hin. by apply (bool_decide_pack _) in Hin.
Defined.

Lemma edit_cmd_replaces_two_tokens_witness :
  RunFits.edit_cmd "fit -o out.root -p mu=1_0_2" "sysA" "alpha_a_1=0.5"
  = Py.Run []
      (Py.Return
         (Py.join " "
            (<[4 := "mu=1_0_2" +:+ "," +:+ "alpha_a_1=0.5"]>
               (<[2 := (Py.splitext "out.root").1 +:+ "_" +:+ "sysA"
                       +:+ ".root"]>
                  (Py.split "fit -o out.root -p mu=1_0_2"))))).
Proof.
  apply (edit_cmd_replaces_two_tokens "fit -o out.root -p mu=1_0_2" "sysA"
           "alpha_a_1=0.5" 1 "out.root" 3 "mu=1_0_2"); reflexivity.
Defined.

(** ** run_fits.py: more on the generated commands *)
Section GenerateMore.
Import Py RunFits Spec.
Context {V : Type} (format_value : V → string).

Lemma generate_alt_cmds_loop_length cmd (groups : dict (list string))
    (NPinfo : dict V) (alt_cmds cmds : list string) :
  result (for_each groups (λ alt_cmds '(gname, gsysts),
            fixed_str ← fixed_systs format_value gsysts NPinfo;
            gcmd ← edit_cmd cmd gname fixed_str;
            mret (alt_cmds ++ [gcmd])) alt_cmds) = Return cmds →
  length cmds = length alt_cmds + length groups.
Proof using Type.
  intros Hret.
  apply (for_each_invariant (E:=effect)
           (λ visited acc, length acc = length alt_cmds + length visited))
    with (visited := []) in Hret; [done| |by rewrite Nat.add_0_r].
  clear Hret. intros visited [gname gsysts] acc acc' Hlen.
  rewrite result_bind.
  destruct (result (fixed_systs _ _ _)) as [fixed_str|]; [|done].
  rewrite result_bind.
  destruct (result (edit_cmd _ _ _)) as [gcmd|]; [|done].
  intros [= <-]. rewrite !length_app, Hlen. simpl. lia.
Qed.

(** X5. When [generate_alt_cmds] returns, it returns one command per
    group, in the order of the configuration, and the command of a group
    is the one [edit_cmd] derives from the baseline for the group's name
    and the group's fixed-parameter string. *)
Theorem generate_alt_cmds_one_per_group cmd (groups : dict (list string))
    (NPinfo : dict V) (cmds : list string) :
  dict_wf NPinfo →
  result (generate_alt_cmds format_value cmd groups NPinfo) = Return cmds →
  length cmds = length groups ∧
  ∀ k gname gsysts, groups !! k = Some (gname, gsysts) →
    ∃ gcmd, cmds !! k = Some gcmd ∧
      result (edit_cmd cmd gname
                (fixed_parameter_string format_value gsysts NPinfo))
      = Return gcmd.
Proof using Type.
  intros Hwf Hret. split.
  - by apply generate_alt_cmds_loop_length in Hret.
  - apply generate_alt_cmds_loop in Hret as (new & -> & Hnew); done.
Qed.

(** X6. A malformed baseline command stops the generation at the first
    group, when the name of that group holds no [=]: [generate_alt_cmds]
    ends the run with exit code 1 and returns no command at all, and the
    run is the one of the first group alone, whatever groups follow it in
    the configuration: none of them is visited. *)
Theorem generate_alt_cmds_exits_on_malformed cmd gname gsysts
    (groups : dict (list string)) (NPinfo : dict V) :
  dict_wf NPinfo → contains "=" gname = false → malformed (split cmd) →
  result (generate_alt_cmds format_value cmd ((gname, gsysts) :: groups)
            NPinfo) = SysExit 1 ∧
  generate_alt_cmds format_value cmd ((gname, gsysts) :: groups) NPinfo
  = generate_alt_cmds format_value cmd [(gname, gsysts)] NPinfo.
Proof using Type.
  intros Hwf Hg Hbad. unfold generate_alt_cmds. cbn [for_each].
  assert (result (fixed_str ← fixed_systs format_value gsysts NPinfo;
                  gcmd ← edit_cmd cmd gname fixed_str;
                  mret (([] : list string) ++ [gcmd])) = SysExit 1)
    as Hstep.
  { rewrite result_bind, fixed_systs_result by done. rewrite result_bind.
    destruct (edit_cmd_exits_iff_malformed cmd gname
                (fixed_parameter_string format_value gsysts NPinfo) Hg)
      as [[_ ->]|[Hgood _]]; done. }
  split.
  - by rewrite result_bind, Hstep.
  - by rewrite !(bind_aborts _ _ _ Hstep).
Qed.

Lemma contains_empty s : contains "" s = true.
Proof. by destruct s. Qed.

Lemma matches_empty_name (info : dict V) : matches info "" = info.
Proof using Type.
  unfold matches. induction info as [|[k v] info IH]; [done|].
  rewrite (filter_cons_True _ (k, v)); [f_equal; exact IH|].
  cbn [fst]. by rewrite contains_empty.
Qed.

(** X7. An empty systematic name matches every parameter: for a non-empty
    snapshot, [fixed_systs [""] info] logs nothing and fixes all the
    parameters of the snapshot, in its order. *)
Theorem fixed_systs_empty_name (info : dict V) :
  dict_wf info → info ≠ [] →
  fixed_systs format_value [""] info
  = Run [] (Return (join "," (assignment format_value <$> info))).
Proof using Type.
  intros Hwf Hne. unfold fixed_systs. rewrite fixed_systs_loop by done.
  pose proof (matches_empty_name info) as Hall.
  rewrite bind_Run_Return. cbn [trace result mret run_ret ret].
  unfold missing_systematics.
  rewrite (filter_cons_False _ "") by by rewrite Hall.
  rewrite filter_nil. cbn [fmap list_fmap mbind list_bind app].
  by rewrite Hall, app_nil_r.
Qed.

End GenerateMore.

Lemma generate_alt_cmds_one_per_group_witness :
  length ["fit -o out_sysA.root -p mu=1_0_2,alpha_a_1=0.5"]
  = length [("sysA", ["alpha_a"])] ∧
  ∀ k gname gsysts,
    [("sysA", ["alpha_a"])] !! k = Some (gname, gsysts) →
    ∃ gcmd,
      ["fit -o out_sysA.root -p mu=1_0_2,alpha_a_1=0.5"] !! k = Some gcmd ∧
      Py.result
        (RunFits.edit_cmd "fit -o out.root -p mu=1_0_2" gname
           (Spec.fixed_parameter_string (λ v : string, v) gsysts
              [("alpha_a_1", "0.5")]))
      = Py.Return gcmd.
Proof.
  apply (generate_alt_cmds_one_per_group (λ v : string, v)
           "fit -o out.root -p mu=1_0_2" [("sysA", ["alpha_a"])]
           [("alpha_a_1", "0.5")]).
  - unfold Py.dict_wf, Py.keys. cbn [fmap list_fmap fst]. compute_done.
  - reflexivity.
Defined.

Lemma generate_alt_cmds_exits_on_malformed_witness :
  Py.result
    (RunFits.generate_alt_cmds (λ v : string, v) "fit -o out.txt -p mu=1"
       [("sysA", ["alpha_a"]); ("sysB", ["alpha_b"])]
       [("alpha_a_1", "0.5")])
  = Py.SysExit 1 ∧
  RunFits.generate_alt_cmds (λ v : string, v) "fit -o out.txt -p mu=1"
    [("sysA", ["alpha_a"]); ("sysB", ["alpha_b"])] [("alpha_a_1", "0.5")]
  = RunFits.generate_alt_cmds (λ v : string, v) "fit -o out.txt -p mu=1"
      [("sysA", ["alpha_a"])] [("alpha_a_1", "0.5")].
Proof.
  apply (generate_alt_cmds_exits_on_malformed (λ v : string, v)
           "fit -o out.txt -p mu=1" "sysA" ["alpha_a"]
           [("sysB", ["alpha_b"])] [("alpha_a_1", "0.5")]).
  - unfold Py.dict_wf, Py.keys. cbn [fmap list_fmap fst]. compute_done.
  - reflexivity.
  - left. exists 1. split; [reflexivity|].
    intros path [= <-]. discriminate.
Defined.

Lemma fixed_systs_empty_name_witness :
  RunFits.fixed_systs (λ v : string, v) [""]
    [("alpha_a_1", "0.5"); ("yield_QCD_sr1", "2")]
  = Py.Run []
      (Py.Return
         (Py.join ","
            (Spec.assignment (λ v : string, v)
               <$> [("alpha_a_1", "0.5"); ("yield_QCD_sr1", "2")]))).
Proof.
  apply (fixed_systs_empty_name (λ v : string, v)
           [("alpha_a_1", "0.5"); ("yield_QCD_sr1", "2")]).
  - unfold Py.dict_wf, Py.keys. cbn [fmap list_fmap fst]. compute_done.
  - done.
Defined.

(** ** run_fits.py: the baseline snapshot *)
Section NuisancePrefixes.
Import Py RunFitsInput.

Lemma is_nuisance_test name :
  negb (startswith "alpha_" name || startswith "xsec_unc_" name)
  && negb (startswith "yield_QCD_sr" name || startswith "c_sr" name
           || startswith "d_sr" name || startswith "e_sr" name
           || startswith "f_sr" name || startswith "g_sr" name
           || startswith "h_sr" name) = false
  ↔ is_nuisance name.
Proof using Type.
  unfold is_nuisance, nuisance_prefixes. split.
  - intros Htest.
    destruct (startswith "alpha_" name) eqn:H1;
      [exists "alpha_"; split; [set_solver|done]|].
    destruct (startswith "xsec_unc_" name) eqn:H2;
      [exists "xsec_unc_"; split; [set_solver|done]|].
    destruct (startswith "yield_QCD_sr" name) eqn:H3;
      [exists "yield_QCD_sr"; split; [set_solver|done]|].
    destruct (startswith "c_sr" name) eqn:H4;
      [exists "c_sr"; split; [set_solver|done]|].
    destruct (startswith "d_sr" name) eqn:H5;
      [exists "d_sr"; split; [set_solver|done]|].
    destruct (startswith "e_sr" name) eqn:H6;
      [exists "e_sr"; split; [set_solver|done]|].
    destruct (startswith "f_sr" name) eqn:H7;
      [exists "f_sr"; split; [set_solver|done]|].
    destruct (startswith "g_sr" name) eqn:H8;
      [exists "g_sr"; split; [set_solver|done]|].
    destruct (startswith "h_sr" name) eqn:H9;
      [exists "h_sr"; split; [set_solver|done]|].
    done.
  - intros (prefix & Hin & Hstart).
    repeat (apply elem_of_cons in Hin as [->|Hin];
            [rewrite Hstart; by rewrite ?orb_true_r, ?andb_false_r|]).
    by apply elem_of_nil in Hin.
Qed.

End NuisancePrefixes.

Section Snapshot.
Import Py RunFitsInput.
Context {V : Type}.
Context (read_values : string → string → string → list (string * V)).

(** X8. The snapshot [read_NP_info] returns is a dictionary (each name
    once) that holds exactly the variables of the workspace whose name
    starts with one of the nine nuisance-parameter prefixes, and holds
    under each name a value the workspace gives for that name. *)
Theorem read_NP_info_snapshot fname wsname ssname :
  dict_wf (read_NP_info read_values fname wsname ssname) ∧
  (∀ name,
     name ∈ keys (read_NP_info read_values fname wsname ssname) ↔
     is_nuisance name ∧ name ∈ (read_values fname wsname ssname).*1) ∧
  (∀ name value,
     dict_lookup (read_NP_info read_values fname wsname ssname) name
     = Some value →
     (name, value) ∈ read_values fname wsname ssname).
Proof using Type.
  unfold read_NP_info.
  generalize (read_values fname wsname ssname). intros all_vars.
  assert (∀ acc : dict V,
    let info := foldl (λ info '(name, value),
      let isNP := startswith "alpha_" name || startswith "xsec_unc_" name in
      let isQCD :=
        startswith "yield_QCD_sr" name || startswith "c_sr" name
        || startswith "d_sr" name || startswith "e_sr" name
        || startswith "f_sr" name || startswith "g_sr" name
        || startswith "h_sr" name in
      if negb isNP && negb isQCD then info
      else dict_set info name value) acc all_vars in
    (dict_wf acc → dict_wf info) ∧
    (∀ name, name ∈ keys info ↔
       name ∈ keys acc ∨ (is_nuisance name ∧ name ∈ all_vars.*1)) ∧
    (∀ name value, dict_lookup info name = Some value →
       dict_lookup acc name = Some value ∨ (name, value) ∈ all_vars))
    as Hgen.
  { induction all_vars as [|[name0 value0] all_vars IH]; intros acc info.
    { subst info. cbn [foldl]. split_and!; [done| |by auto].
      intros name. rewrite fmap_nil, elem_of_nil. tauto. }
    subst info. cbn [foldl]. cbv zeta.
    destruct (negb _ && negb _) eqn:Htest.
    - destruct (IH acc) as (Hwf & Hkeys & Hlook). split_and!; [done| |].
      + intros name. rewrite Hkeys, fmap_cons, elem_of_cons. cbn [fst].
        split; [tauto|]. intros [?|[Hn [->|?]]]; [tauto| |tauto].
        apply is_nuisance_test in Hn. congruence.
      + intros name value [?|?]%Hlook; [by left|]. right. by right.
    - destruct (IH (dict_set acc name0 value0)) as (Hwf & Hkeys & Hlook).
      apply is_nuisance_test in Htest. split_and!.
      + intros Hacc. by apply Hwf, dict_set_wf.
      + intros name. rewrite Hkeys, keys_dict_set, fmap_cons, elem_of_cons.
        cbn [fst]. split; [|tauto].
        intros [[->|?]|?]; tauto.
      + intros name value [Hset|?]%Hlook; [|right; by right].
        rewrite dict_lookup_set in Hset. case_bool_decide as Heq.
        * simplify_eq. right. by left.
        * by left. }
  destruct (Hgen []) as (Hwf & Hkeys & Hlook). split_and!.
  - apply Hwf. apply NoDup_nil_2.
  - intros name. rewrite Hkeys. unfold keys. rewrite fmap_nil, elem_of_nil.
    tauto.
  - intros name value [Hnil|?]%Hlook; done.
Qed.

End Snapshot.

(** ** syst_breakdown.py: more on quadrature subtraction *)
Section ImpactsMore.
Import Py SystBreakdown Spec Closed.







End ImpactsMore.

(** ** The keys of dictionaries filled by a loop *)
Section DictAppend.
Import Py.
Context {V : Type}.

(** Assigning to a key the dictionary does not hold appends the item. *)
Lemma dict_set_fresh (d : dict V) (k : string) (v : V) :
  k ∉ keys d → dict_set d k v = d ++ [(k, v)].
Proof.
  unfold keys. induction d as [|[k0 v0] d IH]; [done|].
  rewrite fmap_cons. intros [Hne Hk]%not_elem_of_cons. simpl in *.
  rewrite bool_decide_false by done. by rewrite IH.
Qed.

Lemma keys_dict_set_fresh (d : dict V) (k : string) (v : V) :
  k ∉ keys d → keys (dict_set d k v) = keys d ++ [k].
Proof.
  intros Hk. rewrite dict_set_fresh by done. unfold keys.
  by rewrite fmap_app.
Qed.

Lemma keys_dict_set_held (d : dict V) (k : string) (v : V) :
  k ∈ keys d → keys (dict_set d k v) = keys d.
Proof.
  unfold keys. induction d as [|[k0 v0] d IH]; intros Hk.
  { by apply elem_of_nil in Hk. }
  simpl. case_bool_decide as Heq; [done|]. simpl. f_equal. apply IH.
  rewrite fmap_cons in Hk. apply elem_of_cons in Hk as [?|?]; [|done].
  simpl in *. congruence.
Qed.

End DictAppend.

Section DictKeys.
Import Py.
Context {V W : Type}.

Lemma keys_foldl_set (f : string → W) (ks : list string) (acc : dict W) :
  NoDup ks → (∀ k, k ∈ ks → k ∉ keys acc) →
  keys (foldl (λ acc k, dict_set acc k (f k)) acc ks) = keys acc ++ ks.
Proof.
  revert acc. induction ks as [|k ks IH]; intros acc Hnd Hfresh.
  { by rewrite app_nil_r. }
  apply NoDup_cons in Hnd as [Hk Hnd]. cbn [foldl]. rewrite IH.
  - rewrite keys_dict_set_fresh by (apply Hfresh; left).
    by rewrite <-app_assoc.
  - done.
  - intros k' Hk' Hin. apply keys_dict_set in Hin as [->|Hin]; [done|].
    by apply (Hfresh k'); [right|].
Qed.

Lemma keys_foldl_items (skip : string → bool) (f : V → W)
    (items : dict V) (acc : dict W) :
  dict_wf items → (∀ k, k ∈ keys items → k ∉ keys acc) →
  keys (foldl (λ acc '(k, v), if skip k then acc else dict_set acc k (f v))
          acc items)
  = keys acc ++ filter (λ k, skip k = false) (keys items).
Proof.
  unfold dict_wf. revert acc.
  induction items as [|[k v] items IH]; intros acc Hnd Hfresh.
  { by rewrite app_nil_r. }
  unfold keys in Hnd, Hfresh. rewrite fmap_cons in Hnd, Hfresh.
  apply NoDup_cons in Hnd as [Hk Hnd]. simpl in Hk.
  cbn [foldl]. unfold keys at 3. rewrite fmap_cons. cbn [fst].
  destruct (skip k) eqn:Hskip.
  - rewrite filter_cons_False by by rewrite Hskip.
    apply IH; [done|]. intros k' Hk'. apply Hfresh. by right.
  - rewrite filter_cons_True by done. rewrite IH.
    + rewrite keys_dict_set_fresh by (apply Hfresh; left).
      by rewrite <-app_assoc.
    + done.
    + intros k' Hk' Hin. apply keys_dict_set in Hin as [->|Hin]; [done|].
      by apply (Hfresh k'); [right|].
Qed.

End DictKeys.

(** ** syst_breakdown.py: the shape of the impact table *)
Section ImpactTable.
Import Py SystBreakdown Spec Closed.

Lemma keys_group_impacts (base_poi : POI) (groups : dict POI) :
  dict_wf groups →
  keys (group_impacts base_poi groups)
  = filter (λ gname, gname ≠ "Base") (keys groups).
Proof.
  intros Hwf. unfold group_impacts.
  rewrite (keys_foldl_items (λ k, bool_decide (k = "Base"))
             (quad_impact base_poi)) by (done || by intros k _ ?%elem_of_nil).
  cbn [keys fmap list_fmap app]. apply list_filter_iff. intros k.
  by rewrite bool_decide_eq_false.
Qed.

(** One iteration of [compute_impacts]: when the POI holds a baseline it
    returns or raises [OverflowError], and when it does not it raises
    [KeyError('Base')]. *)
Lemma compute_impacts_step (poi_data : dict (dict POI))
    (impacts : dict (dict (float * float))) (pname : string) :
  pname ∈ keys poi_data →
  match dict_lookup (groups_of poi_data pname) "Base" with
  | Some base_poi =>
      (∃ impacts',
         result (groups ← dict_get (E:=effect) poi_data pname;
                 base_poi ← dict_get groups "Base";
                 entry ← for_each groups (λ entry '(gname, alt_poi),
                   if bool_decide (gname = "Base") then mret entry
                   else impact ← sub_quad_errs base_poi alt_poi;
                        mret (dict_set entry gname impact)) [];
                 mret (dict_set impacts pname entry))
         = Return impacts') ∨
      result (groups ← dict_get (E:=effect) poi_data pname;
              base_poi ← dict_get groups "Base";
              entry ← for_each groups (λ entry '(gname, alt_poi),
                if bool_decide (gname = "Base") then mret entry
                else impact ← sub_quad_errs base_poi alt_poi;
                     mret (dict_set entry gname impact)) [];
              mret (dict_set impacts pname entry))
      = Raise OverflowError
  | None =>
      result (groups ← dict_get (E:=effect) poi_data pname;
              base_poi ← dict_get groups "Base";
              entry ← for_each groups (λ entry '(gname, alt_poi),
                if bool_decide (gname = "Base") then mret entry
                else impact ← sub_quad_errs base_poi alt_poi;
                     mret (dict_set entry gname impact)) [];
              mret (dict_set impacts pname entry))
      = Raise (KeyError "Base")
  end.
Proof.
  intros [groups Hgroups]%dict_lookup_is_Some. unfold groups_of.
  rewrite Hgroups. change (default [] (Some groups)) with groups.
  rewrite (dict_get_Some _ _ groups), mret_bind by done.
  destruct (dict_lookup groups "Base") as [base_poi|] eqn:Hbase.
  - rewrite (dict_get_Some _ _ base_poi), mret_bind by done.
    rewrite result_bind.
    destruct (for_each_returns_or_aborts (E:=effect)
      (λ f, f = Raised OverflowError) groups
      (λ entry '(gname, alt_poi),
         if bool_decide (gname = "Base") then mret entry
         else impact ← sub_quad_errs base_poi alt_poi;
              mret (dict_set entry gname impact)))
      with (s := ([] : dict (float * float)))
      as [[entry ->]|(f & -> & ->)]; [|by eauto..].
    intros entry x _. apply (compute_impacts_group_step base_poi entry x).
  - by rewrite dict_get_None.
Qed.

(** When every POI holds a baseline, [compute_impacts] returns a table or
    raises [OverflowError]. *)
Lemma compute_impacts_with_baselines (poi_data : dict (dict POI)) :
  Forall (λ pname, is_Some (dict_lookup (groups_of poi_data pname) "Base"))
    (keys poi_data) →
  (∃ impacts, result (compute_impacts poi_data) = Return impacts) ∨
  result (compute_impacts poi_data) = Raise OverflowError.
Proof.
  intros Hall. unfold compute_impacts.
  destruct (for_each_returns_or_aborts (E:=effect)
    (λ f, f = Raised OverflowError) (keys poi_data)
    (λ impacts pname,
       groups ← dict_get poi_data pname;
       base_poi ← dict_get groups "Base";
       entry ← for_each groups (λ entry '(gname, alt_poi),
         if bool_decide (gname = "Base") then mret entry
         else impact ← sub_quad_errs base_poi alt_poi;
              mret (dict_set entry gname impact)) [];
       mret (dict_set impacts pname entry)))
    with (s := ([] : dict (dict (float * float))))
    as [Hret|(f & -> & Hres)]; [|by left|by right].
  intros impacts pname Hin.
  pose proof (compute_impacts_step poi_data impacts pname Hin) as Hs.
  apply (Forall_forall _ (keys poi_data)) with (x := pname) in Hall;
    [|done].
  destruct Hall as [base_poi Hbase]. rewrite Hbase in Hs.
  destruct Hs as [?|?]; by eauto.
Qed.

(** The keys of the table [compute_impacts] returns. *)
Lemma compute_impacts_keys (poi_data : dict (dict POI)) impacts :
  well_formed poi_data → dict_wf poi_data →
  result (compute_impacts poi_data) = Return impacts →
  keys impacts = keys poi_data ∧
  ∀ pname groups, dict_lookup poi_data pname = Some groups →
    ∃ entry, dict_lookup impacts pname = Some entry ∧
             keys entry = filter (λ gname, gname ≠ "Base") (keys groups).
Proof.
  intros Hwf Hnd Hret.
  pose proof (compute_impacts_returns_fine _ _ Hwf Hret) as Hfine.
  rewrite (compute_impacts_closed poi_data Hwf Hfine) in Hret.
  injection Hret as <-. split.
  - by rewrite keys_foldl_set by (done || by intros k _ ?%elem_of_nil).
  - intros pname groups Hgroups. eexists. split.
    + apply (lookup_foldl_set
        (λ pname, group_impacts (base_of (groups_of poi_data pname))
                    (groups_of poi_data pname))).
      apply dict_lookup_is_Some. by rewrite Hgroups.
    + unfold groups_of. rewrite Hgroups.
      change (default [] (Some groups)) with groups.
      apply keys_group_impacts. by eapply Hwf.
Qed.

(** X10. On well-formed POI data, each POI once: [compute_impacts]
    returns a table if no square it takes overflows; and a table it
    returns has the POIs of the data in their order, and under each POI
    its groups in their order with [Base] left out: no other key is added
    and none is dropped. *)
Theorem compute_impacts_table_shape (poi_data : dict (dict POI)) :
  well_formed poi_data → dict_wf poi_data →
  (squares_fine poi_data →
   ∃ impacts, result (compute_impacts poi_data) = Return impacts) ∧
  ∀ impacts, result (compute_impacts poi_data) = Return impacts →
    keys impacts = keys poi_data ∧
    ∀ pname groups, dict_lookup poi_data pname = Some groups →
      ∃ entry, dict_lookup impacts pname = Some entry ∧
               keys entry = filter (λ gname, gname ≠ "Base") (keys groups).
Proof.
  intros Hwf Hnd. split.
  - intros Hfine. rewrite (compute_impacts_closed poi_data Hwf Hfine).
    by eauto.
  - intros impacts Hret. by apply compute_impacts_keys.
Qed.

(** X11. [compute_impacts] ends in one of three ways: it returns a table,
    it raises [KeyError('Base')], or it raises [OverflowError]; no other
    exception and no exit is possible.  When every POI of the data holds a
    baseline there is no [KeyError]; otherwise some POI lacks the key
    [Base] and there is no table.  On well-formed data it returns exactly
    when no square it takes overflows. *)
Theorem compute_impacts_outcomes (poi_data : dict (dict POI)) :
  (((∀ pname groups, dict_lookup poi_data pname = Some groups →
       is_Some (dict_lookup groups "Base")) ∧
    ((∃ impacts, result (compute_impacts poi_data) = Return impacts) ∨
     result (compute_impacts poi_data) = Raise OverflowError)) ∨
   ((∃ pname groups, dict_lookup poi_data pname = Some groups ∧
       dict_lookup groups "Base" = None) ∧
    (result (compute_impacts poi_data) = Raise (KeyError "Base") ∨
     result (compute_impacts poi_data) = Raise OverflowError))) ∧
  (well_formed poi_data →
   (∃ impacts, result (compute_impacts poi_data) = Return impacts) ↔
   squares_fine poi_data).
Proof.
  split.
  2:{ intros Hwf. split.
      - intros [impacts Hret]. by eapply compute_impacts_returns_fine.
      - intros Hfine. rewrite (compute_impacts_closed poi_data Hwf Hfine).
        by eauto. }
  destruct (decide (Forall
    (λ pname, is_Some (dict_lookup (groups_of poi_data pname) "Base"))
    (keys poi_data))) as [Hall|Hex].
  - left. split.
    { intros pname groups Hgroups.
      apply (Forall_forall _ (keys poi_data)) with (x := pname) in Hall.
      - unfold groups_of in Hall. by rewrite Hgroups in Hall.
      - apply dict_lookup_is_Some. by rewrite Hgroups. }
    by apply compute_impacts_with_baselines.
  - right.
    apply not_Forall_Exists, Exists_exists in Hex as (pname & Hin & Hno);
      [|apply _].
    apply eq_None_not_Some in Hno. split.
    { apply dict_lookup_is_Some in Hin as [groups Hgroups].
      exists pname, groups. split; [done|].
      unfold groups_of in Hno. by rewrite Hgroups in Hno. }
    unfold compute_impacts.
    destruct (for_each_aborts (E:=effect)
      (λ f, f = Raised (KeyError "Base") ∨ f = Raised OverflowError)
      (keys poi_data)
      (λ impacts pname,
         groups ← dict_get poi_data pname;
         base_poi ← dict_get groups "Base";
         entry ← for_each groups (λ entry '(gname, alt_poi),
           if bool_decide (gname = "Base") then mret entry
           else impact ← sub_quad_errs base_poi alt_poi;
                mret (dict_set entry gname impact)) [];
         mret (dict_set impacts pname entry)))
      with (s := ([] : dict (dict (float * float))))
      as (f & [-> | ->] & Hres); [| |by left|by right].
    + intros impacts pname' Hin'.
      pose proof (compute_impacts_step poi_data impacts pname' Hin') as Hs.
      destruct (dict_lookup (groups_of poi_data pname') "Base");
        [destruct Hs as [?|?]|]; by eauto 6.
    + exists pname. split; [done|]. intros impacts. eexists.
      split; [by left|].
      pose proof (compute_impacts_step poi_data impacts pname Hin) as Hs.
      by rewrite Hno in Hs.
Qed.

End ImpactTable.

(** The scenario of the specification: one POI, the baseline and the
    group [sysA]. *)
Lemma compute_impacts_table_shape_witness :
  (Closed.squares_fine Examples.scenario_poi_data →
   ∃ impacts,
     Py.result (SystBreakdown.compute_impacts Examples.scenario_poi_data)
     = Py.Return impacts) ∧
  ∀ impacts,
    Py.result (SystBreakdown.compute_impacts Examples.scenario_poi_data)
    = Py.Return impacts →
    Py.keys impacts = Py.keys Examples.scenario_poi_data ∧
    ∀ pname groups,
      Py.dict_lookup Examples.scenario_poi_data pname = Some groups →
      ∃ entry, Py.dict_lookup impacts pname = Some entry ∧
               Py.keys entry
               = filter (λ gname, gname ≠ "Base") (Py.keys groups).
Proof.
  apply (compute_impacts_table_shape Examples.scenario_poi_data).
  - by apply well_formed_one_poi.
  - unfold Py.dict_wf, Py.keys, Examples.scenario_poi_data.
    cbn [fmap list_fmap fst]. apply NoDup_singleton.
Defined.

(** ** syst_breakdown.py: the POIs of one container *)
Section LoadGroupMore.
Import Py SystBreakdown Spec.

Lemma load_group_snoc (all_vars : list variable) (var : variable) poi_list :
  load_group (all_vars ++ [var]) poi_list
  = if decide (is_poi poi_list (var_name var))
    then dict_set (load_group all_vars poi_list) (var_name var)
           (POI_init (var_name var) (var_value var) (var_err_low var)
              (var_err_high var))
    else load_group all_vars poi_list.
Proof.
  unfold load_group. rewrite foldl_app. cbn [foldl].
  destruct (decide (is_poi poi_list (var_name var))) as [Hpoi|Hpoi].
  - destruct Hpoi as [Hmu Hlist]. apply Is_true_true in Hmu. rewrite Hmu.
    cbn [negb].
    assert (negb (bool_decide (poi_list = []))
            && negb (bool_decide (var_name var ∈ poi_list)) = false) as ->;
      [|done].
    destruct Hlist as [Hnil|Hin].
    + by rewrite (bool_decide_true _ Hnil).
    + rewrite (bool_decide_true _ Hin). apply andb_false_r.
  - destruct (startswith "mu_" (var_name var)) eqn:Hmu; cbn [negb]; [|done].
    assert (negb (bool_decide (poi_list = []))
            && negb (bool_decide (var_name var ∈ poi_list)) = true) as ->;
      [|done].
    apply andb_true_iff. split; apply negb_true_iff, bool_decide_eq_false;
      intros H; apply Hpoi; (split; [by apply Is_true_true|]); auto.
Qed.

Lemma load_group_wf (all_vars : list variable) poi_list :
  dict_wf (load_group all_vars poi_list).
Proof.
  induction all_vars as [|var all_vars IH] using rev_ind.
  { apply NoDup_nil_2. }
  rewrite load_group_snoc. destruct (decide _); [|done].
  by apply dict_set_wf.
Qed.

Lemma load_group_is_poi (all_vars : list variable) poi_list pname :
  pname ∈ keys (load_group all_vars poi_list) → is_poi poi_list pname.
Proof.
  intros Hin%keys_load_group. unfold poi_names in Hin.
  by apply list_elem_of_filter in Hin as [? _].
Qed.

(** X12. The POIs [load_poi_data] reads from one container: no name is
    held twice; every name held passes the POI filter; and the POI stored
    under a name is built from the last variable of that name in the
    container, whose name it carries (a variable listed again overwrites
    the entry of the earlier one). *)
Theorem load_group_last_variable (all_vars : list variable)
    (poi_list : list string) :
  dict_wf (load_group all_vars poi_list) ∧
  ∀ pname poi,
    dict_lookup (load_group all_vars poi_list) pname = Some poi →
    is_poi poi_list pname ∧
    ∃ before var after,
      all_vars = before ++ var :: after ∧
      var_name var = pname ∧
      (pname ∉ var_name <$> after) ∧
      poi = POI_init pname (var_value var) (var_err_low var)
              (var_err_high var).
Proof.
  split; [apply load_group_wf|]. intros pname poi Hlook.
  assert (is_poi poi_list pname) as Hpoi.
  { apply (load_group_is_poi all_vars). apply dict_lookup_is_Some.
    by rewrite Hlook. }
  split; [done|]. revert Hlook.
  induction all_vars as [|last all_vars IH] using rev_ind; [done|].
  rewrite load_group_snoc.
  destruct (decide (is_poi poi_list (var_name last))) as [Hlast|Hlast].
  - rewrite dict_lookup_set. case_bool_decide as Heq.
    + intros [= <-]. exists all_vars, last, []. split; [done|].
      split; [done|]. split; [apply not_elem_of_nil|by rewrite Heq].
    + intros (before & var & after & -> & Hname & Hafter & Hpoi')%IH.
      exists before, var, (after ++ [last]). rewrite <-app_assoc.
      split; [done|]. split; [done|]. split; [|done].
      rewrite fmap_app. intros [?|Hin]%elem_of_app; [done|].
      apply list_elem_of_singleton in Hin. congruence.
  - intros (before & var & after & -> & Hname & Hafter & Hpoi')%IH.
    exists before, var, (after ++ [last]). rewrite <-app_assoc.
    split; [done|]. split; [done|]. split; [|done].
    rewrite fmap_app. intros [?|Hin]%elem_of_app; [done|].
    apply list_elem_of_singleton in Hin. apply Hlast. by rewrite <-Hin.
Qed.

End LoadGroupMore.

(** ** Loops over a list without repetition *)
Section LoopPositions.
Import Py.
Context {E : Type}.

(** An invariant of the loop state, told the elements already visited and
    where in the list the loop stands. *)
Lemma for_each_invariant_split {X S} (I : list X → S → Prop)
    (body : S → X → run E S) (xs : list X) :
  (∀ visited x rest s s',
     xs = visited ++ x :: rest → I visited s →
     result (body s x) = Return s' → I (visited ++ [x]) s') →
  ∀ s s', I [] s → result (for_each xs body s) = Return s' → I xs s'.
Proof.
  intros Hstep.
  assert (∀ rest visited s s',
            xs = visited ++ rest → I visited s →
            result (for_each rest body s) = Return s' → I xs s') as Hgen.
  { induction rest as [|x rest IH]; intros visited s s' Hxs HI.
    - rewrite app_nil_r in Hxs. subst visited. by intros [= <-].
    - cbn [for_each]. rewrite result_bind.
      destruct (result (body s x)) as [s1|] eqn:Hbody; [|done].
      apply (IH (visited ++ [x])).
      + by rewrite <-app_assoc.
      + by eapply Hstep. }
  intros s s'. by apply (Hgen xs []).
Qed.

End LoopPositions.

(** ** syst_breakdown.py: the data of a run that loads *)
Section Transposition.
Import Py SystBreakdown Spec Report.
Context (read_vars : string → string → string → list variable).

Lemma load_group_name (all_vars : list variable) poi_list pname poi :
  dict_lookup (load_group all_vars poi_list) pname = Some poi →
  name poi = pname.
Proof.
  induction all_vars as [|last all_vars IH] using rev_ind; [done|].
  rewrite load_group_snoc. destruct (decide _); [|done].
  rewrite dict_lookup_set. case_bool_decide as Heq; [|done].
  by intros [= <-].
Qed.

(** The inner restructuring loop: when it returns, the POI holds every
    group of the run, in the order of the files, each with the POI of that
    name read from the group's container. *)
Lemma restructure_groups (fnames : dict string) wsname ssname poi_list
    (tmp : dict (dict POI)) (pname : string) (groups : dict POI) :
  dict_wf fnames →
  (∀ g f, dict_lookup fnames g = Some f →
     dict_lookup tmp g
     = Some (load_group (read_vars f wsname ssname) poi_list)) →
  result (for_each (E:=effect) (keys fnames) (λ groups gname,
            pois ← dict_get tmp gname;
            poi ← dict_get pois pname;
            mret (dict_set groups gname poi)) []) = Return groups →
  keys groups = keys fnames ∧
  ∀ gname, gname ∈ keys fnames →
    ∃ poi, dict_lookup groups gname = Some poi ∧
           loaded_poi read_vars fnames wsname ssname poi_list pname gname
           = Some poi ∧
           name poi = pname.
Proof.
  intros Hwf Htmp.
  apply (for_each_invariant_split (E:=effect)
    (λ visited groups,
       keys groups = visited ∧
       ∀ gname, gname ∈ visited →
         ∃ poi, dict_lookup groups gname = Some poi ∧
                loaded_poi read_vars fnames wsname ssname poi_list pname gname
                = Some poi ∧
                name poi = pname)).
  - intros visited g rest gs gs' Hsplit [Hkeys Hall].
    assert (g ∉ visited) as Hfresh.
    { unfold dict_wf in Hwf. rewrite Hsplit in Hwf.
      apply NoDup_app in Hwf as (_ & Hdisj & _). intros Hin.
      apply (Hdisj g Hin). by left. }
    assert (g ∈ keys fnames) as [f Hf]%dict_lookup_is_Some.
    { rewrite Hsplit. apply elem_of_app. right. by left. }
    rewrite (dict_get_Some _ _ _ (Htmp g f Hf)), mret_bind, result_bind.
    destruct (dict_lookup (load_group (read_vars f wsname ssname) poi_list)
                pname) as [poi|] eqn:Hpoi.
    2:{ by rewrite dict_get_None. }
    rewrite (dict_get_Some _ _ poi) by done. intros [= <-]. split.
    + rewrite keys_dict_set_fresh by by rewrite Hkeys. by rewrite Hkeys.
    + intros g' Hg'. rewrite dict_lookup_set. case_bool_decide as Heq.
      * subst g'. exists poi. split; [done|]. split.
        { unfold loaded_poi. by rewrite Hf. }
        by eapply load_group_name.
      * apply Hall. apply elem_of_app in Hg' as [?|Hg']; [done|].
        apply list_elem_of_singleton in Hg'. congruence.
  - split; [done|]. intros g Hg. by apply elem_of_nil in Hg.
Qed.

(** [load_poi_data] logs only on its way to [sys.exit(1)]. *)
Lemma load_poi_data_silent (fnames : dict string) wsname ssname poi_list
    poi_data :
  result (load_poi_data read_vars fnames wsname ssname poi_list)
  = Return poi_data →
  trace (load_poi_data read_vars fnames wsname ssname poi_list) = [].
Proof.
  unfold load_poi_data. rewrite load_files_loop.
  destruct (list_find _ fnames) as [[i [g' f']]|]; [done|]. intros _.
  rewrite bind_Run_Return. cbn [trace app]. rewrite trace_bind.
  assert (∀ (V : Type) (d : dict V) k, trace (dict_get (E:=effect) d k) = [])
    as Hget.
  { intros V d k. unfold dict_get. by destruct (dict_lookup d k). }
  rewrite Hget. destruct (result (dict_get _ "Base")) as [base|]; [|done].
  cbn [app]. apply for_each_trace_nil. intros pd pname.
  rewrite trace_bind.
  rewrite (for_each_trace_nil (E:=effect)).
  { by destruct (result (for_each _ _ _)). }
  intros groups gname. rewrite trace_bind, Hget.
  destruct (result (dict_get _ gname)) as [pois|]; [|done].
  rewrite trace_bind, Hget. by destruct (result (dict_get pois pname)).
Qed.

(** X13. When [load_poi_data] returns for a dictionary of file names (each
    group once), it has logged nothing and the data is the transpose of
    what the containers hold: its POIs are those of the baseline's
    container, in that order; every POI holds exactly the groups of the
    run, in the order of the files; and the entry of a POI under a group is
    the POI of that name read from the group's container. *)
Theorem load_poi_data_transposes (fnames : dict string) wsname ssname
    poi_list poi_data :
  dict_wf fnames →
  result (load_poi_data read_vars fnames wsname ssname poi_list)
  = Return poi_data →
  trace (load_poi_data read_vars fnames wsname ssname poi_list) = [] ∧
  ∃ base_fname,
    dict_lookup fnames "Base" = Some base_fname ∧
    keys poi_data
    = keys (load_group (read_vars base_fname wsname ssname) poi_list) ∧
    ∀ pname groups, dict_lookup poi_data pname = Some groups →
      keys groups = keys fnames ∧
      ∀ gname, gname ∈ keys fnames →
        ∃ poi, dict_lookup groups gname = Some poi ∧
               loaded_poi read_vars fnames wsname ssname poi_list pname gname
               = Some poi ∧
               name poi = pname.
Proof.
  intros Hwf Hret. split; [by eapply load_poi_data_silent|].
  revert Hret. unfold load_poi_data. rewrite load_files_loop.
  destruct (list_find _ fnames) as [[i [g' f']]|]; [done|].
  rewrite bind_Run_Return. cbn [result].
  match goal with
  | |- context [foldl ?step [] fnames] => set (tmp := foldl step [] fnames)
  end.
  assert (∀ g f, dict_lookup fnames g = Some f →
            dict_lookup tmp g
            = Some (load_group (read_vars f wsname ssname) poi_list))
    as Htmp.
  { intros g f Hg. by apply load_files_lookup. }
  destruct (dict_lookup fnames "Base") as [base_fname|] eqn:Hbase.
  2:{ rewrite dict_get_None; [done|]. by apply load_files_lookup_None. }
  rewrite (dict_get_Some _ _ _ (Htmp _ _ Hbase)), mret_bind. intros Hret.
  exists base_fname. split; [done|].
  pose proof (load_group_wf (read_vars base_fname wsname ssname) poi_list)
    as Hnd.
  revert Hret.
  apply (for_each_invariant_split (E:=effect)
    (λ visited poi_data,
       keys poi_data = visited ∧
       ∀ pname groups, dict_lookup poi_data pname = Some groups →
         keys groups = keys fnames ∧
         ∀ gname, gname ∈ keys fnames →
           ∃ poi, dict_lookup groups gname = Some poi ∧
                  loaded_poi read_vars fnames wsname ssname poi_list pname
                    gname = Some poi ∧
                  name poi = pname)).
  - intros visited pname rest pd pd' Hsplit [Hkeys Hall].
    assert (pname ∉ visited) as Hfresh.
    { unfold dict_wf in Hnd. rewrite Hsplit in Hnd.
      apply NoDup_app in Hnd as (_ & Hdisj & _). intros Hin.
      apply (Hdisj pname Hin). by left. }
    rewrite result_bind.
    destruct (result (for_each _ _ _)) as [groups|] eqn:Hgroups; [|done].
    intros [= <-]. split.
    + rewrite keys_dict_set_fresh by by rewrite Hkeys. by rewrite Hkeys.
    + intros pname' groups'. rewrite dict_lookup_set.
      case_bool_decide as Heq; [|by apply Hall].
      subst pname'. intros [= <-].
      by apply (restructure_groups fnames wsname ssname poi_list tmp).
  - split; [done|]. by intros pname groups.
Qed.

End Transposition.

(** Two containers that both hold the POI [mu_a]. *)
Lemma load_poi_data_transposes_witness :
  Py.trace (SystBreakdown.load_poi_data Examples.uniform_containers
              Examples.two_fnames "combWS" "quickfit" []) = [] ∧
  ∃ base_fname,
    Py.dict_lookup Examples.two_fnames "Base" = Some base_fname ∧
    Py.keys Examples.uniform_poi_data
    = Py.keys (SystBreakdown.load_group
                 (Examples.uniform_containers base_fname "combWS" "quickfit")
                 []) ∧
    ∀ pname groups,
      Py.dict_lookup Examples.uniform_poi_data pname = Some groups →
      Py.keys groups = Py.keys Examples.two_fnames ∧
      ∀ gname, gname ∈ Py.keys Examples.two_fnames →
        ∃ poi, Py.dict_lookup groups gname = Some poi ∧
               Report.loaded_poi Examples.uniform_containers
                 Examples.two_fnames "combWS" "quickfit" [] pname gname
               = Some poi ∧
               SystBreakdown.name poi = pname.
Proof.
  apply (load_poi_data_transposes Examples.uniform_containers
           Examples.two_fnames "combWS" "quickfit" []
           Examples.uniform_poi_data).
  - unfold Py.dict_wf, Py.keys, Examples.two_fnames.
    cbn [fmap list_fmap fst]. compute_done.
  - reflexivity.
Defined.

(** ** syst_breakdown.py: more on the discovery of the alternative fits *)
Section DiscoveryMore.
Import Py SystBreakdown Spec.

Lemma dict_set_head {V} (k0 : string) (v0 : V) (d : dict V) k v :
  ∃ v1 d', dict_set ((k0, v0) :: d) k v = (k0, v1) :: d' ∧
           (v1 = v0 ∨ (k = k0 ∧ v1 = v)).
Proof. simpl. case_bool_decide; subst; eauto 6. Qed.

Lemma elem_of_dict_set {V} (d : dict V) k v k' v' :
  (k', v') ∈ dict_set d k v → (k', v') = (k, v) ∨ (k', v') ∈ d.
Proof.
  induction d as [|[k0 v0] d IH]; simpl.
  { intros ->%list_elem_of_singleton. by left. }
  case_bool_decide as Heq.
  - intros [->|Hin]%elem_of_cons; [subst; by left|]. right. by right.
  - intros [->|Hin]%elem_of_cons; [right; by left|].
    destruct (IH Hin) as [?|?]; [by left|]. right. by right.
Qed.

Lemma length_dict_set {V} (d : dict V) k v :
  length (dict_set d k v) ≤ S (length d).
Proof.
  induction d as [|[k0 v0] d IH]; simpl; [lia|].
  case_bool_decide; simpl; lia.
Qed.

Lemma split_sep_go_cons sep skip piece s :
  ∃ p ps, split_sep_go sep skip piece s = p :: ps.
Proof.
  revert skip piece. induction s as [|c s IH]; intros skip piece.
  { by eauto. }
  cbn [split_sep_go]. destruct skip as [|k]; [|apply IH].
  destruct (startswith sep (String c s)); [by eauto|apply IH].
Qed.

(** A string that holds the separator falls into two pieces at least. *)
Lemma split_sep_go_present sep piece s :
  sep ≠ "" → contains sep s = true →
  ∃ p1 p2 ps, split_sep_go sep 0 piece s = p1 :: p2 :: ps.
Proof.
  intros Hsep. revert piece. induction s as [|c s IH]; intros piece Hc.
  { by destruct sep. }
  cbn [contains] in Hc. cbn [split_sep_go].
  destruct (startswith sep (String c s)) eqn:Hstart.
  - destruct (split_sep_go_cons sep (String.length sep - 1) "" s)
      as (p & ps & ->).
    by eauto.
  - by apply IH.
Qed.

End DiscoveryMore.

Section DiscoveryInvariants.
Import Py SystBreakdown Spec.
Context (glob : string → list string).

(** X14. Whatever the directory holds, a dictionary that [get_fnames]
    returns holds each group once and has the key [Base] first; the file
    under [Base] is the input file or, when a discovered file reads as the
    group [Base], such a file; every other entry is a file that [glob]
    listed, under the group name that file reads as; and there are at
    most as many groups as files listed. *)
Theorem get_fnames_base_first (fname : string) (fnames : dict string) :
  result (get_fnames glob fname) = Return fnames →
  dict_wf fnames ∧
  (∃ f rest, fnames = ("Base", f) :: rest ∧
     (f = fname ∨
      (f ∈ glob ((splitext fname).1 +:+ "_*" +:+ (splitext fname).2) ∧
       result (group_name_of (splitext fname).1 (splitext fname).2 f)
       = Return "Base"))) ∧
  (∀ g f, (g, f) ∈ fnames →
     (g, f) = ("Base", fname) ∨
     (f ∈ glob ((splitext fname).1 +:+ "_*" +:+ (splitext fname).2) ∧
      result (group_name_of (splitext fname).1 (splitext fname).2 f)
      = Return g)) ∧
  length fnames ≤ S (length (glob ((splitext fname).1 +:+ "_*"
                                   +:+ (splitext fname).2))).
Proof.
  unfold get_fnames. destruct (splitext fname) as [base ext]. cbn [fst snd].
  intros Hret.
  apply (for_each_invariant (E:=effect)
    (λ visited fnames,
       dict_wf fnames ∧
       (∃ f rest, fnames = ("Base", f) :: rest ∧
          (f = fname ∨
           (f ∈ visited ∧
            result (group_name_of base ext f) = Return "Base"))) ∧
       (∀ g f, (g, f) ∈ fnames →
          (g, f) = ("Base", fname) ∨
          (f ∈ visited ∧ result (group_name_of base ext f) = Return g)) ∧
       length fnames ≤ S (length visited)))
    with (visited := []) in Hret; [done| |].
  - clear Hret fnames.
    intros visited alt_fname fnames fnames'
      (Hwf & (f & rest & Hhead & Hf) & Hall & Hlen).
    rewrite result_bind.
    destruct (result (group_name_of base ext alt_fname)) as [gname|] eqn:Hg;
      [|done].
    intros [= <-]. split_and!.
    + by apply dict_set_wf.
    + destruct (dict_set_head "Base" f rest gname alt_fname)
        as (v1 & d' & Hset & Hv1).
      exists v1, d'. rewrite Hhead. split; [done|].
      destruct Hv1 as [->|[-> ->]].
      * destruct Hf as [?|[? ?]]; [by left|right].
        split; [|done]. apply elem_of_app. by left.
      * right. split; [|done]. apply elem_of_app. right. by left.
    + intros g f' [[= -> ->]|Hin]%elem_of_dict_set.
      * right. split; [|done]. apply elem_of_app. right. by left.
      * destruct (Hall g f' Hin) as [?|[? ?]]; [by left|].
        right. split; [|done]. apply elem_of_app. by left.
    + etrans; [apply length_dict_set|]. rewrite length_app. simpl. lia.
  - split_and!.
    + unfold dict_wf, keys. cbn [fmap list_fmap fst]. apply NoDup_singleton.
    + exists fname, []. by auto.
    + intros g f ->%list_elem_of_singleton. by left.
    + simpl. lia.
Qed.

(** X15. The round trip between the two scripts, where it holds.  For a
    baseline [base.root] and a directory that holds exactly the outputs
    [base_g.root] that [edit_cmd] derives for the groups [g] of a list
    without repetition and without [Base], each group name free of the
    extension and (up to the extension that follows it) of the baseline
    stem followed by an underscore: [get_fnames] returns the baseline and
    then every group under its own name, in the order of the listing, and
    logs nothing. *)
Theorem get_fnames_reads_back_groups (fname base : string)
    (gnames : list string) :
  splitext fname = (base, ".root") →
  glob (base +:+ "_*" +:+ ".root")
  = (λ g, base +:+ "_" +:+ g +:+ ".root") <$> gnames →
  NoDup gnames → "Base" ∉ gnames →
  (∀ g, g ∈ gnames →
     contains (base +:+ "_") (g +:+ ".root") = false ∧
     contains ".root" g = false) →
  get_fnames glob fname
  = Run [] (Return (("Base", fname)
                    :: ((λ g, (g, base +:+ "_" +:+ g +:+ ".root"))
                          <$> gnames))).
Proof.
  intros Hsplit Hglob Hnd Hbase Hfree. unfold get_fnames.
  rewrite Hsplit, Hglob.
  assert (∀ acc : dict string,
    (∀ g, g ∈ gnames → g ∉ keys acc) →
    for_each (E:=effect)
      ((λ g, base +:+ "_" +:+ g +:+ ".root") <$> gnames)
      (λ fnames alt_fname,
         gname ← group_name_of base ".root" alt_fname;
         mret (dict_set fnames gname alt_fname)) acc
    = Run [] (Return (acc ++ ((λ g, (g, base +:+ "_" +:+ g +:+ ".root"))
                                <$> gnames)))) as Hloop.
  { clear Hglob Hbase. induction gnames as [|g gnames IH]; intros acc Hacc.
    { cbn [fmap list_fmap for_each]. by rewrite app_nil_r. }
    apply NoDup_cons in Hnd as [Hg Hnd].
    destruct (Hfree g) as [Hfree1 Hfree2]; [by left|].
    rewrite !fmap_cons. cbn [for_each].
    rewrite group_name_of_round_trip by done.
    change (Run (E:=effect) [] (Return g)) with (@mret (run effect) _ _ g).
    rewrite !mret_bind, dict_set_fresh by (apply Hacc; left).
    rewrite IH.
    - by rewrite <-app_assoc.
    - done.
    - intros g' Hg'. apply Hfree. by right.
    - intros g' Hg'. unfold keys. rewrite fmap_app, elem_of_app.
      intros [Hin|Hin%list_elem_of_singleton].
      + by apply (Hacc g'); [right|].
      + simpl in Hin. congruence. }
  rewrite Hloop; [done|]. intros g Hg Hin.
  unfold keys in Hin. cbn [fmap list_fmap fst] in Hin.
  apply list_elem_of_singleton in Hin. congruence.
Qed.

(** X16. A baseline file name without extension cannot have alternative
    fits: as soon as [glob] lists a file, [get_fnames] raises while it
    reads the group name of the first one, an [IndexError] if the file
    name does not hold the baseline stem followed by an underscore, and
    else a [ValueError] for the split on the empty extension. *)
Theorem get_fnames_no_extension (fname base alt_fname : string)
    (alt_fnames : list string) :
  splitext fname = (base, "") →
  glob (base +:+ "_*" +:+ "") = alt_fname :: alt_fnames →
  (contains (base +:+ "_") alt_fname = false →
   result (get_fnames glob fname) = Raise IndexError) ∧
  (contains (base +:+ "_") alt_fname = true →
   result (get_fnames glob fname) = Raise ValueError).
Proof.
  intros Hsplit Hglob. unfold get_fnames. rewrite Hsplit, Hglob.
  cbn [for_each]. rewrite !result_bind. unfold group_name_of.
  assert (base +:+ "_" ≠ "") as Hsep by by destruct base.
  rewrite split_sep_nonempty, mret_bind by done. split; intros Hc.
  - rewrite split_sep_go_absent by done. by cbn.
  - rewrite result_bind.
    destruct (split_sep_go_present (base +:+ "_") "" alt_fname Hsep Hc)
      as (p1 & p2 & ps & ->).
    by cbn.
Qed.

End DiscoveryInvariants.

(** A directory with the outputs of two groups next to [fit.root]. *)
Lemma get_fnames_base_first_witness :
  Py.dict_wf Examples.three_fnames ∧
  (∃ f rest, Examples.three_fnames = ("Base", f) :: rest ∧
     (f = "fit.root" ∨
      (f ∈ Examples.three_files_glob
             ((Py.splitext "fit.root").1 +:+ "_*"
              +:+ (Py.splitext "fit.root").2) ∧
       Py.result (SystBreakdown.group_name_of (Py.splitext "fit.root").1
                    (Py.splitext "fit.root").2 f)
       = Py.Return "Base"))) ∧
  (∀ g f, (g, f) ∈ Examples.three_fnames →
     (g, f) = ("Base", "fit.root") ∨
     (f ∈ Examples.three_files_glob
            ((Py.splitext "fit.root").1 +:+ "_*"
             +:+ (Py.splitext "fit.root").2) ∧
      Py.result (SystBreakdown.group_name_of (Py.splitext "fit.root").1
                   (Py.splitext "fit.root").2 f)
      = Py.Return g)) ∧
  length Examples.three_fnames
  ≤ S (length (Examples.three_files_glob
                 ((Py.splitext "fit.root").1 +:+ "_*"
                  +:+ (Py.splitext "fit.root").2))).
Proof.
  apply (get_fnames_base_first Examples.three_files_glob "fit.root"
           Examples.three_fnames).
  reflexivity.
Defined.

Lemma get_fnames_reads_back_groups_witness :
  SystBreakdown.get_fnames Examples.three_files_glob "fit.root"
  = Py.Run [] (Py.Return (("Base", "fit.root")
                 :: ((λ g, (g, "fit" +:+ "_" +:+ g +:+ ".root"))
                       <$> ["sysA"; "sysB"]))).
Proof.
  apply (get_fnames_reads_back_groups Examples.three_files_glob "fit.root"
           "fit" ["sysA"; "sysB"]).
  - reflexivity.
  - reflexivity.
  - compute_done.
  - compute_done.
  - intros g Hg. apply elem_of_cons in Hg as [->|Hg]; [by split|].
    apply list_elem_of_singleton in Hg as ->. by split.
Defined.

(** The baseline [fit], without extension, and the file [fit_sysA]. *)
Lemma get_fnames_no_extension_witness :
  (Py.contains ("fit" +:+ "_") "fit_sysA" = false →
   Py.result (SystBreakdown.get_fnames Examples.bare_glob "fit")
   = Py.Raise Py.IndexError) ∧
  (Py.contains ("fit" +:+ "_") "fit_sysA" = true →
   Py.result (SystBreakdown.get_fnames Examples.bare_glob "fit")
   = Py.Raise Py.ValueError).
Proof.
  apply (get_fnames_no_extension Examples.bare_glob "fit" "fit" "fit_sysA"
           []).
  - reflexivity.
  - reflexivity.
Defined.

(** ** syst_breakdown.py: what the engine logs *)
Section Logs.
Import Py SystBreakdown Spec Closed.

(** A loop whose iterations log and print only what [P] allows. *)
Lemma for_each_trace_Forall {E X S} (P : E → Prop) (xs : list X)
    (body : S → X → run E S) :
  (∀ s x, Forall P (trace (body s x))) →
  ∀ s, Forall P (trace (for_each xs body s)).
Proof.
  intros Hbody. induction xs as [|x xs IH]; intros s.
  { apply Forall_nil_2. }
  cbn [for_each]. rewrite trace_bind.
  destruct (result (body s x)); [|done].
  apply Forall_app. by split.
Qed.

Lemma trace_bind_Forall {E A B} (P : E → Prop) (m : run E A)
    (k : A → run E B) :
  Forall P (trace m) → (∀ a, Forall P (trace (k a))) →
  Forall P (trace (m ≫= k)).
Proof.
  intros Hm Hk. rewrite trace_bind. destruct (result m); [|done].
  apply Forall_app. by split.
Qed.

Lemma dict_get_trace {V} (d : dict V) k :
  trace (dict_get (E:=effect) d k) = [].
Proof. unfold dict_get. by destruct (dict_lookup d k). Qed.

Lemma dict_get_quiet {V} (P : effect → Prop) (d : dict V) k :
  Forall P (trace (dict_get d k)).
Proof. rewrite dict_get_trace. apply Forall_nil_2. Qed.

(** [check_fit_results] prints nothing. *)
Lemma check_fit_results_logs (poi_data : dict (dict POI))
    (tolerance : float) :
  Forall (λ e : effect, ∃ lvl m, e = Log lvl m)
    (trace (check_fit_results poi_data tolerance)).
Proof.
  unfold check_fit_results. apply for_each_trace_Forall.
  intros [] pname.
  apply trace_bind_Forall; [apply dict_get_quiet|]. intros groups.
  apply trace_bind_Forall; [apply dict_get_quiet|]. intros base_poi.
  apply for_each_trace_Forall.
  intros [] [gname alt_poi]. case_bool_decide; [apply Forall_nil_2|].
  unfold float_div. destruct (_ =? 0)%float; [apply Forall_nil_2|].
  rewrite mret_bind. destruct (_ <? _)%float; [|apply Forall_nil_2].
  apply Forall_singleton. by eauto.
Qed.

Lemma side_warning_log (base_err alt_err : float) (m : message) :
  Forall (λ e : effect, ∃ lvl m, e = Log lvl m)
    (side_warning base_err alt_err m).
Proof.
  unfold side_warning. destruct (_ <=? _)%float; [apply Forall_nil_2|].
  apply Forall_singleton. by eauto.
Qed.

Lemma sub_quad_errs_logs (self poi : POI) :
  Forall (λ e : effect, ∃ lvl m, e = Log lvl m)
    (trace (sub_quad_errs self poi)).
Proof.
  rewrite sub_quad_errs_closed.
  destruct (side_overflows (err self).1 (err poi).1); [apply Forall_nil_2|].
  destruct (side_overflows (err self).2 (err poi).2); cbn [trace].
  - apply side_warning_log.
  - apply Forall_app. split; apply side_warning_log.
Qed.

(** [compute_impacts] prints nothing. *)
Lemma compute_impacts_logs (poi_data : dict (dict POI)) :
  Forall (λ e : effect, ∃ lvl m, e = Log lvl m)
    (trace (compute_impacts poi_data)).
Proof.
  unfold compute_impacts. apply for_each_trace_Forall.
  intros impacts pname.
  apply trace_bind_Forall; [apply dict_get_quiet|]. intros groups.
  apply trace_bind_Forall; [apply dict_get_quiet|]. intros base_poi.
  apply trace_bind_Forall; [|intros entry; apply Forall_nil_2].
  apply for_each_trace_Forall. intros entry [gname alt_poi].
  case_bool_decide; [apply Forall_nil_2|].
  apply trace_bind_Forall; [apply sub_quad_errs_logs|].
  intros impact. apply Forall_nil_2.
Qed.

(** On well-formed data, [compute_impacts] returns a table or raises
    [OverflowError]. *)
Lemma compute_impacts_returns_or_overflows (poi_data : dict (dict POI)) :
  well_formed poi_data →
  (squares_fine poi_data ∧
   ∃ impacts, result (compute_impacts poi_data) = Return impacts) ∨
  (¬ squares_fine poi_data ∧
   result (compute_impacts poi_data) = Raise OverflowError).
Proof.
  intros Hwf.
  destruct (compute_impacts_with_baselines poi_data) as [[impacts Hret]|Hov].
  - apply Forall_forall. intros pname [groups Hgroups]%dict_lookup_is_Some.
    destruct (Hwf pname groups Hgroups) as [_ [base_poi Hbase]].
    unfold groups_of. rewrite Hgroups.
    change (default [] (Some groups)) with groups. by rewrite Hbase.
  - left. split; [by eapply compute_impacts_returns_fine|by eauto].
  - right. split; [|done]. intros Hfine.
    by rewrite (compute_impacts_closed poi_data Hwf Hfine) in Hov.
Qed.

End Logs.

(** ** syst_breakdown.py: the report *)
Section ReportFacts.
Import Py SystBreakdown Spec Closed Report.

Lemma print_group_closed (impacts : dict (dict (float * float))) pname gname
    (alt_poi : POI) (entry : dict (float * float))
    (impact : float * float) :
  dict_lookup impacts pname = Some entry →
  dict_lookup entry gname = Some impact →
  print_group impacts pname gname alt_poi
  = Run [Print (GroupRow gname (value alt_poi) (err alt_poi).1
                  (err alt_poi).2 impact.1 impact.2)] (Return ()).
Proof.
  intros Hentry Himpact. unfold print_group.
  rewrite (dict_get_Some _ _ entry), mret_bind by done.
  by rewrite (dict_get_Some _ _ impact), mret_bind by done.
Qed.

Lemma print_last_not_base gname : gname ∈ print_last → gname ≠ "Base".
Proof.
  intros Hin ->. revert Hin. unfold print_last.
  rewrite !elem_of_cons, elem_of_nil. by intros [?|[?|[?|[?|[]]]]].
Qed.

Lemma fmap_bind_list {X Y Z} (f : Y → Z) (g : X → list Y) (xs : list X) :
  f <$> (xs ≫= g) = xs ≫= λ x, f <$> g x.
Proof.
  induction xs as [|x xs IH]; [done|].
  by rewrite !bind_cons, fmap_app, IH.
Qed.

(** The impact of a group of a POI, as [compute_impacts] files it. *)
Lemma lookup_group_impacts (base_poi : POI) (groups : dict POI) gname
    alt_poi :
  dict_wf groups → dict_lookup groups gname = Some alt_poi →
  gname ≠ "Base" →
  dict_lookup (group_impacts base_poi groups) gname
  = Some (quad_impact base_poi alt_poi).
Proof.
  intros Hwf Hlook Hne. unfold group_impacts.
  apply (lookup_foldl_items (λ k, bool_decide (k = "Base"))
           (quad_impact base_poi)); [done|done|].
  by apply bool_decide_false.
Qed.

Lemma foldl_unit {X} (xs : list X) (s : ()) : foldl (λ _ _, ()) s xs = ().
Proof. revert s. induction xs as [|x xs IH]; intros []; [done|apply IH]. Qed.

Lemma print_plain_rows (impacts : dict (dict (float * float))) pname
    (base_poi : POI) (groups : dict POI) :
  dict_wf groups →
  dict_lookup impacts pname = Some (group_impacts base_poi groups) →
  for_each (E:=effect) groups (λ _ '(gname, alt_poi),
    if bool_decide (gname ∈ "Base" :: print_last) then mret ()
    else print_group impacts pname gname alt_poi) ()
  = Run (Print <$> plain_rows base_poi groups) (Return ()).
Proof.
  intros Hwf Hentry. unfold plain_rows. rewrite fmap_bind_list.
  etrans; [apply (for_each_returns
    (λ x, Print <$> (let '(gname, alt_poi) := x in
            if bool_decide (gname ∈ "Base" :: print_last) then []
            else [group_row base_poi gname alt_poi]))
    (λ _ _, ()))|by rewrite foldl_unit].
  intros [] [gname alt_poi] Hin. case_bool_decide as Hlast; [done|].
  apply not_elem_of_cons in Hlast as [Hne _].
  apply (print_group_closed _ _ _ _ (group_impacts base_poi groups));
    [done|].
  apply lookup_group_impacts; [done| |done]. by apply dict_lookup_wf.
Qed.

Lemma print_aggregate_rows (impacts : dict (dict (float * float))) pname
    (base_poi : POI) (groups : dict POI) :
  dict_wf groups →
  dict_lookup impacts pname = Some (group_impacts base_poi groups) →
  for_each (E:=effect) print_last (λ _ gname,
    match dict_lookup groups gname with
    | None => mret ()
    | Some alt_poi => print_group impacts pname gname alt_poi
    end) ()
  = Run (Print <$> aggregate_rows base_poi groups) (Return ()).
Proof.
  intros Hwf Hentry. unfold aggregate_rows. rewrite fmap_bind_list.
  etrans; [apply (for_each_returns
    (λ gname, Print <$> match dict_lookup groups gname with
                        | None => []
                        | Some alt_poi => [group_row base_poi gname alt_poi]
                        end)
    (λ _ _, ()))|by rewrite foldl_unit].
  intros [] gname Hin%print_last_not_base.
  destruct (dict_lookup groups gname) as [alt_poi|] eqn:Hlook; [|done].
  apply (print_group_closed _ _ _ _ (group_impacts base_poi groups));
    [done|].
  by apply lookup_group_impacts.
Qed.

(** [print_syst_breakdown] on the table [compute_impacts] returns. *)
Lemma print_syst_breakdown_closed (poi_data : dict (dict POI))
    (impacts : dict (dict (float * float))) :
  well_formed poi_data →
  result (compute_impacts poi_data) = Return impacts →
  print_syst_breakdown poi_data impacts
  = Run (Print <$> report poi_data) (Return ()).
Proof.
  intros Hwf Hret.
  pose proof (compute_impacts_returns_fine _ _ Hwf Hret) as Hfine.
  revert Hret. rewrite (compute_impacts_closed poi_data Hwf Hfine).
  intros [= <-]. unfold print_syst_breakdown, report, emit.
  rewrite bind_Run_Return.
  rewrite fmap_cons, fmap_bind_list. cbn [trace result app].
  assert (∀ (body : () → string → run effect ()) (tr : string → list effect),
            (∀ s pname, pname ∈ keys poi_data →
               body s pname = Run (tr pname) (Return ())) →
            for_each (keys poi_data) body () = Run (keys poi_data ≫= tr)
                                                 (Return ())) as Hloop.
  { intros body tr Hbody.
    etrans; [apply (for_each_returns tr (λ _ _, ()))|by rewrite foldl_unit].
    intros [] pname Hin. by apply Hbody. }
  erewrite Hloop; [done|]. clear Hloop.
  intros [] pname Hin.
  pose proof Hin as [groups Hgroups]%dict_lookup_is_Some.
  destruct (Hwf pname groups Hgroups) as [Hnd [base_poi Hbase]].
  assert (groups_of poi_data pname = groups) as ->.
  { unfold groups_of. by rewrite Hgroups. }
  assert (base_of groups = base_poi) as ->.
  { unfold base_of. by rewrite Hbase. }
  rewrite (dict_get_Some _ _ groups), mret_bind by done.
  rewrite (dict_get_Some _ _ base_poi), mret_bind by done.
  rewrite !bind_Run_Return.
  rewrite (print_plain_rows _ _ base_poi), bind_Run_Return.
  - rewrite (print_aggregate_rows _ _ base_poi), bind_Run_Return.
    + cbn [trace result]. unfold poi_table.
      by rewrite !fmap_app.
    + done.
    + rewrite (lookup_foldl_set
        (λ pname, group_impacts (base_of (groups_of poi_data pname))
                    (groups_of poi_data pname))) by done.
      unfold groups_of, base_of. rewrite Hgroups. cbn. by rewrite Hbase.
  - done.
  - rewrite (lookup_foldl_set
      (λ pname, group_impacts (base_of (groups_of poi_data pname))
                  (groups_of poi_data pname))) by done.
    unfold groups_of, base_of. rewrite Hgroups. cbn. by rewrite Hbase.
Qed.

End ReportFacts.

Section ReportRows.
Import Py SystBreakdown Spec Closed Report.

Lemma length_plain_rows (base_poi : POI) (groups : dict POI) :
  length (plain_rows base_poi groups)
  = length (filter (λ gname, gname ∉ "Base" :: print_last) (keys groups)).
Proof.
  unfold plain_rows, keys.
  induction groups as [|[gname alt_poi] groups IH]; [done|].
  rewrite bind_cons, length_app, fmap_cons, IH. cbn [fst].
  case_bool_decide as Hlast.
  - rewrite filter_cons_False; [done|]. by intros Hn.
  - by rewrite filter_cons_True.
Qed.

Lemma length_aggregate_rows (base_poi : POI) (groups : dict POI)
    (last : list string) :
  length (last ≫= λ gname,
            match dict_lookup groups gname with
            | None => []
            | Some alt_poi => [group_row base_poi gname alt_poi]
            end)
  = length (filter (λ gname, gname ∈ keys groups) last).
Proof.
  induction last as [|gname last IH]; [done|].
  rewrite bind_cons, length_app, IH.
  destruct (dict_lookup groups gname) as [alt_poi|] eqn:Hlook.
  - rewrite filter_cons_True; [done|].
    apply dict_lookup_is_Some. by rewrite Hlook.
  - rewrite filter_cons_False; [done|]. by apply dict_lookup_None.
Qed.

(** The table of a POI has one row for each group but the baseline. *)
Lemma rows_count (base_poi : POI) (groups : dict POI) :
  dict_wf groups → "Base" ∈ keys groups →
  length (plain_rows base_poi groups ++ aggregate_rows base_poi groups)
  = length groups - 1.
Proof.
  intros Hwf Hbase. unfold aggregate_rows.
  rewrite length_app, length_plain_rows, length_aggregate_rows.
  assert (filter (λ gname, gname ∈ "Base" :: print_last) (keys groups)
          ≡ₚ filter (λ gname, gname ∈ keys groups) ("Base" :: print_last))
    as Hperm.
  { apply NoDup_Permutation.
    - by apply NoDup_filter.
    - apply NoDup_filter. unfold print_last. compute_done.
    - intros gname. rewrite !list_elem_of_filter. tauto. }
  apply Permutation_length in Hperm.
  rewrite filter_cons_True in Hperm by done. cbn [length] in Hperm.
  pose proof (filter_app_complement
                (λ gname, gname ∈ "Base" :: print_last) (keys groups))
    as Hpart.
  apply Permutation_length in Hpart. rewrite length_app in Hpart.
  unfold keys in *. rewrite length_fmap in Hpart. lia.
Qed.

(** No group is left out of the table. *)
Lemma rows_complete (base_poi : POI) (groups : dict POI) gname alt_poi :
  dict_lookup groups gname = Some alt_poi → gname ≠ "Base" →
  group_row base_poi gname alt_poi
  ∈ plain_rows base_poi groups ++ aggregate_rows base_poi groups.
Proof.
  intros Hlook Hne. apply elem_of_app.
  destruct (decide (gname ∈ print_last)) as [Hlast|Hlast].
  - right. unfold aggregate_rows. apply list_elem_of_bind.
    exists gname. split; [|done]. rewrite Hlook. by left.
  - left. unfold plain_rows. apply list_elem_of_bind.
    exists (gname, alt_poi). split; [|by apply dict_lookup_Some_elem_of].
    rewrite bool_decide_false; [by left|].
    by apply not_elem_of_cons.
Qed.

(** X17. On well-formed POI data, computing the impacts and printing the
    breakdown goes one of two ways.  If no square that [compute_impacts]
    takes overflows, the run returns: after the warnings of
    [compute_impacts], the lines printed are the title and then the table
    of each POI in turn, heading, baseline row, the rows of the ordinary
    groups in the order of the data, the rows of the aggregate groups
    present in their fixed order, closing rule.  Otherwise
    [compute_impacts] raises [OverflowError] and nothing is printed.  The
    table of a POI has exactly one row for each group other than [Base],
    and every such group has its row. *)
Theorem print_syst_breakdown_report (poi_data : dict (dict POI)) :
  well_formed poi_data →
  ((squares_fine poi_data ∧
    (impacts ← compute_impacts poi_data;
     print_syst_breakdown poi_data impacts)
    = Run (trace (compute_impacts poi_data) ++ (Print <$> report poi_data))
          (Return ())) ∨
   (¬ squares_fine poi_data ∧
    (impacts ← compute_impacts poi_data;
     print_syst_breakdown poi_data impacts)
    = Run (trace (compute_impacts poi_data)) (Raise OverflowError))) ∧
  Forall (λ e : effect, ∃ lvl m, e = Log lvl m)
    (trace (compute_impacts poi_data)) ∧
  ∀ pname groups base_poi,
    dict_lookup poi_data pname = Some groups →
    dict_lookup groups "Base" = Some base_poi →
    length (plain_rows base_poi groups ++ aggregate_rows base_poi groups)
    = length groups - 1 ∧
    ∀ gname alt_poi,
      dict_lookup groups gname = Some alt_poi → gname ≠ "Base" →
      group_row base_poi gname alt_poi
      ∈ plain_rows base_poi groups ++ aggregate_rows base_poi groups.
Proof.
  intros Hwf. split; [|split; [apply compute_impacts_logs|]].
  - destruct (compute_impacts_returns_or_overflows poi_data Hwf)
      as [[Hfine [impacts Hret]]|[Hnot Hov]].
    + left. split; [done|]. rewrite (bind_returns _ _ impacts Hret).
      by rewrite (print_syst_breakdown_closed poi_data impacts Hwf Hret).
    + right. split; [done|]. by rewrite (bind_aborts _ _ _ Hov).
  - intros pname groups base_poi Hgroups Hbase.
    destruct (Hwf pname groups Hgroups) as [Hnd _]. split.
    + apply rows_count; [done|]. apply dict_lookup_is_Some.
      by rewrite Hbase.
    + intros gname alt_poi. apply rows_complete.
Qed.

End ReportRows.

(** The scenario of the specification. *)
Lemma print_syst_breakdown_report_witness :
  ((Closed.squares_fine Examples.scenario_poi_data ∧
    (impacts ← SystBreakdown.compute_impacts Examples.scenario_poi_data;
     SystBreakdown.print_syst_breakdown Examples.scenario_poi_data impacts)
    = Py.Run (Py.trace (SystBreakdown.compute_impacts
                          Examples.scenario_poi_data)
              ++ (Py.Print <$> Report.report Examples.scenario_poi_data))
        (Py.Return ())) ∨
   (¬ Closed.squares_fine Examples.scenario_poi_data ∧
    (impacts ← SystBreakdown.compute_impacts Examples.scenario_poi_data;
     SystBreakdown.print_syst_breakdown Examples.scenario_poi_data impacts)
    = Py.Run (Py.trace (SystBreakdown.compute_impacts
                          Examples.scenario_poi_data))
        (Py.Raise Py.OverflowError))) ∧
  Forall (λ e : SystBreakdown.effect, ∃ lvl m, e = Py.Log lvl m)
    (Py.trace (SystBreakdown.compute_impacts Examples.scenario_poi_data)) ∧
  ∀ pname groups base_poi,
    Py.dict_lookup Examples.scenario_poi_data pname = Some groups →
    Py.dict_lookup groups "Base" = Some base_poi →
    length (Report.plain_rows base_poi groups
            ++ Report.aggregate_rows base_poi groups)
    = length groups - 1 ∧
    ∀ gname alt_poi,
      Py.dict_lookup groups gname = Some alt_poi → gname ≠ "Base" →
      Report.group_row base_poi gname alt_poi
      ∈ Report.plain_rows base_poi groups
        ++ Report.aggregate_rows base_poi groups.
Proof.
  apply (print_syst_breakdown_report Examples.scenario_poi_data).
  by apply well_formed_one_poi.
Defined.

(** ** syst_breakdown.py: the whole run *)
Section WholeRun.
Import Py SystBreakdown Spec Closed Report.
Context (glob : string → list string).
Context (read_vars : string → string → string → list variable).

(** [load_poi_data] prints nothing. *)
Lemma load_poi_data_logs (fnames : dict string) wsname ssname poi_list :
  Forall (λ e : effect, ∃ lvl m, e = Log lvl m)
    (trace (load_poi_data read_vars fnames wsname ssname poi_list)).
Proof.
  unfold load_poi_data. rewrite load_files_loop.
  destruct (list_find _ fnames) as [[i [g' f']]|].
  { apply Forall_singleton. by eauto. }
  apply trace_bind_Forall; [apply Forall_nil_2|]. intros tmp.
  apply trace_bind_Forall; [apply dict_get_quiet|]. intros base.
  apply for_each_trace_Forall. intros pd pname.
  apply trace_bind_Forall; [|intros groups; apply Forall_nil_2].
  apply for_each_trace_Forall. intros groups gname.
  apply trace_bind_Forall; [apply dict_get_quiet|]. intros pois.
  apply trace_bind_Forall; [apply dict_get_quiet|]. intros poi.
  apply Forall_nil_2.
Qed.

Lemma load_poi_data_returns_base (fnames : dict string) wsname ssname
    poi_list poi_data :
  result (load_poi_data read_vars fnames wsname ssname poi_list)
  = Return poi_data →
  "Base" ∈ keys fnames.
Proof.
  unfold load_poi_data. rewrite load_files_loop.
  destruct (list_find _ fnames) as [[i [g' f']]|]; [done|].
  rewrite bind_Run_Return. cbn [result].
  destruct (dict_lookup fnames "Base") as [base_fname|] eqn:Hbase.
  { intros _. apply dict_lookup_is_Some. by rewrite Hbase. }
  rewrite dict_get_None; [done|]. by apply load_files_lookup_None.
Qed.

(** X18. [main] prints the report in full or not at all.  Either the file
    names are found, the data loads and passes the consistency check
    without a division by zero, and the impacts are computed without an
    overflow: then [main] returns, and what it has logged and printed is
    the warnings of the check, the warnings of the impacts and then every
    line of the report; or [main] ends with an exception or an exit, and
    it has printed nothing. *)
Theorem main_reports_in_full_or_not_at_all (args : arguments) :
  (∃ fnames poi_data impacts,
     result (get_fnames glob (input args)) = Return fnames ∧
     result (load_poi_data read_vars fnames (ws args) (ss args)
               (poi_list_of (poi args))) = Return poi_data ∧
     result (check_fit_results poi_data 0.5) = Return () ∧
     result (compute_impacts poi_data) = Return impacts ∧
     Forall (λ e : effect, ∃ lvl m, e = Log lvl m)
       (trace (check_fit_results poi_data 0.5)
        ++ trace (compute_impacts poi_data)) ∧
     main glob read_vars args
     = Run (trace (check_fit_results poi_data 0.5)
            ++ trace (compute_impacts poi_data)
            ++ (Print <$> report poi_data))
           (Return ())) ∨
  ((∃ f, result (main glob read_vars args) = Abort f) ∧
   Forall (λ e : effect, ∃ lvl m, e = Log lvl m)
     (trace (main glob read_vars args))).
Proof.
  unfold main. pose proof (get_fnames_trace glob (input args)) as Hquiet.
  destruct (result (get_fnames glob (input args))) as [fnames|f] eqn:Hget.
  2:{ right. rewrite (bind_aborts _ _ f Hget), Hquiet.
      split; [by eauto|apply Forall_nil_2]. }
  rewrite (bind_returns _ _ fnames Hget), Hquiet. cbn [app]. cbn zeta.
  pose proof (load_poi_data_logs fnames (ws args) (ss args)
                (poi_list_of (poi args))) as Hload.
  destruct (result (load_poi_data read_vars fnames (ws args) (ss args)
                      (poi_list_of (poi args))))
    as [poi_data|f] eqn:Hret.
  2:{ right. rewrite (bind_aborts _ _ f Hret). by eauto. }
  rewrite (bind_returns _ _ poi_data Hret).
  rewrite (load_poi_data_silent read_vars _ _ _ _ poi_data Hret).
  cbn [app].
  pose proof (check_fit_results_logs poi_data 0.5) as Hcheck.
  destruct (result (check_fit_results poi_data 0.5)) as [[]|f] eqn:Hok.
  2:{ right. rewrite (bind_aborts _ _ f Hok). by eauto. }
  rewrite (bind_returns _ _ () Hok).
  assert (well_formed poi_data) as Hwf.
  { eapply (load_poi_data_well_formed read_vars); [|done].
    by eapply load_poi_data_returns_base. }
  pose proof (compute_impacts_logs poi_data) as Hlogs.
  destruct (compute_impacts_returns_or_overflows poi_data Hwf)
    as [[_ [impacts Himpacts]]|[_ Hov]].
  - left. exists fnames, poi_data, impacts. split_and!; [done..| |].
    { apply Forall_app. by split. }
    rewrite (bind_returns _ _ impacts Himpacts).
    by rewrite (print_syst_breakdown_closed poi_data impacts Hwf Himpacts).
  - right. rewrite (bind_aborts _ _ _ Hov). cbn [trace result].
    split; [by eauto|]. apply Forall_app. by split.
Qed.

End WholeRun.

(** ** syst_breakdown.py: when the consistency check returns *)
Section CheckOutcome.
Import Py SystBreakdown Spec Closed.

(** A POI does not make the check divide by zero: its reference scale, as
    the check computes it, is not a zero, or it has no group besides
    [Base]. *)
Lemma divides_by_zero_false (groups : dict POI) (base_poi : POI) :
  dict_lookup groups "Base" = Some base_poi →
  divides_by_zero groups = false ↔
  (base_scale base_poi =? 0)%float = false ∨
  ∀ gname, gname ∈ keys groups → gname = "Base".
Proof.
  intros Hbase. unfold divides_by_zero, base_of. rewrite Hbase.
  change (default (POI_init "" 0 0 0) (Some base_poi)) with base_poi.
  rewrite andb_false_iff, bool_decide_eq_false, Exists_exists.
  split; (intros [Hscale|Hnone]; [by left|right]).
  - intros gname Hin. destruct (decide (gname = "Base")); [done|].
    destruct Hnone. by exists gname.
  - intros (gname & Hin & Hne). by apply Hne, Hnone.
Qed.

(** X19. On well-formed POI data, [check_fit_results] either returns or
    raises [ZeroDivisionError], and it returns exactly when every POI has
    a reference scale that is not a zero, or no group besides [Base].  The
    scale is the one the check computes, in floats: the half-sum of the
    magnitudes of the baseline errors, which is a zero also for errors
    that are not, when it rounds to zero.  A baseline whose scale is a zero
    is harmless as long as no alternative fit is compared with it. *)
Theorem check_fit_results_returns_iff (poi_data : dict (dict POI))
    tolerance :
  well_formed poi_data →
  (result (check_fit_results poi_data tolerance) = Return () ∨
   result (check_fit_results poi_data tolerance) = Raise ZeroDivisionError) ∧
  (result (check_fit_results poi_data tolerance) = Return () ↔
   ∀ pname groups base_poi,
     dict_lookup poi_data pname = Some groups →
     dict_lookup groups "Base" = Some base_poi →
     (base_scale base_poi =? 0)%float = false ∨
     ∀ gname, gname ∈ keys groups → gname = "Base").
Proof.
  intros Hwf.
  assert ((∀ pname, pname ∈ keys poi_data →
             divides_by_zero (groups_of poi_data pname) = false) ↔
          ∀ pname groups base_poi,
            dict_lookup poi_data pname = Some groups →
            dict_lookup groups "Base" = Some base_poi →
            (base_scale base_poi =? 0)%float = false ∨
            ∀ gname, gname ∈ keys groups → gname = "Base") as Hiff.
  { split.
    - intros Hall pname groups base_poi Hgroups Hbase.
      apply (divides_by_zero_false groups base_poi Hbase).
      assert (groups_of poi_data pname = groups) as <-.
      { unfold groups_of. by rewrite Hgroups. }
      apply Hall, dict_lookup_is_Some. by rewrite Hgroups.
    - intros Hall pname [groups Hgroups]%dict_lookup_is_Some.
      destruct (Hwf pname groups Hgroups) as [_ [base_poi Hbase]].
      assert (groups_of poi_data pname = groups) as ->.
      { unfold groups_of. by rewrite Hgroups. }
      apply (divides_by_zero_false groups base_poi Hbase). by eapply Hall. }
  destruct (check_fit_results_result poi_data tolerance Hwf)
    as [[Hall Hret]|[(pname & Hin & Hdiv) Hraise]].
  - split; [by left|]. split; [intros _; by apply (proj1 Hiff)|done].
  - split; [by right|]. rewrite Hraise. split; [done|].
    intros Hall. destruct Hiff as [_ Hback].
    by rewrite (Hback Hall pname Hin) in Hdiv.
Qed.

End CheckOutcome.

(** A baseline with the errors (5e-324, 0) and one group: the scale rounds
    to zero. *)
Lemma check_fit_results_returns_iff_witness :
  (Py.result (SystBreakdown.check_fit_results Examples.denormal_poi_data
                0.5) = Py.Return () ∨
   Py.result (SystBreakdown.check_fit_results Examples.denormal_poi_data
                0.5) = Py.Raise Py.ZeroDivisionError) ∧
  (Py.result (SystBreakdown.check_fit_results Examples.denormal_poi_data
                0.5) = Py.Return () ↔
   ∀ pname groups base_poi,
     Py.dict_lookup Examples.denormal_poi_data pname = Some groups →
     Py.dict_lookup groups "Base" = Some base_poi →
     (Spec.base_scale base_poi =? 0)%float = false ∨
     ∀ gname, gname ∈ Py.keys groups → gname = "Base").
Proof.
  apply (check_fit_results_returns_iff Examples.denormal_poi_data 0.5).
  by apply well_formed_one_poi.
Defined.

(** ** syst_breakdown.py: the allow-list of POIs *)
Section AllowList.
Import Py SystBreakdown Spec.

Lemma startswith_comma c s :
  startswith "," (String c s) = bool_decide (","%char = c).
Proof. cbn [startswith]. by rewrite andb_true_r. Qed.

Lemma join_cons_cons sep x y l :
  join sep (x :: y :: l) = x +:+ sep +:+ join sep (y :: l).
Proof. reflexivity. Qed.

Lemma join_split_comma piece s :
  join "," (split_sep_go "," 0 piece s) = piece +:+ s.
Proof.
  revert piece. induction s as [|c s IH]; intros piece.
  { by rewrite app_empty_r. }
  cbn [split_sep_go]. rewrite startswith_comma.
  case_bool_decide as Hc.
  - subst c. cbn [String.length Nat.sub].
    destruct (split_sep_go_cons "," 0 "" s) as (p & ps & Heq).
    pose proof (IH "") as Hrest. rewrite Heq in *.
    by rewrite join_cons_cons, Hrest.
  - by rewrite IH, app_assoc_string.
Qed.

Lemma split_comma_free piece s name :
  contains "," piece = false →
  name ∈ split_sep_go "," 0 piece s → contains "," name = false.
Proof.
  revert piece. induction s as [|c s IH]; intros piece Hpiece.
  { by intros ->%list_elem_of_singleton. }
  cbn [split_sep_go]. rewrite startswith_comma.
  case_bool_decide as Hc.
  - cbn [String.length Nat.sub].
    intros [->|Hin]%elem_of_cons; [done|]. by apply (IH "").
  - apply IH. rewrite contains_char_app, Hpiece.
    cbn [contains startswith orb]. rewrite andb_true_r, orb_false_r.
    by apply bool_decide_false.
Qed.

(** X20. The allow-list [main] builds from the [-p] argument: it is empty
    exactly when the argument is empty (no [-p]: every [mu_] variable is a
    POI); otherwise its names joined by commas give back the argument, and
    no name holds a comma. *)
Theorem poi_list_of_commas (poi : string) :
  (poi_list_of poi = [] ↔ poi = "") ∧
  join "," (poi_list_of poi) = poi ∧
  ∀ name, name ∈ poi_list_of poi → contains "," name = false.
Proof.
  unfold poi_list_of. case_bool_decide as Hpoi.
  - subst poi. split; [done|]. split; [done|].
    by intros name ?%elem_of_nil.
  - split_and!.
    + split; [|done]. intros Hnil.
      destruct (split_sep_go_cons "," 0 "" poi) as (p & ps & Heq).
      by rewrite Heq in Hnil.
    + apply join_split_comma.
    + intros name. by apply split_comma_free.
Qed.

End AllowList.

(** ** syst_breakdown.py: how a run can end *)
Section RunOutcome.
Import Py SystBreakdown Spec Closed Report.
Context (glob : string → list string).
Context (read_vars : string → string → string → list variable).






End RunOutcome.
